(** * Service-calendar resolution engine of [scripts/gtfs_json_builder.py]

    A shallow embedding of the calendar activation model, the change-point
    window scanner, the route-aware grouper, the ambiguity resolver and the
    pruning orchestrator, together with the properties the specification
    states about them.

    Conventions of the embedding:
    - a CSV row ([Dict]) is a finite map from column names to strings;
    - a Python [set] is a [gset], a [dict] a [gmap];
    - a [datetime.date] is its proleptic Gregorian ordinal
      ([date.toordinal()]), an integer between 1 and 3652059;
    - code that can raise returns in the [Res] monad;
    - identifiers are ASCII strings (one character per byte);
    - [print] calls are not modelled. *)

From stdpp Require Import base gmap sets list strings sorting pretty.
From Stdlib Require Import ZArith Lia Ascii.

Open Scope Z_scope.

(** ** Exceptions *)

Inductive exn : Type :=
| KeyError (key : string)
| OverflowError
| IndexError.

Inductive Res (A : Type) : Type :=
| Ok (a : A)
| Raise (e : exn).

Arguments Ok {A} a.
Arguments Raise {A} e.

#[global] Instance Res_ret : MRet Res := @Ok.
#[global] Instance Res_bind : MBind Res :=
  λ A B f m, match m with Ok a => f a | Raise e => Raise e end.

(** A [for] loop whose body can raise. *)
Fixpoint foldlM {A B : Type} (f : B → A → Res B) (b : B) (l : list A) : Res B :=
  match l with
  | [] => Ok b
  | x :: l' => b' ← f b x; foldlM f b' l'
  end.

(** A list comprehension [[x for x in l if p(x)]] whose test can raise. *)
Fixpoint filterM {A : Type} (p : A → Res bool) (l : list A) : Res (list A) :=
  match l with
  | [] => Ok []
  | x :: l' => b ← p x; ys ← filterM p l'; Ok (if b : bool then x :: ys else ys)
  end.

(** ** Rows *)

Abbreviation Row := (gmap string string).

(** [row.get(k, d)] *)
Definition dict_get (row : Row) (k d : string) : string := default d (row !! k).

(** [row[k]] *)
Definition dict_item (row : Row) (k : string) : Res string :=
  match row !! k with
  | Some v => Ok v
  | None => Raise (KeyError k)
  end.

(** Truthiness of an optional string: [None] and [""] are falsy. *)
Definition truthy (o : option string) : bool :=
  match o with
  | Some s => negb (String.eqb s "")
  | None => false
  end.

(** ** Python built-ins used by the script *)

Module Py.

Definition is_space (c : Ascii.ascii) : bool :=
  let n := Z.of_nat (Ascii.nat_of_ascii c) in
  ((9 <=? n) && (n <=? 13)) || (n =? 32).

Definition digit_val (c : Ascii.ascii) : option Z :=
  let n := Z.of_nat (Ascii.nat_of_ascii c) in
  if (48 <=? n) && (n <=? 57) then Some (n - 48) else None.

Fixpoint lstrip (l : list Ascii.ascii) : list Ascii.ascii :=
  match l with
  | c :: l' => if is_space c then lstrip l' else l
  | [] => []
  end.

Definition strip (l : list Ascii.ascii) : list Ascii.ascii :=
  reverse (lstrip (reverse (lstrip l))).

(** Decimal digits, single underscores allowed between two digits. *)
Fixpoint digits (acc : Z) (after_digit : bool) (l : list Ascii.ascii) : option Z :=
  match l with
  | [] => if after_digit then Some acc else None
  | c :: l' =>
      match digit_val c with
      | Some d => digits (10 * acc + d) true l'
      | None =>
          if Ascii.eqb c "_"%char && after_digit then digits acc false l'
          else None
      end
  end.

(** [sys.int_info.default_max_str_digits]: a decimal string with more digits
    is refused. *)
Definition MAX_STR_DIGITS : Z := 4300.

(** The digits of the string, underscores apart. *)
Definition digit_count (l : list Ascii.ascii) : Z :=
  Z.of_nat (length (filter (λ c, is_Some (digit_val c)) l)).

(** The digits after the sign: more than [MAX_STR_DIGITS] of them raise
    [ValueError] as a malformed string does. *)
Definition int_of_digits (l : list Ascii.ascii) : option Z :=
  v ← digits 0 false l;
  if bool_decide (digit_count l ≤ MAX_STR_DIGITS) then Some v else None.

(** [int(s)] on an ASCII string; [None] stands for [ValueError]. *)
Definition int (s : string) : option Z :=
  match strip (String.list_ascii_of_string s) with
  | c :: l =>
      if Ascii.eqb c "+"%char then int_of_digits l
      else if Ascii.eqb c "-"%char then Z.opp <$> int_of_digits l
      else int_of_digits (c :: l)
  | [] => None
  end.

(** Zero-padded two-digit field, as [%m] and [%d] print it. *)
Definition pad2 (n : Z) : string :=
  if n <? 10 then "0" +:+ pretty n else pretty n.

(** *** [datetime.date], after CPython's [datetime.py] *)

Definition MAXORDINAL : Z := 3652059.

Definition is_leap (year : Z) : bool :=
  (year mod 4 =? 0) && (negb (year mod 100 =? 0) || (year mod 400 =? 0)).

Definition days_before_year (year : Z) : Z :=
  let y := year - 1 in y * 365 + y / 4 - y / 100 + y / 400.

Definition DAYS_IN_MONTH : list Z :=
  [-1; 31; 28; 31; 30; 31; 30; 31; 31; 30; 31; 30; 31].

Definition DAYS_BEFORE_MONTH : list Z :=
  [-1; 0; 31; 59; 90; 120; 151; 181; 212; 243; 273; 304; 334].

Definition days_in_month (year month : Z) : Z :=
  if (month =? 2) && is_leap year then 29
  else DAYS_IN_MONTH !!! Z.to_nat month.

Definition days_before_month (year month : Z) : Z :=
  DAYS_BEFORE_MONTH !!! Z.to_nat month
  + (if (2 <? month) && is_leap year then 1 else 0).

Definition ymd2ord (year month day : Z) : Z :=
  days_before_year year + days_before_month year month + day.

(** [date(year, month, day)]; [None] stands for [ValueError]. *)
Definition date (year month day : Z) : option Z :=
  if (1 <=? year) && (year <=? 9999) && (1 <=? month) && (month <=? 12)
     && (1 <=? day) && (day <=? days_in_month year month)
  then Some (ymd2ord year month day)
  else None.

Definition ord2ymd (n0 : Z) : Z * Z * Z :=
  let n := n0 - 1 in
  let n400 := n / 146097 in
  let n := n mod 146097 in
  let year := n400 * 400 + 1 in
  let n100 := n / 36524 in
  let n := n mod 36524 in
  let n4 := n / 1461 in
  let n := n mod 1461 in
  let n1 := n / 365 in
  let n := n mod 365 in
  let year := year + n100 * 100 + n4 * 4 + n1 in
  if (n1 =? 4) || (n100 =? 4) then (year - 1, 12, 31)
  else
    let leapyear := (n1 =? 3) && (negb (n4 =? 24) || (n100 =? 3)) in
    let month := Z.shiftr (n + 50) 5 in
    let preceding :=
      DAYS_BEFORE_MONTH !!! Z.to_nat month
      + (if (2 <? month) && leapyear then 1 else 0) in
    if n <? preceding then
      let month := month - 1 in
      let preceding :=
        preceding - (DAYS_IN_MONTH !!! Z.to_nat month
                     + (if (month =? 2) && leapyear then 1 else 0)) in
      (year, month, n - preceding + 1)
    else (year, month, n - preceding + 1).

(** [d.weekday()]: Monday is 0, Sunday is 6. *)
Definition weekday (d : Z) : Z := (d + 6) mod 7.

(** [d + timedelta(days=n)] *)
Definition date_add (d n : Z) : Res Z :=
  if bool_decide (0 < d + n ≤ MAXORDINAL) then Ok (d + n)
  else Raise OverflowError.

(** [f"{d:%Y%m%d}"]; the C library prints the year without padding. *)
Definition strftime_Ymd (d : Z) : string :=
  let '(y, m, dd) := ord2ymd d in pretty y +:+ pad2 m +:+ pad2 dd.

(** [f"{d:%Y-%m-%d}"] *)
Definition strftime_Y_m_d (d : Z) : string :=
  let '(y, m, dd) := ord2ymd d in
  pretty y +:+ "-" +:+ pad2 m +:+ "-" +:+ pad2 dd.

Definition repr_bool (b : bool) : string := if b then "True" else "False".

(** [str(t)] for a tuple of booleans with at least two components. *)
Definition str_bools (t : list bool) : string :=
  "(" +:+ String.concat ", " (repr_bool <$> t) +:+ ")".

End Py.

(** ** The script *)

Definition UNKNOWN_ROUTE_ID : string := "<unknown-route>".

Definition _yyyymmdd_to_date (s : string) : option Z :=
  if bool_decide (String.length s ≠ 8%nat) then None
  else
    y ← Py.int (String.substring 0 4 s);
    m ← Py.int (String.substring 4 2 s);
    d ← Py.int (String.substring 6 2 s);
    Py.date y m d.

Definition _date_to_yyyymmdd (d : Z) : string := Py.strftime_Ymd d.

Definition day_names : list string :=
  ["monday"; "tuesday"; "wednesday"; "thursday"; "friday"; "saturday"; "sunday"].

Definition _weekday_mask (cal_row : Row) : list bool :=
  (λ day, bool_decide (dict_get cal_row day "0" = "1")) <$> day_names.

Definition _parse_ymd (s : string) : option Z := _yyyymmdd_to_date s.

(** [sorted(xs)] on strings. *)
Definition sorted_strings (l : list string) : list string :=
  merge_sort (λ a b : string, String.leb a b) l.

(** *** Calendar activation model *)

Definition calendar_step (D : Z) (active : gset string) (row : Row) : Res (gset string) :=
  let start := _yyyymmdd_to_date (dict_get row "start_date" "") in
  let end_ := _yyyymmdd_to_date (dict_get row "end_date" "") in
  match start, end_ with
  | Some s, Some e =>
      if bool_decide (s ≤ D ≤ e) then
        if (_weekday_mask row !!! Z.to_nat (Py.weekday D) : bool) then
          sid ← dict_item row "service_id"; Ok ({[sid]} ∪ active : gset string)
        else Ok active
      else Ok active
  | _, _ => Ok active
  end.

Definition exception_step (key : string) (active : gset string) (exc : Row) : gset string :=
  if bool_decide (exc !! "date" = Some key) then
    let sid := dict_get exc "service_id" "" in
    let t := dict_get exc "exception_type" "" in
    if bool_decide (t = "1") then {[sid]} ∪ active
    else if bool_decide (t = "2") then active ∖ {[sid]}
    else active
  else active.

Definition _active_services_on (D : Z) (calendar_rows calendar_dates_rows : list Row) : Res (gset string) :=
  active ← foldlM (calendar_step D) ∅ calendar_rows;
  let key := _date_to_yyyymmdd D in
  Ok (foldl (exception_step key) active calendar_dates_rows).

(** *** Change-point window scanner *)

Record WinState : Type := mkWinState {
  cur_from : Z;
  cur_sig : Z * Z;
  wins : list (Z * Z)
}.

Section Windows.

(** [int(hashlib.sha1(payload).hexdigest()[:8], 16)] *)
Variable sha1_hex8 : string → Z.

Definition sig (sids : gset string) : Z * Z :=
  if bool_decide (sids = ∅) then (0, 0)
  else
    let payload := String.concat "|" (sorted_strings (elements sids)) in
    (Z.of_nat (size sids), sha1_hex8 payload).

Definition window_step (start : Z) (cal cd : list Row) (st : WinState) (i : Z) : Res WinState :=
  d ← Py.date_add start i;
  s ← _active_services_on d cal cd;
  let sg := sig s in
  if bool_decide (sg ≠ cur_sig st) then
    prev ← Py.date_add d (-1);
    Ok {| cur_from := d; cur_sig := sg; wins := wins st ++ [(cur_from st, prev)] |}
  else Ok st.

Definition _effective_windows (start days : Z) (cal cd : list Row) : Res (list (Z * Z)) :=
  if bool_decide (days ≤ 0) then Ok []
  else
    cur_set ← _active_services_on start cal cd;
    st ← foldlM (window_step start cal cd)
           {| cur_from := start; cur_sig := sig cur_set; wins := [] |}
           (seqZ 1 days);
    last ← Py.date_add start days;
    Ok (wins st ++ [(cur_from st, last)]).

End Windows.

(** *** Active dates of one service *)

(** The [while cur <= end] loop; [fuel] bounds the number of iterations and
    is chosen by the caller so that the loop leaves through its test. *)
Fixpoint weekly_loop (fuel : nat) (mask : list bool) (cur end_ : Z) (active : gset Z) : Res (gset Z) :=
  match fuel with
  | O => Ok active
  | S fuel' =>
      if bool_decide (cur ≤ end_) then
        let active' :=
          if (mask !!! Z.to_nat (Py.weekday cur) : bool) then {[cur]} ∪ active
          else active in
        cur' ← Py.date_add cur 1;
        weekly_loop fuel' mask cur' end_ active'
      else Ok active
  end.

Definition overlay_step (service_id : string) (active : gset Z) (exc : Row) : gset Z :=
  if bool_decide (exc !! "service_id" = Some service_id) then
    match _parse_ymd (dict_get exc "date" "") with
    | None => active
    | Some d =>
        let t := dict_get exc "exception_type" "" in
        if bool_decide (t = "1") then {[d]} ∪ active
        else if bool_decide (t = "2") then active ∖ {[d]}
        else active
    end
  else active.

Definition _active_dates_for_service (service_id : string) (calendar : Row) (exceptions : list Row) : Res (gset Z) :=
  let start := _parse_ymd (dict_get calendar "start_date" "") in
  let end_ := _parse_ymd (dict_get calendar "end_date" "") in
  active ← match start, end_ with
           | Some s, Some e =>
               weekly_loop (Z.to_nat (e - s + 1)) (_weekday_mask calendar) s e ∅
           | _, _ => Ok ∅
           end;
  Ok (foldl (overlay_step service_id) active exceptions).

(** *** Ambiguity resolver *)

Record Metrics : Type := mkMetrics {
  active_dates : gset Z;
  start_date : option Z;
  last_active_date : option Z;
  active_after_pivot : Z
}.

#[global] Instance Metrics_inhabited : Inhabited Metrics :=
  populate (mkMetrics ∅ None None 0).

(** [max(xs) if xs else None] *)
Definition max_opt (l : list Z) : option Z :=
  match l with
  | [] => None
  | x :: l' => Some (foldl Z.max x l')
  end.

(** The metrics of one service, as the loop body computes them. *)
Definition service_metrics (svc_id : string) (calendars : gmap string Row)
    (calendar_dates : list Row) (pivot_date : Z) : Res Metrics :=
  let cal := default ∅ (calendars !! svc_id) in
  let exceptions :=
    filter (λ exc : Row, exc !! "service_id" = Some svc_id) calendar_dates in
  active ← _active_dates_for_service svc_id cal exceptions;
  let start := _parse_ymd (dict_get cal "start_date" "") in
  let last_active := max_opt (elements active) in
  let after := Z.of_nat (length (filter (λ d, pivot_date ≤ d) (elements active))) in
  Ok (mkMetrics active start last_active after).

Definition metrics_step (calendars : gmap string Row) (calendar_dates : list Row)
    (pivot_date : Z) (metrics : gmap string Metrics) (svc_id : string) : Res (gmap string Metrics) :=
  m ← service_metrics svc_id calendars calendar_dates pivot_date;
  Ok (<[svc_id := m]> metrics).

(** The loop [for svc_id in services] that fills [metrics]. *)
Definition build_metrics (services : list string) (calendars : gmap string Row)
    (calendar_dates : list Row) (pivot_date : Z) : Res (gmap string Metrics) :=
  foldlM (metrics_step calendars calendar_dates pivot_date) ∅ services.

(** [len(A & B)] for the active dates of [a] and [b]. *)
Definition overlap (metrics : gmap string Metrics) (a b : string) : Z :=
  Z.of_nat (size (active_dates (metrics !!! a) ∩ active_dates (metrics !!! b))).

(** The nested loops over [enumerate(services)] and [services[i+1:]]. *)
Fixpoint overlap_scan (metrics : gmap string Metrics) (services : list string) (max_overlap : Z) : Z :=
  match services with
  | [] => max_overlap
  | a :: rest =>
      overlap_scan metrics rest
        (foldl (λ mo b, let ov := overlap metrics a b in
                        if bool_decide (mo < ov) then ov else mo)
               max_overlap rest)
  end.

(** [(winner, reasons, is_ambiguous)] *)
Definition Verdict : Type := option string * list string * bool.

(** A stage either returns from the function ([inl]) or hands the narrowed
    candidates and the reasons so far to the next stage ([inr]). *)
Definition Stage : Type := Verdict + (list string * list string).

Definition stage_last_active (metrics : gmap string Metrics) (candidates reasons : list string) : Stage :=
  let last_dates := omap last_active_date (snd <$> map_to_list metrics) in
  match max_opt last_dates with
  | Some max_last =>
      let candidates :=
        filter (λ s, last_active_date (metrics !!! s) = Some max_last) candidates in
      if bool_decide (length candidates = 1%nat) then
        inl (head candidates,
             reasons ++ ["Latest last_active_date: " +:+ Py.strftime_Y_m_d max_last],
             false)
      else
        inr (candidates,
             reasons ++ ["Tied on last_active_date: " +:+ Py.strftime_Y_m_d max_last])
  | None => inr (candidates, reasons)
  end.

Definition stage_after_pivot (metrics : gmap string Metrics) (candidates reasons : list string) : Stage :=
  match max_opt ((λ s, active_after_pivot (metrics !!! s)) <$> candidates) with
  | Some max_after =>
      let candidates :=
        filter (λ s, active_after_pivot (metrics !!! s) = max_after) candidates in
      if bool_decide (length candidates = 1%nat) then
        inl (head candidates,
             reasons ++ ["Most active days after pivot (" +:+ pretty max_after +:+ " days)"],
             false)
      else if bool_decide (0 < max_after) then
        inr (candidates,
             reasons ++ ["Tied on active days after pivot: " +:+ pretty max_after])
      else inr (candidates, reasons)
  | None => inr (candidates, reasons)
  end.

Definition stage_start_date (metrics : gmap string Metrics) (candidates reasons : list string) : Stage :=
  let starts := omap (λ s, start_date (metrics !!! s)) candidates in
  match max_opt starts with
  | Some max_start =>
      let candidates :=
        filter (λ s, start_date (metrics !!! s) = Some max_start) candidates in
      if bool_decide (length candidates = 1%nat) then
        inl (head candidates,
             reasons ++ ["Latest start_date: " +:+ Py.strftime_Y_m_d max_start],
             false)
      else
        inr (candidates,
             reasons ++ ["Tied on start_date: " +:+ Py.strftime_Y_m_d max_start])
  | None => inr (candidates, reasons)
  end.

(** [[(int(s), s) for s in candidates]]; [None] when some [int(s)] raises. *)
Definition int_keys (candidates : list string) : option (list (Z * string)) :=
  mapM (λ s, (λ n, (n, s)) <$> Py.int s) candidates.

(** Order of the tuples [(int(s), s)]. *)
Definition pair_leb (a b : Z * string) : bool :=
  (a.1 <? b.1) || ((a.1 =? b.1) && String.leb a.2 b.2).

Definition lexicographic_tiebreak (candidates reasons : list string) : Res Verdict :=
  match head (merge_sort (λ a b : string, String.leb b a) candidates) with
  | Some winner =>
      Ok (Some winner,
          reasons ++ ["Tiebreaker: lexicographically highest service_id ("
                      +:+ winner +:+ ")"],
          false)
  | None => Raise IndexError
  end.

(** The [try] block and its [except Exception] handler. *)
Definition final_tiebreak (candidates reasons : list string) : Res Verdict :=
  match int_keys candidates with
  | Some c_int =>
      match head (merge_sort (λ a b : Z * string, pair_leb b a) c_int) with
      | Some (_, winner) =>
          Ok (Some winner,
              reasons ++ ["Tiebreaker: highest service_id (" +:+ winner +:+ ")"],
              false)
      | None => lexicographic_tiebreak candidates reasons
      end
  | None => lexicographic_tiebreak candidates reasons
  end.

Definition elimination_chain (metrics : gmap string Metrics) (services : list string) : Res Verdict :=
  match stage_last_active metrics services [] with
  | inl v => Ok v
  | inr (candidates, reasons) =>
      match stage_after_pivot metrics candidates reasons with
      | inl v => Ok v
      | inr (candidates, reasons) =>
          match stage_start_date metrics candidates reasons with
          | inl v => Ok v
          | inr (candidates, reasons) => final_tiebreak candidates reasons
          end
      end
  end.

Definition ambiguous_reason (max_overlap overlap_max_days : Z) : string :=
  "Ambiguous: services overlap by " +:+ pretty max_overlap
  +:+ " days (> " +:+ pretty overlap_max_days +:+ ")".

Definition _choose_service_winner_factual (services : list string)
    (calendars : gmap string Row) (calendar_dates : list Row)
    (pivot_date overlap_max_days : Z) : Res Verdict :=
  if bool_decide (length services ≤ 1)%nat then
    Ok (head services, ["Only one service in group"], false)
  else
    metrics ← build_metrics services calendars calendar_dates pivot_date;
    let max_overlap := overlap_scan metrics services 0 in
    if bool_decide (overlap_max_days < max_overlap) then
      Ok (None, [ambiguous_reason max_overlap overlap_max_days], true)
    else elimination_chain metrics services.

(** *** Route-aware equivalence grouper *)

Abbreviation GroupKey := (list bool * list string)%type.

(** [o or d] for an optional string. *)
Definition or_default (o : option string) (d : string) : string :=
  match o with
  | Some s => if bool_decide (s = "") then d else s
  | None => d
  end.

Definition routes_step (service_routes : gmap string (gset string)) (trip : Row) : gmap string (gset string) :=
  let service_id := trip !! "service_id" in
  if truthy service_id then
    let sid := default "" service_id in
    let route_id := or_default (trip !! "route_id") UNKNOWN_ROUTE_ID in
    <[sid := {[route_id]} ∪ default ∅ (service_routes !! sid)]> service_routes
  else service_routes.

(** [service_routes.get(service_id) or {UNKNOWN_ROUTE_ID}] *)
Definition routes_or_unknown (service_routes : gmap string (gset string)) (service_id : string) : gset string :=
  match service_routes !! service_id with
  | Some s => if bool_decide (s = ∅) then {[UNKNOWN_ROUTE_ID]} else s
  | None => {[UNKNOWN_ROUTE_ID]}
  end.

Definition group_step (service_routes : gmap string (gset string))
    (groups : gmap GroupKey (list string)) (cal : Row) : gmap GroupKey (list string) :=
  let service_id := cal !! "service_id" in
  if truthy service_id then
    let sid := default "" service_id in
    let mask := _weekday_mask cal in
    let routes := sorted_strings (elements (routes_or_unknown service_routes sid)) in
    <[(mask, routes) := default [] (groups !! (mask, routes)) ++ [sid]]> groups
  else groups.

Definition _build_route_grouping (calendar_rows trips : list Row) : gmap GroupKey (list string) * gmap string (gset string) :=
  let service_routes := foldl routes_step ∅ trips in
  let groups := foldl (group_step service_routes) ∅ calendar_rows in
  (groups, service_routes).

(** *** Pruning orchestrator *)

Record GroupRecord : Type := mkGroupRecord {
  g_weekday_mask : string;
  g_route_ids : list string;
  g_service_ids : list string;
  g_winner : option string;
  g_reasons : list string;
  g_is_ambiguous : bool
}.

Record Summary : Type := mkSummary {
  total_groups : Z;
  overlapping_groups : Z;
  ambiguous_groups : Z;
  pruned_services : Z;
  kept_services : Z
}.

Record Diagnostics : Type := mkDiagnostics {
  d_pivot_date : string;
  d_overlap_max_days : Z;
  d_groups : list GroupRecord;
  d_summary : Summary
}.

(** The variables the loop over the groups updates; [total_groups], the pivot
    and the threshold of the diagnostics are fixed before the loop. *)
Record PruneState : Type := mkPruneState {
  services_to_keep : gset string;
  services_to_prune : gset string;
  st_groups : list GroupRecord;
  st_overlapping : Z;
  st_ambiguous : Z;
  st_pruned : Z;
  st_kept : Z
}.

Definition bool_cmp (a b : bool) : comparison :=
  match a, b with
  | false, true => Lt
  | true, false => Gt
  | _, _ => Eq
  end.

(** Comparison of two tuples, component by component. *)
Fixpoint list_cmp {A : Type} (cmp : A → A → comparison) (l1 l2 : list A) : comparison :=
  match l1, l2 with
  | [], [] => Eq
  | [], _ :: _ => Lt
  | _ :: _, [] => Gt
  | x :: l1', y :: l2' =>
      match cmp x y with
      | Eq => list_cmp cmp l1' l2'
      | c => c
      end
  end.

(** Order of the sort key [(item[0][0], item[0][1])]. *)
Definition key_leb (k1 k2 : GroupKey) : bool :=
  match list_cmp bool_cmp k1.1 k2.1 with
  | Lt => true
  | Gt => false
  | Eq =>
      match list_cmp String.compare k1.2 k2.2 with
      | Gt => false
      | _ => true
      end
  end.

Definition sorted_groups (groups : gmap GroupKey (list string)) : list (GroupKey * list string) :=
  merge_sort (λ a b : GroupKey * list string, key_leb a.1 b.1) (map_to_list groups).

(** [sum(1 for f in mask if f)] *)
Definition active_day_count (mask : list bool) : Z :=
  Z.of_nat (length (filter (λ f : bool, f) mask)).

(** The body of the loop over the sorted groups; [resolve] is the call
    [_choose_service_winner_factual(service_ids, calendars_dict,
    calendar_dates, pivot, overlap_max_days)]. *)
Definition process_group (resolve : list string → Res Verdict)
    (st : PruneState) (g : GroupKey * list string) : Res PruneState :=
  let '((mask, route_ids), service_ids) := g in
  let count := active_day_count mask in
  let route_label := String.concat "," route_ids in
  if bool_decide (length service_ids ≤ 1)%nat then
    Ok {| services_to_keep := list_to_set service_ids ∪ services_to_keep st;
          services_to_prune := services_to_prune st;
          st_groups := st_groups st;
          st_overlapping := st_overlapping st;
          st_ambiguous := st_ambiguous st;
          st_pruned := st_pruned st;
          st_kept := st_kept st + Z.of_nat (length service_ids) |}
  else if bool_decide (count ≤ 2) then
    Ok {| services_to_keep := list_to_set service_ids ∪ services_to_keep st;
          services_to_prune := services_to_prune st;
          st_groups :=
            st_groups st ++
            [ {| g_weekday_mask := Py.str_bools mask;
                 g_route_ids := route_ids;
                 g_service_ids := service_ids;
                 g_winner := None;
                 g_reasons :=
                   [ "Weekday mask has " +:+ pretty count
                     +:+ " active day(s); keeping all services";
                     "Routes: " +:+ route_label ];
                 g_is_ambiguous := true |} ];
          st_overlapping := st_overlapping st + 1;
          st_ambiguous := st_ambiguous st + 1;
          st_pruned := st_pruned st;
          st_kept := st_kept st + Z.of_nat (length service_ids) |}
  else
    '(winner, reasons, is_ambiguous) ← resolve service_ids;
    let record :=
      {| g_weekday_mask := Py.str_bools mask;
         g_route_ids := route_ids;
         g_service_ids := service_ids;
         g_winner := winner;
         g_reasons := reasons;
         g_is_ambiguous := is_ambiguous |} in
    if is_ambiguous || negb (truthy winner) then
      Ok {| services_to_keep := list_to_set service_ids ∪ services_to_keep st;
            services_to_prune := services_to_prune st;
            st_groups := st_groups st ++ [record];
            st_overlapping := st_overlapping st + 1;
            st_ambiguous := st_ambiguous st + 1;
            st_pruned := st_pruned st;
            st_kept := st_kept st + Z.of_nat (length service_ids) |}
    else
      let w := default "" winner in
      let pruned := filter (λ s, s ≠ w) service_ids in
      Ok {| services_to_keep := {[w]} ∪ services_to_keep st;
            services_to_prune := list_to_set pruned ∪ services_to_prune st;
            st_groups := st_groups st ++ [record];
            st_overlapping := st_overlapping st + 1;
            st_ambiguous := st_ambiguous st;
            st_pruned := st_pruned st + Z.of_nat (length pruned);
            st_kept := st_kept st + 1 |}.

(** [pivot]: the current UTC date [today], or the feed start date if later. *)
Definition pivot_of (today : Z) (feed_info : list Row) : Z :=
  match feed_info with
  | [] => today
  | fi :: _ =>
      match _parse_ymd (dict_get fi "feed_start_date" "") with
      | Some fs => if bool_decide (today < fs) then fs else today
      | None => today
      end
  end.

Definition calendars_step (m : gmap string Row) (cal : Row) : Res (gmap string Row) :=
  sid ← dict_item cal "service_id"; Ok (<[sid := cal]> m).

(** [{cal["service_id"]: cal for cal in calendar_rows}] *)
Definition build_calendars_dict (calendar_rows : list Row) : Res (gmap string Row) :=
  foldlM calendars_step ∅ calendar_rows.

Definition init_state : PruneState :=
  {| services_to_keep := ∅; services_to_prune := ∅; st_groups := [];
     st_overlapping := 0; st_ambiguous := 0; st_pruned := 0; st_kept := 0 |}.

(** The state after the loop over the groups. *)
Definition prune_groups (today : Z) (calendar_rows calendar_dates trips feed_info : list Row)
    (overlap_max_days : Z) : Res PruneState :=
  let pivot := pivot_of today feed_info in
  calendars_dict ← build_calendars_dict calendar_rows;
  let groups := (_build_route_grouping calendar_rows trips).1 in
  foldlM (process_group (λ service_ids,
            _choose_service_winner_factual service_ids calendars_dict
              calendar_dates pivot overlap_max_days))
         init_state (sorted_groups groups).

(** [x in s] where [x] comes from [row.get(k)]. *)
Definition in_set (o : option string) (s : gset string) : bool :=
  match o with
  | Some x => bool_decide (x ∈ s)
  | None => false
  end.

Definition kept_by_service_id (keep : gset string) (row : Row) : Res bool :=
  sid ← dict_item row "service_id"; Ok (bool_decide (sid ∈ keep)).

Definition trips_step (keep : gset string) (acc : list Row * gset string) (t : Row) : list Row * gset string :=
  if in_set (t !! "service_id") keep then
    (acc.1 ++ [t], {[dict_get t "trip_id" ""]} ∪ acc.2)
  else acc.

Definition _prune_overlaps_factual (today : Z)
    (agencies calendar_rows calendar_dates trips stop_times feed_info : list Row)
    (overlap_max_days : Z)
  : Res (list Row * list Row * list Row * list Row * Diagnostics) :=
  st ← prune_groups today calendar_rows calendar_dates trips feed_info overlap_max_days;
  let keep := services_to_keep st in
  cal_f ← filterM (kept_by_service_id keep) calendar_rows;
  cd_f ← filterM (kept_by_service_id keep) calendar_dates;
  let '(trips_f, kept_trip_ids) := foldl (trips_step keep) ([], ∅) trips in
  let stop_times_f :=
    filter (λ st : Row, in_set (st !! "trip_id") kept_trip_ids) stop_times in
  let groups := (_build_route_grouping calendar_rows trips).1 in
  Ok (cal_f, cd_f, trips_f, stop_times_f,
      {| d_pivot_date := Py.strftime_Y_m_d (pivot_of today feed_info);
         d_overlap_max_days := overlap_max_days;
         d_groups := st_groups st;
         d_summary :=
           {| total_groups := Z.of_nat (size groups);
              overlapping_groups := st_overlapping st;
              ambiguous_groups := st_ambiguous st;
              pruned_services := st_pruned st;
              kept_services := st_kept st |} |}).

(** * Specification-level definitions

    The definitions of this part follow the wording of the specification;
    the theorems below compare them with the functions of the script. *)

(** ** Calendar activation *)

Inductive ExceptionKind : Type := Add | Remove.

Definition exception_kind (exc : Row) : option ExceptionKind :=
  let t := dict_get exc "exception_type" "" in
  if bool_decide (t = "1") then Some Add
  else if bool_decide (t = "2") then Some Remove
  else None.

(** Monday-first ordinal of a date: day 1 (0001-01-01) is a Monday. *)
Definition monday_first_index (D : Z) : Z := (D - 1) mod 7.

(** The weekday column of a calendar row that decides for the date [D]. *)
Definition weekday_column (D : Z) : string :=
  day_names !!! Z.to_nat (monday_first_index D).

(** The calendar's date range parses and contains [D], and its flag for
    [D]'s weekday is set. *)
Definition in_weekly_pattern (D : Z) (cal : Row) : bool :=
  match _yyyymmdd_to_date (dict_get cal "start_date" ""),
        _yyyymmdd_to_date (dict_get cal "end_date" "") with
  | Some s, Some e =>
      bool_decide (s ≤ D ≤ e)
      && bool_decide (dict_get cal (weekday_column D) "0" = "1")
  | _, _ => false
  end.

Definition weekly_services (D : Z) (calendars : list Row) : gset string :=
  list_to_set
    (omap (λ cal : Row, if in_weekly_pattern D cal then cal !! "service_id" else None)
          calendars).

Definition apply_exception (active : gset string) (exc : Row) : gset string :=
  let sid := dict_get exc "service_id" "" in
  match exception_kind exc with
  | Some Add => {[sid]} ∪ active
  | Some Remove => active ∖ {[sid]}
  | None => active
  end.

(** The exceptions whose date field is the date [D]. *)
Definition exceptions_on (D : Z) (exceptions : list Row) : list Row :=
  filter (λ exc : Row, exc !! "date" = Some (_date_to_yyyymmdd D)) exceptions.

Definition spec_active_services (D : Z) (calendars exceptions : list Row) : gset string :=
  foldl apply_exception (weekly_services D calendars) (exceptions_on D exceptions).

(** ** Windows *)

(** A window is a non-empty range of days on which the signature is the
    one of its first day. *)
Definition window_constant (sig_on : Z → Z * Z) (w : Z * Z) : Prop :=
  w.1 ≤ w.2 ∧ ∀ d, w.1 ≤ d ≤ w.2 → sig_on d = sig_on w.1.

(** Each window starts the day after the previous one ends, with another
    signature. *)
Definition windows_chained (sig_on : Z → Z * Z) (ws : list (Z * Z)) : Prop :=
  ∀ (i : nat) (w w' : Z * Z),
    ws !! i = Some w → ws !! S i = Some w' →
    w'.1 = w.2 + 1 ∧ sig_on w'.1 ≠ sig_on w.1.

Definition windows_ok (sig_on : Z → Z * Z) (lo hi : Z) (ws : list (Z * Z)) : Prop :=
  (∃ w, head ws = Some w ∧ w.1 = lo)
  ∧ (∃ w, last ws = Some w ∧ w.2 = hi)
  ∧ Forall (window_constant sig_on) ws
  ∧ windows_chained sig_on ws.

(** The signature of the services active on day [d]. *)
Definition signature_on (sha1_hex8 : string → Z) (active : Z → gset string) (d : Z) : Z * Z :=
  sig sha1_hex8 (active d).

(** The signature the scanner sees on day [d]. *)
Definition scan_signature (sha1_hex8 : string → Z) (cal cd : list Row) : Z → Z * Z :=
  signature_on sha1_hex8 (λ d, spec_active_services d cal cd).

(** After the days [start .. start + k] the closed windows followed by the
    open one tile that range. *)
Definition scan_invariant (sha1_hex8 : string → Z) (start : Z) (cal cd : list Row)
    (k : Z) (st : WinState) : Prop :=
  windows_ok (scan_signature sha1_hex8 cal cd) start (start + k)
    (wins st ++ [(cur_from st, start + k)])
  ∧ cur_sig st = scan_signature sha1_hex8 cal cd (cur_from st).

(** ** A small feed for the examples *)

Definition mk_row (fields : list (string * string)) : Row := list_to_map fields.

Definition mk_calendar (service_id start end_ : string) (days : list string) : Row :=
  mk_row ([("service_id", service_id); ("start_date", start); ("end_date", end_)]
          ++ ((λ day, (day, "1")) <$> days)).

Definition mk_exception (service_id date kind : string) : Row :=
  mk_row [("service_id", service_id); ("date", date); ("exception_type", kind)].

Definition mk_trip (trip_id service_id route_id : string) : Row :=
  mk_row [("trip_id", trip_id); ("service_id", service_id); ("route_id", route_id)].

Definition working_days : list string :=
  ["monday"; "tuesday"; "wednesday"; "thursday"; "friday"].

(** Two timetables of the same working-day service in January 2024. *)
Definition demo_calendars : list Row :=
  [ mk_calendar "100" "20240101" "20240131" working_days;
    mk_calendar "101" "20240115" "20240131" working_days ].

(** Stands for the hash in the examples. *)
Definition demo_hash (payload : string) : Z := Z.of_nat (String.length payload).

(** ** Resolver *)

(** Order of optional dates in which an absent date loses. *)
Definition opt_date_le (a b : option Z) : Prop :=
  match a, b with
  | None, _ => True
  | Some _, None => False
  | Some x, Some y => x ≤ y
  end.

#[global] Instance opt_date_le_dec (a b : option Z) : Decision (opt_date_le a b).
Proof. destruct a, b; simpl; apply _. Defined.

(** One stage of the chain: keep the candidates whose key is highest. *)
Definition keep_highest {K : Type} (le : K → K → Prop) `{!∀ x y, Decision (le x y)}
    (key : string → K) (pool : list string) : list string :=
  filter (λ s, Forall (λ s', le (key s') (key s)) pool) pool.

(** The final tiebreak: the numerically largest id when every id of the pool
    parses as an integer, otherwise the lexicographically largest one. *)
Definition final_pick (pool : list string) (w : string) : Prop :=
  w ∈ pool
  ∧ (Forall (λ s, is_Some (Py.int s)) pool →
     ∃ k, Py.int w = Some k ∧ ∀ s, s ∈ pool → ∃ n, Py.int s = Some n ∧ n ≤ k)
  ∧ (¬ Forall (λ s, is_Some (Py.int s)) pool →
     ∀ s, s ∈ pool → String.leb s w = true).

Definition pool_last_active (m : gmap string Metrics) (pool : list string) : list string :=
  keep_highest opt_date_le (λ s, last_active_date (m !!! s)) pool.

Definition pool_after_pivot (m : gmap string Metrics) (pool : list string) : list string :=
  keep_highest Z.le (λ s, active_after_pivot (m !!! s)) pool.

Definition pool_start_date (m : gmap string Metrics) (pool : list string) : list string :=
  keep_highest opt_date_le (λ s, start_date (m !!! s)) pool.

(** The winner of the ordered elimination chain. *)
Definition chain_winner (m : gmap string Metrics) (services : list string) (w : string) : Prop :=
  let p1 := pool_last_active m services in
  let p2 := pool_after_pivot m p1 in
  let p3 := pool_start_date m p2 in
  if decide (length p1 = 1%nat) then p1 = [w]
  else if decide (length p2 = 1%nat) then p2 = [w]
  else if decide (length p3 = 1%nat) then p3 = [w]
  else final_pick p3 w.

(** [M] is the largest number of shared days over all pairs of positions. *)
Definition max_pairwise (count : string → string → Z) (services : list string) (M : Z) : Prop :=
  (∃ (i j : nat) a b, (i < j)%nat ∧ services !! i = Some a ∧ services !! j = Some b
                      ∧ count a b = M)
  ∧ (∀ (i j : nat) a b, (i < j)%nat → services !! i = Some a → services !! j = Some b →
                        count a b ≤ M).

(** The calendars of the demo feed by service id, and an exception that
    removes one working day of service 100 after the pivot. *)
Definition demo_dict : gmap string Row :=
  list_to_map
    [ ("100", mk_calendar "100" "20240101" "20240131" working_days);
      ("101", mk_calendar "101" "20240115" "20240131" working_days) ].

Definition demo_exceptions : list Row := [ mk_exception "100" "20240116" "2" ].

(** 2024-01-15 *)
Definition demo_pivot : Z := 738900.

(** The active dates of the demo services without exceptions. *)
Definition demo_dates (s : string) : gset Z :=
  match _active_dates_for_service s (default ∅ (demo_dict !! s)) [] with
  | Ok dates => dates
  | Raise _ => ∅
  end.

(** The metrics the resolver computes for the two demo services. *)
Definition demo_metrics : gmap string Metrics :=
  match build_metrics ["100"; "101"] demo_dict demo_exceptions demo_pivot with
  | Ok m => m
  | Raise _ => ∅
  end.



(** Two calendar rows for service 100: a superseded one and the current one. *)
Definition demo_old_row : Row := mk_calendar "100" "20230102" "20230131" working_days.
Definition demo_new_row : Row := mk_calendar "100" "20240101" "20240131" working_days.

(** Exceptions on Monday 2024-01-15: service 100 is removed, the otherwise
    unknown service [extra] is added. *)
Definition demo_day_exceptions : list Row :=
  [ mk_exception "100" "20240115" "2"; mk_exception "extra" "20240115" "1" ].

(** ** Grouping *)

(** The route a trip contributes: its [route_id], or the unknown-route
    sentinel when it has none. *)
Definition trip_route (trip : Row) : string :=
  or_default (trip !! "route_id") UNKNOWN_ROUTE_ID.

(** The routes of the trips of a service. *)
Definition service_route_set (trips : list Row) (sid : string) : gset string :=
  list_to_set (trip_route <$> filter (λ t : Row, t !! "service_id" = Some sid) trips).

(** The route set a service is grouped under: that of its trips, or the
    sentinel alone when it owns no trip. *)
Definition spec_routes (trips : list Row) (sid : string) : gset string :=
  if decide (service_route_set trips sid = ∅) then {[UNKNOWN_ROUTE_ID]}
  else service_route_set trips sid.

Definition spec_group_key (trips : list Row) (cal : Row) (sid : string) : GroupKey :=
  (_weekday_mask cal, sorted_strings (elements (spec_routes trips sid))).

(** The service ids of the calendar rows grouped under [k], in input order. *)
Definition spec_members (calendar_rows trips : list Row) (k : GroupKey) : list string :=
  omap (λ cal : Row,
          match cal !! "service_id" with
          | Some sid =>
              if decide (sid ≠ "" ∧ spec_group_key trips cal sid = k) then Some sid
              else None
          | None => None
          end) calendar_rows.


(** Three timetables with the same days, so that only the ids tell them
    apart. *)
Definition demo_twin_dict : gmap string Row :=
  list_to_map
    [ ("7", mk_calendar "7" "20240115" "20240121" working_days);
      ("10", mk_calendar "10" "20240115" "20240121" working_days);
      ("7a", mk_calendar "7a" "20240115" "20240121" working_days) ].

(** ** Orchestrator *)

(** The record the orchestrator writes for a group it keeps in full because
    its weekday mask has at most two active days. *)
Definition limited_day_record (k : GroupKey) (sids : list string) : GroupRecord :=
  {| g_weekday_mask := Py.str_bools k.1;
     g_route_ids := k.2;
     g_service_ids := sids;
     g_winner := None;
     g_reasons :=
       [ "Weekday mask has " +:+ pretty (active_day_count k.1)
         +:+ " active day(s); keeping all services";
         "Routes: " +:+ String.concat "," k.2 ];
     g_is_ambiguous := true |}.

(** Saturday-and-Sunday timetables of one route. *)
Definition demo_weekend_rows : list Row :=
  [ mk_calendar "W1" "20240101" "20240131" ["saturday"; "sunday"];
    mk_calendar "W2" "20240115" "20240131" ["saturday"; "sunday"] ].

Definition demo_weekend_state : PruneState :=
  match prune_groups demo_pivot demo_weekend_rows [] [] [] 45 with
  | Ok st => st
  | Raise _ => init_state
  end.

Definition weekend_key : GroupKey :=
  ([false; false; false; false; false; true; true], [UNKNOWN_ROUTE_ID]).

Definition demo_stop_times : list Row :=
  [ mk_row [("trip_id", "t1"); ("stop_id", "S1")];
    mk_row [("trip_id", "t2"); ("stop_id", "S1")];
    mk_row [("trip_id", "t9"); ("stop_id", "S2")] ].

(** The trip id under which a trip is recorded as surviving. *)
Definition trip_id_of (t : Row) : string := dict_get t "trip_id" "".

(** The stop time carries the trip id of one of [trips]. *)
Definition references_trip (trips : list Row) (s : Row) : Prop :=
  Exists (λ t, s !! "trip_id" = Some (trip_id_of t)) trips.

#[global] Instance references_trip_dec (trips : list Row) (s : Row) :
  Decision (references_trip trips s).
Proof. unfold references_trip. apply _. Defined.

(** Trips of the two demo timetables on one route. *)
Definition demo_route_trips : list Row :=
  [ mk_trip "t1" "100" "R1"; mk_trip "t2" "101" "R1" ].

(** The diagnostics of pruning the demo feed on its route. *)
Definition demo_diagnostics : Diagnostics :=
  match _prune_overlaps_factual demo_pivot [] demo_calendars demo_exceptions
          demo_route_trips demo_stop_times [] 45 with
  | Ok (_, _, _, _, diagnostics) => diagnostics
  | Raise _ => mkDiagnostics "" 0 [] (mkSummary 0 0 0 0 0)
  end.

(** ** Further notions used to describe the script *)

(** What the loop over the groups decides for one group: [None] when the
    whole group is kept, the winner when the others are pruned. *)
Definition group_outcome (resolve : list string → Res Verdict)
    (g : GroupKey * list string) : Res (option string) :=
  if bool_decide (length g.2 ≤ 1)%nat then Ok None
  else if bool_decide (active_day_count g.1.1 ≤ 2) then Ok None
  else
    '(winner, _, is_ambiguous) ← resolve g.2;
    Ok (if is_ambiguous || negb (truthy winner) then None else winner).

(** The service ids of the calendar rows the grouper takes, in input order. *)
Definition calendar_service_ids (calendar_rows : list Row) : list string :=
  omap (λ cal : Row,
          match cal !! "service_id" with
          | Some sid => if decide (sid ≠ "") then Some sid else None
          | None => None
          end) calendar_rows.

(** The number of members of all groups together. *)
Definition memberships (groups : list (GroupKey * list string)) : Z :=
  foldr (λ g n, Z.of_nat (length g.2) + n) 0 groups.

(** The month and the day of the month of the day [n] of a year, counted
    from 0: the end of [Py.ord2ymd]. *)
Definition month_and_day (leapyear : bool) (n : Z) : Z * Z :=
  let month := Z.shiftr (n + 50) 5 in
  let preceding :=
    Py.DAYS_BEFORE_MONTH !!! Z.to_nat month
    + (if (2 <? month) && leapyear then 1 else 0) in
  if n <? preceding then
    let month := month - 1 in
    let preceding :=
      preceding - (Py.DAYS_IN_MONTH !!! Z.to_nat month
                   + (if (month =? 2) && leapyear then 1 else 0)) in
    (month, n - preceding + 1)
  else (month, n - preceding + 1).

(** The days of a month and the days before it, in a leap year or not. *)
Definition month_length (leapyear : bool) (month : Z) : Z :=
  if (month =? 2) && leapyear then 29 else Py.DAYS_IN_MONTH !!! Z.to_nat month.

Definition days_before (leapyear : bool) (month : Z) : Z :=
  Py.DAYS_BEFORE_MONTH !!! Z.to_nat month
  + (if (2 <? month) && leapyear then 1 else 0).

(** [month_and_day] finds the month and day of the day [n] of the year. *)
Definition month_and_day_ok (leapyear : bool) (n : Z) : bool :=
  let '(m, d) := month_and_day leapyear n in
  (1 <=? m) && (m <=? 12) && (1 <=? d) && (d <=? month_length leapyear m)
  && (days_before leapyear m + d =? n + 1).

(** First day of the year 1000, from which on [%Y] prints four digits. *)
Definition FIRST_FOUR_DIGIT_DAY : Z := Eval vm_compute in Py.ymd2ord 1000 1 1.

(** The two-digit field printed for [k] reads back as [k]. *)
Definition pad2_ok (k : Z) : bool :=
  (String.length (Py.pad2 k) =? 2)%nat
  && match Py.int (Py.pad2 k) with Some v => v =? k | None => false end.

(** ** Active dates of one service, in closed form *)

(** The days of the weekly pattern of a calendar row: the days from its
    start date to its end date whose weekday is set in its mask. *)
Definition weekly_dates (calendar : Row) : gset Z :=
  match _parse_ymd (dict_get calendar "start_date" ""),
        _parse_ymd (dict_get calendar "end_date" "") with
  | Some s, Some e =>
      list_to_set
        (filter (λ d, (_weekday_mask calendar !!! Z.to_nat (Py.weekday d) : bool))
           (seqZ s (e - s + 1)))
  | _, _ => ∅
  end.

(** An exception row that counts for the service on day [d]: it names the
    service, its date reads as [d], and its type is 1 (added) or 2
    (removed). *)
Definition exception_for (service_id : string) (d : Z) (exc : Row) : Prop :=
  exc !! "service_id" = Some service_id
  ∧ _parse_ymd (dict_get exc "date" "") = Some d
  ∧ (dict_get exc "exception_type" "" = "1" ∨ dict_get exc "exception_type" "" = "2").

#[global] Instance exception_for_dec (service_id : string) (d : Z) (exc : Row) :
  Decision (exception_for service_id d exc).
Proof. unfold exception_for. apply _. Defined.

(** A calendar row whose weekly pattern runs up to the last date there is,
    9999-12-31. *)
Definition open_ended (calendar : Row) : Prop :=
  is_Some (_parse_ymd (dict_get calendar "start_date" ""))
  ∧ _parse_ymd (dict_get calendar "end_date" "") = Some Py.MAXORDINAL.

#[global] Instance open_ended_dec (calendar : Row) : Decision (open_ended calendar).
Proof. unfold open_ended. apply _. Defined.

(** A group that is handed to the resolver (more than one member, more than
    two active days) and has a member whose calendar row is
    open-ended. *)
Definition overflowing_group (calendars : gmap string Row)
    (g : GroupKey * list string) : Prop :=
  (1 < length g.2)%nat ∧ 2 < active_day_count g.1.1
  ∧ ∃ s, s ∈ g.2 ∧ open_ended (default ∅ (calendars !! s)).

(** ** A second small feed for the examples *)

(** Two timetables of one route, Monday to Wednesday, one week each. *)
Definition week_rows : list Row :=
  [ mk_calendar "7" "20240101" "20240107" ["monday"; "tuesday"; "wednesday"];
    mk_calendar "8" "20240108" "20240114" ["monday"; "tuesday"; "wednesday"] ].

Definition week_trips : list Row := [ mk_trip "a" "7" "R"; mk_trip "b" "8" "R" ].

Definition week_stop_times : list Row :=
  [ mk_row [("trip_id", "a")]; mk_row [("trip_id", "b")] ].

Definition week_key : GroupKey :=
  ([true; true; true; false; false; false; false], ["R"]).

Definition week_dict : gmap string Row :=
  list_to_map
    [ ("7", mk_calendar "7" "20240101" "20240107" ["monday"; "tuesday"; "wednesday"]);
      ("8", mk_calendar "8" "20240108" "20240114" ["monday"; "tuesday"; "wednesday"]) ].

(** 2024-01-01, a Monday. *)
Definition week_start : Z := 738886.

Definition week_state : PruneState :=
  match prune_groups week_start week_rows [] week_trips [] 45 with
  | Ok st => st
  | Raise _ => init_state
  end.

Definition week_diagnostics : Diagnostics :=
  match _prune_overlaps_factual week_start [] week_rows [] week_trips week_stop_times
          [] 45 with
  | Ok (_, _, _, _, diagnostics) => diagnostics
  | Raise _ => mkDiagnostics "" 0 [] (mkSummary 0 0 0 0 0)
  end.

(** A timetable without end: its end date is the last date there is. *)
Definition endless_row : Row :=
  mk_calendar "9" "99991229" "99991231" ["monday"; "tuesday"; "wednesday"].

(** An exception that adds service 7 on Thursday 2024-01-04. *)
Definition week_exceptions : list Row := [ mk_exception "7" "20240104" "1" ].

(** The active dates of service 7 with the exception of the example. *)
Definition week_dates7 : gset Z :=
  match _active_dates_for_service "7" (default ∅ (week_dict !! "7")) week_exceptions with
  | Ok dates => dates
  | Raise _ => ∅
  end.

(** A calendar row that lacks the service id. *)
Definition anonymous_row : Row :=
  mk_row [("start_date", "20240101"); ("end_date", "20240107"); ("monday", "1")].

(** * Properties *)

(** Closed decidable facts about the example feeds are settled by
    evaluation. *)
Ltac by_compute :=
  match goal with
  | |- ?P => apply (@bool_decide_unpack P _); vm_compute; exact I
  end.
Ltac vm_refl := vm_compute; reflexivity.

(** ** The result monad and loops *)

Lemma bind_Ok {A B : Type} (m : Res A) (f : A → Res B) (b : B) :
  m ≫= f = Ok b ↔ ∃ a, m = Ok a ∧ f a = Ok b.
Proof.
  destruct m as [a|e]; simpl.
  - split; [intros H; by exists a | by intros (a' & [= <-] & H)].
  - split; [done | by intros (a' & [=] & _)].
Qed.

Lemma foldlM_app {A B : Type} (f : B → A → Res B) (b : B) (l1 l2 : list A) :
  foldlM f b (l1 ++ l2) = foldlM f b l1 ≫= λ b', foldlM f b' l2.
Proof.
  revert b. induction l1 as [|x l1 IH]; intros b; simpl; [done|].
  destruct (f b x) as [b'|e]; simpl; [apply IH | done].
Qed.

Lemma foldlM_pure {A B : Type} (f : B → A → Res B) (g : B → A → B) (l : list A) (b : B) :
  (∀ b x, x ∈ l → f b x = Ok (g b x)) →
  foldlM f b l = Ok (foldl g b l).
Proof.
  revert b. induction l as [|x l IH]; intros b Hf; simpl; [done|].
  rewrite Hf by left. simpl. apply IH. intros b' y Hy. apply Hf. by right.
Qed.

Lemma filter_ext_in {A : Type} (P Q : A → Prop)
    `{!∀ x, Decision (P x), !∀ x, Decision (Q x)} (l : list A) :
  (∀ x, x ∈ l → P x ↔ Q x) → filter P l = filter Q l.
Proof.
  induction l as [|x l IH]; intros HPQ; [done|].
  rewrite !filter_cons, IH by (intros y Hy; apply HPQ; by right).
  destruct (decide (P x)) as [HP|HP], (decide (Q x)) as [HQ|HQ]; try done.
  - destruct HQ. apply HPQ; [by left | done].
  - destruct HP. apply HPQ; [by left | done].
Qed.

Lemma filterM_pure {A : Type} (p : A → Res bool) (q : A → bool) (l : list A) :
  (∀ x, x ∈ l → p x = Ok (q x)) →
  filterM p l = Ok (filter (λ x, q x) l).
Proof.
  induction l as [|x l IH]; intros Hp; simpl; [done|].
  rewrite Hp by left. simpl. rewrite IH by (intros y Hy; apply Hp; by right).
  simpl. rewrite filter_cons. by destruct (q x).
Qed.

Lemma filterM_Ok {A : Type} (p : A → Res bool) (l l' : list A) :
  filterM p l = Ok l' →
  ∃ q : A → bool, (∀ x, x ∈ l → p x = Ok (q x)) ∧ l' = filter (λ x, q x) l.
Proof.
  revert l'. induction l as [|x l IH]; intros l'; simpl.
  - intros [= <-]. exists (λ _, true). split; [by intros x Hx; inversion Hx | done].
  - intros H. apply bind_Ok in H as (b & Hb & H).
    apply bind_Ok in H as (ys & Hys & [= <-]).
    destruct (IH _ Hys) as (q & Hq & ->).
    pose (q' := λ y : A, match p y with Ok c => c | Raise _ => false end).
    assert (∀ y, y ∈ l → q y = q' y) as Hqq.
    { intros y Hy. unfold q'. by rewrite (Hq y Hy). }
    exists q'. split.
    + intros y Hy. apply list_elem_of_In in Hy. destruct Hy as [<-|Hy].
      * unfold q'. by rewrite Hb.
      * apply list_elem_of_In in Hy. rewrite <- Hqq by done. by apply Hq.
    + rewrite filter_cons. replace (q' x) with b by (unfold q'; by rewrite Hb).
      assert (filter (λ x0, q x0) l = filter (λ x0, q' x0) l) as ->.
      { apply filter_ext_in. intros y Hy. by rewrite (Hqq y Hy). }
      by destruct b.
Qed.

(** ** Calendar activation model *)

Lemma weekday_monday_first (D : Z) : Py.weekday D = monday_first_index D.
Proof.
  unfold Py.weekday, monday_first_index.
  replace (D + 6) with (D - 1 + 1 * 7) by lia. apply Z_mod_plus_full.
Qed.

Lemma weekday_range (D : Z) : 0 ≤ Py.weekday D < 7.
Proof. unfold Py.weekday. apply Z.mod_pos_bound. lia. Qed.

(** The mask is indexed Monday first: component [i] reads column [i] of
    [monday .. sunday]. *)
Lemma weekday_mask_lookup (cal : Row) (D : Z) :
  _weekday_mask cal !!! Z.to_nat (Py.weekday D)
  = bool_decide (dict_get cal (weekday_column D) "0" = "1").
Proof.
  unfold weekday_column. rewrite <- weekday_monday_first.
  pose proof (weekday_range D) as Hr. unfold _weekday_mask.
  apply (list_lookup_total_fmap
           (λ day, bool_decide (dict_get cal day "0" = "1")) day_names).
  simpl. lia.
Qed.

Lemma calendar_step_spec (D : Z) (active : gset string) (cal : Row) :
  calendar_step D active cal
  = if in_weekly_pattern D cal
    then sid ← dict_item cal "service_id"; Ok ({[sid]} ∪ active)
    else Ok active.
Proof.
  unfold calendar_step, in_weekly_pattern.
  destruct (_yyyymmdd_to_date (dict_get cal "start_date" "")) as [s|]; [|done].
  destruct (_yyyymmdd_to_date (dict_get cal "end_date" "")) as [e|]; [|done].
  rewrite weekday_mask_lookup.
  destruct (bool_decide (s ≤ D ≤ e)); [|done]. simpl.
  by destruct (bool_decide (dict_get cal (weekday_column D) "0" = "1")).
Qed.

Lemma weekly_services_cons (D : Z) (cal : Row) (calendars : list Row) :
  weekly_services D (cal :: calendars)
  = (if in_weekly_pattern D cal
     then match cal !! "service_id" with Some sid => {[sid]} | None => ∅ end
     else ∅) ∪ weekly_services D calendars.
Proof.
  unfold weekly_services. simpl.
  destruct (in_weekly_pattern D cal); [|set_solver].
  destruct (cal !! "service_id"); simpl; set_solver.
Qed.

Lemma calendar_loop_spec (D : Z) (calendars : list Row) (active : gset string) :
  (∀ cal, cal ∈ calendars → in_weekly_pattern D cal = true →
          is_Some (cal !! "service_id")) →
  foldlM (calendar_step D) active calendars
  = Ok (weekly_services D calendars ∪ active).
Proof.
  revert active. induction calendars as [|cal calendars IH]; intros active Hsid.
  - simpl. f_equal. unfold weekly_services. set_solver.
  - simpl. rewrite calendar_step_spec, weekly_services_cons.
    destruct (in_weekly_pattern D cal) eqn:Hin.
    + destruct (Hsid cal) as [sid Hx]; [by left | done |].
      unfold dict_item. rewrite Hx. simpl.
      rewrite IH by (intros c Hc; apply Hsid; by right).
      f_equal. set_solver.
    + simpl. rewrite IH by (intros c Hc; apply Hsid; by right).
      f_equal. set_solver.
Qed.

(** A calendar row that is active on [D] but has no [service_id] column
    makes the loop raise. *)
Lemma calendar_loop_raises (D : Z) (calendars : list Row) (active : gset string) :
  (∃ cal, cal ∈ calendars ∧ in_weekly_pattern D cal = true
          ∧ cal !! "service_id" = None) →
  foldlM (calendar_step D) active calendars = Raise (KeyError "service_id").
Proof.
  revert active. induction calendars as [|cal calendars IH];
    intros active (c & Hc & Hin & Hnone); [by inversion Hc|].
  simpl. rewrite calendar_step_spec.
  destruct (in_weekly_pattern D cal) eqn:Hcal.
  - unfold dict_item. destruct (cal !! "service_id") as [sid|] eqn:Hsid; [|done].
    simpl. apply IH. exists c. split_and!; [|done..].
    apply list_elem_of_In in Hc as [<-|Hc]; [congruence| by apply list_elem_of_In].
  - simpl. apply IH. exists c. split_and!; [|done..].
    apply list_elem_of_In in Hc as [<-|Hc]; [congruence| by apply list_elem_of_In].
Qed.

Lemma exception_step_spec (D : Z) (active : gset string) (exc : Row) :
  exception_step (_date_to_yyyymmdd D) active exc
  = if bool_decide (exc !! "date" = Some (_date_to_yyyymmdd D))
    then apply_exception active exc else active.
Proof.
  unfold exception_step, apply_exception, exception_kind.
  destruct (bool_decide (exc !! "date" = Some (_date_to_yyyymmdd D))); [|done].
  destruct (bool_decide (dict_get exc "exception_type" "" = "1")); [done|].
  by destruct (bool_decide (dict_get exc "exception_type" "" = "2")).
Qed.

Lemma exception_loop_spec (D : Z) (exceptions : list Row) (active : gset string) :
  foldl (exception_step (_date_to_yyyymmdd D)) active exceptions
  = foldl apply_exception active (exceptions_on D exceptions).
Proof.
  revert active. induction exceptions as [|exc exceptions IH]; intros active; [done|].
  simpl. rewrite exception_step_spec. unfold exceptions_on in *.
  rewrite filter_cons.
  destruct (decide (exc !! "date" = Some (_date_to_yyyymmdd D))) as [Hd|Hd].
  - rewrite bool_decide_eq_true_2 by done. simpl. apply IH.
  - rewrite bool_decide_eq_false_2 by done. apply IH.
Qed.

Lemma active_services_on_spec (D : Z) (calendars exceptions : list Row) :
  (∀ cal, cal ∈ calendars → in_weekly_pattern D cal = true →
          is_Some (cal !! "service_id")) →
  _active_services_on D calendars exceptions
  = Ok (spec_active_services D calendars exceptions).
Proof.
  intros Hsid. unfold _active_services_on, spec_active_services.
  rewrite calendar_loop_spec by done. simpl.
  rewrite exception_loop_spec. do 2 f_equal. set_solver.
Qed.

(** Membership after the overlay: the last exception of the day that names
    the service decides; without one, the weekly pattern decides. *)
Lemma apply_exceptions_elem (sid : string) (excs : list Row) (active : gset string) :
  sid ∈ foldl apply_exception active excs ↔
  match last (filter (λ exc : Row, dict_get exc "service_id" "" = sid
                                    ∧ is_Some (exception_kind exc)) excs) with
  | Some exc => exception_kind exc = Some Add
  | None => sid ∈ active
  end.
Proof.
  revert active. induction excs as [|exc excs IH] using rev_ind; intros active.
  - done.
  - rewrite foldl_app, filter_app. simpl. rewrite filter_cons, filter_nil.
    unfold apply_exception at 1.
    destruct (decide (dict_get exc "service_id" "" = sid
                      ∧ is_Some (exception_kind exc))) as [[Hs Hk]|Hn].
    + rewrite last_snoc. destruct Hk as [k Hk]. rewrite Hk.
      destruct k; set_solver.
    + rewrite app_nil_r, <- IH.
      destruct (exception_kind exc) as [[]|] eqn:Hk; [| |done].
      * assert (dict_get exc "service_id" "" ≠ sid) by (intros ?; apply Hn; eauto).
        set_solver.
      * assert (dict_get exc "service_id" "" ≠ sid) by (intros ?; apply Hn; eauto).
        set_solver.
Qed.

Lemma weekly_services_elem (D : Z) (calendars : list Row) (sid : string) :
  sid ∈ weekly_services D calendars ↔
  ∃ cal, cal ∈ calendars ∧ in_weekly_pattern D cal = true
         ∧ cal !! "service_id" = Some sid.
Proof.
  unfold weekly_services. rewrite elem_of_list_to_set, list_elem_of_omap.
  split; intros (cal & Hcal & H); exists cal.
  - destruct (in_weekly_pattern D cal); [done|discriminate].
  - destruct H as [-> H]. done.
Qed.

(** C4. For a date [D] and calendar rows that carry a [service_id] whenever
    they are active on [D], [_active_services_on] returns exactly the set
    built as the specification says: the service ids of the calendars whose
    parsed range contains [D] and whose Monday-first weekday flag for [D] is
    set (rows with a missing or unparseable date match nothing), to which
    the exceptions whose date field is [D] are applied in input order, Add
    inserting the service id and Remove deleting it. A service is then in
    the set iff the last such exception naming it is an Add or, when no
    exception names it, one of its calendars is active on [D]. *)
Theorem active_services_exact (D : Z) (calendars exceptions : list Row) :
  Forall (λ cal : Row, in_weekly_pattern D cal = true → is_Some (cal !! "service_id"))
         calendars →
  _active_services_on D calendars exceptions
  = Ok (spec_active_services D calendars exceptions)
  ∧ ∀ sid,
      sid ∈ spec_active_services D calendars exceptions ↔
      match last (filter (λ exc : Row, dict_get exc "service_id" "" = sid
                                        ∧ is_Some (exception_kind exc))
                         (exceptions_on D exceptions)) with
      | Some exc => exception_kind exc = Some Add
      | None =>
          ∃ cal, cal ∈ calendars ∧ in_weekly_pattern D cal = true
                 ∧ cal !! "service_id" = Some sid
      end.
Proof.
  intros Hsid. rewrite Forall_forall in Hsid. split.
  - by apply active_services_on_spec.
  - intros sid. unfold spec_active_services. rewrite apply_exceptions_elem.
    destruct (last _); [done|]. apply weekly_services_elem.
Qed.

(** On Monday 2024-01-15 the demo feed runs 100 and 101; the exceptions of
    that day remove 100 and add [extra]. *)
Lemma active_services_exact_witness :
  Forall (λ cal : Row, in_weekly_pattern 738900 cal = true → is_Some (cal !! "service_id"))
         demo_calendars
  ∧ _active_services_on 738900 demo_calendars demo_day_exceptions
    = Ok (spec_active_services 738900 demo_calendars demo_day_exceptions)
  ∧ spec_active_services 738900 demo_calendars demo_day_exceptions = {["101"; "extra"]}.
Proof.
  assert (Forall (λ cal : Row, in_weekly_pattern 738900 cal = true
                               → is_Some (cal !! "service_id")) demo_calendars) as Hsid.
  { by_compute. }
  split; [exact Hsid|].
  split; [exact (proj1 (active_services_exact 738900 demo_calendars
                          demo_day_exceptions Hsid))|].
  by_compute.
Defined.

(** A calendar active Monday to Friday in January 2024 is excluded on
    Saturday 2024-01-06 and included on Monday 2024-01-08. *)
Example activation_on_weekdays :
  _yyyymmdd_to_date "20240106" = Some 738891
  ∧ _yyyymmdd_to_date "20240108" = Some 738893
  ∧ _active_services_on 738891 [mk_calendar "100" "20240101" "20240131" working_days] []
    = Ok ∅
  ∧ _active_services_on 738893 [mk_calendar "100" "20240101" "20240131" working_days] []
    = Ok {["100"]}.
Proof. repeat split; vm_refl. Qed.

(** ** Change-point window scanner *)

Section WindowLists.

Variable sig_on : Z → Z * Z.

Lemma windows_chained_snoc (pre : list (Z * Z)) (x : Z * Z) :
  windows_chained sig_on (pre ++ [x]) ↔
  windows_chained sig_on pre
  ∧ ∀ w, last pre = Some w → x.1 = w.2 + 1 ∧ sig_on x.1 ≠ sig_on w.1.
Proof.
  split.
  - intros Hc. split.
    + intros i w w' Hi Hi'. apply (Hc i).
      * by apply lookup_app_l_Some.
      * by apply lookup_app_l_Some.
    + intros w Hw. rewrite last_lookup in Hw.
      destruct pre as [|p pre] using rev_ind; [done|]. clear IHpre.
      rewrite length_app in Hw. simpl in Hw.
      replace (Nat.pred (length pre + 1)) with (length pre) in Hw by lia.
      apply (Hc (length pre)).
      * by apply lookup_app_l_Some.
      * replace (S (length pre)) with (length (pre ++ [p])) by (rewrite length_app; simpl; lia).
        apply list_lookup_middle. done.
  - intros [Hc Hl] i w w' Hi Hi'.
    destruct (decide (S i < length pre)%nat) as [Hlt|Hge].
    + rewrite lookup_app_l in Hi by lia. rewrite lookup_app_l in Hi' by lia.
      by apply (Hc i).
    + assert (S i = length pre) as Heq.
      { apply lookup_lt_Some in Hi'. rewrite length_app in Hi'. simpl in Hi'. lia. }
      rewrite lookup_app_l in Hi by lia.
      rewrite lookup_app_r in Hi' by lia.
      replace (S i - length pre)%nat with 0%nat in Hi' by lia.
      simpl in Hi'. simplify_eq.
      apply Hl. rewrite last_lookup. rewrite <- Heq. done.
Qed.

Lemma windows_ok_single (a b : Z) :
  a ≤ b → (∀ d, a ≤ d ≤ b → sig_on d = sig_on a) →
  windows_ok sig_on a b [(a, b)].
Proof.
  intros Hab Hc. split_and!.
  - by exists (a, b).
  - by exists (a, b).
  - by repeat constructor.
  - intros i w w' Hi Hi'. destruct i; simpl in *; done.
Qed.

(** The scan meets a day with the signature of the open window. *)
Lemma windows_ok_extend (lo a b : Z) (pre : list (Z * Z)) :
  windows_ok sig_on lo b (pre ++ [(a, b)]) →
  sig_on (b + 1) = sig_on a →
  windows_ok sig_on lo (b + 1) (pre ++ [(a, b + 1)]).
Proof.
  intros (Hh & Hl & Hf & Hc) Hs. split_and!.
  - destruct Hh as (w & Hw & <-). destruct pre as [|p pre]; simpl in *.
    + simplify_eq. by exists (a, b + 1).
    + simplify_eq. by exists w.
  - exists (a, b + 1). by rewrite last_snoc.
  - apply Forall_app in Hf as [Hf1 Hf2]. apply Forall_app. split; [done|].
    apply Forall_singleton in Hf2 as [Hab Hd]. simpl in *.
    apply Forall_singleton. split; simpl; [lia|].
    intros d Hr. destruct (decide (d = b + 1)) as [->|]; [done|]. apply Hd. lia.
  - apply windows_chained_snoc in Hc as [Hc1 Hc2].
    apply windows_chained_snoc. split; [done|]. intros w Hw. by apply Hc2.
Qed.

(** The scan meets a day with another signature. *)
Lemma windows_ok_open (lo a b : Z) (pre : list (Z * Z)) :
  windows_ok sig_on lo b (pre ++ [(a, b)]) →
  sig_on (b + 1) ≠ sig_on a →
  windows_ok sig_on lo (b + 1) ((pre ++ [(a, b)]) ++ [(b + 1, b + 1)]).
Proof.
  intros (Hh & Hl & Hf & Hc) Hs. split_and!.
  - destruct Hh as (w & Hw & <-). exists w. split; [|done].
    destruct pre; simpl in *; done.
  - exists (b + 1, b + 1). by rewrite last_snoc.
  - apply Forall_app. split; [done|]. apply Forall_singleton. split; simpl; [lia|].
    intros d Hd. by replace d with (b + 1) by lia.
  - apply windows_chained_snoc. split; [done|]. intros w Hw.
    rewrite last_snoc in Hw. by simplify_eq.
Qed.

Lemma windows_chained_tail (w : Z * Z) (ws : list (Z * Z)) :
  windows_chained sig_on (w :: ws) → windows_chained sig_on ws.
Proof. intros Hc i x y Hi Hi'. by apply (Hc (S i)). Qed.

(** Later windows lie strictly after earlier ones. *)
Lemma windows_ordered (ws : list (Z * Z)) (n i : nat) (w w' : Z * Z) :
  Forall (window_constant sig_on) ws → windows_chained sig_on ws →
  ws !! i = Some w → ws !! (i + S n)%nat = Some w' → w.2 < w'.1.
Proof.
  intros Hf Hc. revert w'. induction n as [|n IH]; intros w' Hi Hj.
  - replace (i + 1)%nat with (S i) in Hj by lia. destruct (Hc i w w' Hi Hj). lia.
  - destruct (ws !! (i + S n)%nat) as [m|] eqn:Hm.
    + specialize (IH m Hi eq_refl).
      replace (i + S (S n))%nat with (S (i + S n)) in Hj by lia.
      destruct (Hc _ _ _ Hm Hj) as [Hj1 _].
      rewrite Forall_lookup in Hf. destruct (Hf _ _ Hm) as [Hle _]. lia.
    + apply lookup_ge_None in Hm. apply lookup_lt_Some in Hj. lia.
Qed.

Lemma windows_cover (ws : list (Z * Z)) (lo hi : Z) :
  windows_ok sig_on lo hi ws →
  ∀ d, lo ≤ d ≤ hi ↔ ∃ w, w ∈ ws ∧ w.1 ≤ d ≤ w.2.
Proof.
  intros (Hh & Hl & Hf & Hc) d. split.
  - revert lo Hh. induction ws as [|w ws IH]; intros lo Hh Hd.
    + by destruct Hh as (? & ? & _).
    + destruct Hh as (w0 & [= <-] & <-).
      destruct (decide (d ≤ w.2)) as [Hle|Hgt].
      * exists w. split; [by left | lia].
      * destruct ws as [|w' ws].
        { destruct Hl as (wl & [= <-] & <-). lia. }
        destruct (Hc 0%nat w w' eq_refl eq_refl) as [Hn _].
        destruct (IH) with (lo := w'.1) as (x & Hx & Hxd).
        -- destruct Hl as (wl & Hwl & <-). by exists wl.
        -- by apply Forall_inv_tail in Hf.
        -- by eapply windows_chained_tail.
        -- by exists w'.
        -- lia.
        -- exists x. split; [by right | done].
  - intros (w & Hw & Hd). apply list_elem_of_lookup in Hw as [j Hj].
    destruct Hh as (w0 & Hw0 & <-). destruct Hl as (wl & Hwl & <-).
    rewrite head_lookup in Hw0. rewrite last_lookup in Hwl.
    pose proof (lookup_lt_Some _ _ _ Hj) as Hlen.
    rewrite Forall_lookup in Hf.
    pose proof (Hf _ _ Hw0) as [H0 _]. pose proof (Hf _ _ Hwl) as [Hl' _].
    split.
    + destruct j as [|j]; [by replace w0 with w by congruence; lia|].
      pose proof (windows_ordered ws j 0 w0 w (proj2 (Forall_lookup _ _) Hf) Hc Hw0 Hj).
      lia.
    + destruct (decide (j = Nat.pred (length ws))) as [->|Hne];
        [by replace wl with w by congruence; lia|].
      assert (Nat.pred (length ws) = j + S (Nat.pred (length ws) - j - 1))%nat as Hk by lia.
      rewrite Hk in Hwl.
      pose proof (windows_ordered ws _ j w wl (proj2 (Forall_lookup _ _) Hf) Hc Hj Hwl).
      lia.
Qed.

End WindowLists.

Section Scanner.

Variable sha1_hex8 : string → Z.
Variables (start hi : Z) (cal cd : list Row).
Hypothesis Hstart : 0 < start.
Hypothesis Hsid :
  ∀ d, start ≤ d ≤ hi →
       Forall (λ c : Row, in_weekly_pattern d c = true → is_Some (c !! "service_id")) cal.

Local Abbreviation scan_sig := (scan_signature sha1_hex8 cal cd).

Lemma scan_active (d : Z) :
  start ≤ d ≤ hi →
  _active_services_on d cal cd = Ok (spec_active_services d cal cd).
Proof.
  intros Hd. apply active_services_on_spec. intros c Hc Hin.
  pose proof (Hsid d Hd) as Hall. rewrite Forall_forall in Hall. by apply Hall.
Qed.

Lemma date_add_ok (d n : Z) :
  0 < d + n ≤ Py.MAXORDINAL → Py.date_add d n = Ok (d + n).
Proof. intros H. unfold Py.date_add. by rewrite bool_decide_eq_true_2. Qed.

Lemma date_add_overflow (d n : Z) :
  Py.MAXORDINAL < d + n → Py.date_add d n = Raise OverflowError.
Proof. intros H. unfold Py.date_add. rewrite bool_decide_eq_false_2; [done|lia]. Qed.

Lemma window_step_ok (st : WinState) (i : Z) :
  1 ≤ i → start + i ≤ Py.MAXORDINAL → start + i ≤ hi →
  window_step sha1_hex8 start cal cd st i
  = Ok (if bool_decide (scan_sig (start + i) ≠ cur_sig st)
        then {| cur_from := start + i;
                cur_sig := scan_sig (start + i);
                wins := wins st ++ [(cur_from st, start + i - 1)] |}
        else st).
Proof.
  intros Hi Hmax Hhi. unfold window_step.
  rewrite date_add_ok by lia. simpl. rewrite scan_active by lia. simpl.
  fold (signature_on sha1_hex8 (λ d, spec_active_services d cal cd) (start + i)).
  fold scan_sig.
  destruct (bool_decide (scan_sig (start + i) ≠ cur_sig st)); [|done].
  rewrite date_add_ok by lia. simpl. by replace (start + i + -1) with (start + i - 1) by lia.
Qed.

Local Abbreviation scan_inv := (scan_invariant sha1_hex8 start cal cd).

Lemma scan_inv_step (k : Z) (st : WinState) :
  scan_inv k st →
  scan_inv (k + 1)
    (if bool_decide (scan_sig (start + (k + 1)) ≠ cur_sig st)
     then {| cur_from := start + (k + 1);
             cur_sig := scan_sig (start + (k + 1));
             wins := wins st ++ [(cur_from st, start + (k + 1) - 1)] |}
     else st).
Proof.
  intros [Hok Hsig]. case_bool_decide as Hne.
  - split; simpl; [|done].
    replace (start + (k + 1) - 1) with (start + k) by lia.
    replace (start + (k + 1)) with (start + k + 1) in * by lia.
    apply windows_ok_open; [done|]. by rewrite <- Hsig.
  - split; [|done].
    replace (start + (k + 1)) with (start + k + 1) in * by lia.
    apply windows_ok_extend; [done|]. by rewrite <- Hsig.
Qed.

Lemma scan_loop (n : nat) (k : Z) (st : WinState) :
  0 ≤ k → start + k + Z.of_nat n ≤ Py.MAXORDINAL → start + k + Z.of_nat n ≤ hi →
  scan_inv k st →
  ∃ st', foldlM (window_step sha1_hex8 start cal cd) st (seqZ (k + 1) (Z.of_nat n))
         = Ok st'
         ∧ scan_inv (k + Z.of_nat n) st'.
Proof.
  revert k st. induction n as [|n IH]; intros k st Hk Hmax Hhi Hinv.
  - exists st. simpl. split; [done|]. by replace (k + Z.of_nat 0) with k by lia.
  - rewrite seqZ_cons by lia. simpl.
    rewrite window_step_ok by lia. simpl.
    destruct (IH (k + 1) _ ltac:(lia) ltac:(lia) ltac:(lia) (scan_inv_step k st Hinv))
      as (st' & Hst' & Hinv').
    exists st'. split.
    + rewrite <- Hst'.
      replace (Z.succ (k + 1)) with (k + 1 + 1) by lia.
      by replace (Z.pred (Z.of_nat (S n))) with (Z.of_nat n) by lia.
    + by replace (k + Z.of_nat (S n)) with (k + 1 + Z.of_nat n) by lia.
Qed.

Lemma effective_windows_ok (days : Z) :
  0 < days → start + days ≤ Py.MAXORDINAL → start + days ≤ hi →
  ∃ ws, _effective_windows sha1_hex8 start days cal cd = Ok ws
        ∧ windows_ok scan_sig start (start + days) ws.
Proof.
  intros Hdays Hmax Hhi. unfold _effective_windows.
  rewrite bool_decide_eq_false_2 by lia. rewrite scan_active by lia. simpl.
  destruct (scan_loop (Z.to_nat days) 0
              {| cur_from := start;
                 cur_sig := sig sha1_hex8 (spec_active_services start cal cd);
                 wins := [] |}) as (st & Hst & [Hok _]).
  - done.
  - lia.
  - lia.
  - split; [|done]. simpl. replace (start + 0) with start by lia.
    apply windows_ok_single; [lia|]. intros d Hd. by replace d with start by lia.
  - rewrite Z2Nat.id in Hst, Hok by lia. change (0 + 1) with 1 in Hst.
    rewrite Hst. simpl. rewrite date_add_ok by lia. simpl.
    eexists. split; [done|]. by replace (start + days) with (start + (0 + days)) by lia.
Qed.

End Scanner.

Lemma effective_windows_nonpositive (sha1_hex8 : string → Z) (start days : Z)
    (cal cd : list Row) :
  days ≤ 0 → _effective_windows sha1_hex8 start days cal cd = Ok [].
Proof. intros H. unfold _effective_windows. by rewrite bool_decide_eq_true_2. Qed.

(** Past the last representable date the scan raises. *)
Lemma effective_windows_overflow (sha1_hex8 : string → Z) (start days : Z)
    (cal cd : list Row) :
  0 < start ≤ Py.MAXORDINAL → 0 < days → Py.MAXORDINAL < start + days →
  (∀ d, start ≤ d ≤ Py.MAXORDINAL →
        Forall (λ c : Row, in_weekly_pattern d c = true → is_Some (c !! "service_id"))
          cal) →
  _effective_windows sha1_hex8 start days cal cd = Raise OverflowError.
Proof.
  intros Hstart Hdays Hover Hsid. unfold _effective_windows.
  rewrite bool_decide_eq_false_2 by lia.
  rewrite (scan_active start Py.MAXORDINAL cal cd Hsid) by lia. simpl.
  set (st0 := {| cur_from := start; cur_sig := _; wins := [] |}).
  set (m := Py.MAXORDINAL - start).
  assert (0 ≤ m < days) as Hm by (unfold m; lia).
  replace days with (m + (days - m)) by lia.
  rewrite seqZ_app by lia. rewrite foldlM_app.
  destruct (scan_loop sha1_hex8 start Py.MAXORDINAL cal cd ltac:(lia) Hsid
              (Z.to_nat m) 0 st0)
    as (st & Hst & _).
  - done.
  - unfold m. lia.
  - unfold m. lia.
  - split; [|done]. simpl. replace (start + 0) with start by lia.
    apply windows_ok_single; [lia|]. intros d Hd. by replace d with start by lia.
  - rewrite Z2Nat.id in Hst by lia. change (0 + 1) with 1 in Hst.
    rewrite Hst. simpl.
    rewrite seqZ_cons by lia. simpl.
    assert (window_step sha1_hex8 start cal cd st (1 + m) = Raise OverflowError) as ->; [|done].
    unfold window_step. rewrite date_add_overflow; [done|]. unfold m. lia.
Qed.

(** C3, as the code has it. For a start date and a horizon [days > 0] whose
    last day [start + days] is still a date (at most 9999-12-31, ordinal
    3652059), the scanner returns a list of inclusive windows that are in
    chronological order, contiguous and non-overlapping, that cover exactly
    the days [start .. start + days], keep one signature inside a window and
    change signature from each window to the next. When [start + days] is
    past 9999-12-31 it raises [OverflowError] instead. For [days <= 0] it
    returns the empty list. The signatures are those of the services active
    on the scanned days, which presupposes that a calendar row active on
    such a day carries a [service_id]. *)
Theorem window_tiling (sha1_hex8 : string → Z) (start days : Z) (cal cd : list Row) :
  (days ≤ 0 → _effective_windows sha1_hex8 start days cal cd = Ok [])
  ∧ (0 < days → 0 < start → start + days ≤ Py.MAXORDINAL →
     (∀ d, start ≤ d ≤ start + days →
           Forall (λ c : Row, in_weekly_pattern d c = true → is_Some (c !! "service_id"))
             cal) →
     ∃ (ws : list (Z * Z)) (active : Z → gset string),
       _effective_windows sha1_hex8 start days cal cd = Ok ws
       ∧ (∀ d, start ≤ d ≤ start + days → _active_services_on d cal cd = Ok (active d))
       ∧ (∀ w, w ∈ ws → w.1 ≤ w.2)
       ∧ (∀ (i : nat) w w', ws !! i = Some w → ws !! S i = Some w' → w'.1 = w.2 + 1)
       ∧ (∀ (i j : nat) w w', (i < j)%nat → ws !! i = Some w → ws !! j = Some w' →
                              w.2 < w'.1)
       ∧ (∀ d, start ≤ d ≤ start + days ↔ ∃ w, w ∈ ws ∧ w.1 ≤ d ≤ w.2)
       ∧ (∀ w d, w ∈ ws → w.1 ≤ d ≤ w.2 →
                 sig sha1_hex8 (active d) = sig sha1_hex8 (active w.1))
       ∧ (∀ (i : nat) w w', ws !! i = Some w → ws !! S i = Some w' →
                            sig sha1_hex8 (active w'.1) ≠ sig sha1_hex8 (active w.1)))
  ∧ (0 < days → 0 < start ≤ Py.MAXORDINAL → Py.MAXORDINAL < start + days →
     (∀ d, start ≤ d ≤ Py.MAXORDINAL →
           Forall (λ c : Row, in_weekly_pattern d c = true → is_Some (c !! "service_id"))
             cal) →
     _effective_windows sha1_hex8 start days cal cd = Raise OverflowError).
Proof.
  split; [apply effective_windows_nonpositive|]. split.
  - intros Hdays Hstart Hmax Hsid.
    destruct (effective_windows_ok sha1_hex8 start (start + days) cal cd Hstart Hsid
                days Hdays Hmax ltac:(lia))
      as (ws & Hws & Hok).
    exists ws, (λ d, spec_active_services d cal cd).
    pose proof (windows_cover _ _ _ _ Hok) as Hcover.
    destruct Hok as (Hh & Hl & Hf & Hc).
    split_and!; [done| | | | |done| |].
    + intros d Hd. by eapply scan_active.
    + intros w Hw. rewrite Forall_forall in Hf. by destruct (Hf w Hw).
    + intros i w w' Hi Hi'. by destruct (Hc i w w' Hi Hi').
    + intros i j w w' Hij Hi Hj.
      replace j with (i + S (j - i - 1))%nat in Hj by lia.
      by eapply windows_ordered.
    + intros w d Hw Hd. rewrite Forall_forall in Hf.
      destruct (Hf w Hw) as [_ Hd']. by apply Hd'.
    + intros i w w' Hi Hi'. by destruct (Hc i w w' Hi Hi').
  - intros Hdays Hstart Hover Hsid. by apply effective_windows_overflow.
Qed.

(** The windows of the first three weeks of January 2024 for the demo feed:
    the instance of [window_tiling] at 2024-01-01 with a horizon of 20 days. *)
Lemma window_tiling_witness :
  0 < 20 ∧ 0 < 738886 ∧ 738886 + 20 ≤ Py.MAXORDINAL
  ∧ Forall (λ c : Row, is_Some (c !! "service_id")) demo_calendars
  ∧ ∃ ws, _effective_windows demo_hash 738886 20 demo_calendars [] = Ok ws
          ∧ ∀ d, 738886 ≤ d ≤ 738886 + 20 ↔ ∃ w, w ∈ ws ∧ w.1 ≤ d ≤ w.2.
Proof.
  assert (Forall (λ c : Row, is_Some (c !! "service_id")) demo_calendars) as Hsid
    by by_compute.
  assert (738886 + 20 ≤ Py.MAXORDINAL) as Hmax by by_compute.
  split; [lia|]. split; [lia|]. split; [exact Hmax|]. split; [exact Hsid|].
  assert (∀ d, 738886 ≤ d ≤ 738886 + 20 →
               Forall (λ c : Row, in_weekly_pattern d c = true
                                  → is_Some (c !! "service_id")) demo_calendars) as Hrows.
  { intros d _. eapply Forall_impl; [exact Hsid|]. intros c Hc _. exact Hc. }
  destruct (proj1 (proj2 (window_tiling demo_hash 738886 20 demo_calendars []))
              ltac:(lia) ltac:(lia) Hmax Hrows)
    as (ws & active & Hws & _ & _ & _ & _ & Hcover & _).
  exists ws. split; [exact Hws | exact Hcover].
Defined.

(** On the last representable date, 9999-12-31, a horizon of one day makes
    the scanner raise [OverflowError] instead of returning windows. *)
Lemma window_tiling_fails_at_date_max :
  _effective_windows demo_hash Py.MAXORDINAL 1 [] [] = Raise OverflowError
  ∧ ¬ ∃ ws, _effective_windows demo_hash Py.MAXORDINAL 1 [] [] = Ok ws.
Proof.
  assert (_effective_windows demo_hash Py.MAXORDINAL 1 [] [] = Raise OverflowError)
    as Hraise by vm_refl.
  split; [exact Hraise|]. intros (ws & Hws). rewrite Hraise in Hws. discriminate.
Qed.

(** ** Orders and sorting *)

Lemma ascii_compare_refl (c : Ascii.ascii) : Ascii.compare c c = Eq.
Proof. unfold Ascii.compare. apply N.compare_refl. Qed.

Lemma ascii_compare_lt_trans (a b c : Ascii.ascii) :
  Ascii.compare a b = Lt → Ascii.compare b c = Lt → Ascii.compare a c = Lt.
Proof.
  unfold Ascii.compare. rewrite !N.compare_lt_iff. apply N.lt_trans.
Qed.

Lemma string_compare_refl (s : string) : String.compare s s = Eq.
Proof. induction s as [|c s IH]; simpl; [done|]. by rewrite ascii_compare_refl. Qed.

Lemma string_compare_trans (s1 s2 s3 : string) :
  String.compare s1 s2 ≠ Gt → String.compare s2 s3 ≠ Gt → String.compare s1 s3 ≠ Gt.
Proof.
  revert s2 s3. induction s1 as [|c1 s1 IH]; intros [|c2 s2] [|c3 s3]; simpl; try done.
  destruct (Ascii.compare c1 c2) eqn:H12; [| |done];
    destruct (Ascii.compare c2 c3) eqn:H23; try done.
  - apply Ascii.compare_eq_iff in H12 as ->. rewrite H23. apply IH.
  - apply Ascii.compare_eq_iff in H12 as ->. by rewrite H23.
  - apply Ascii.compare_eq_iff in H23 as <-. by rewrite H12.
  - by rewrite (ascii_compare_lt_trans _ _ _ H12 H23).
Qed.

Lemma string_leb_le (s1 s2 : string) :
  String.leb s1 s2 = true ↔ String.compare s1 s2 ≠ Gt.
Proof. unfold String.leb. destruct (String.compare s1 s2); naive_solver. Qed.

Lemma string_leb_refl (s : string) : String.leb s s = true.
Proof. apply string_leb_le. by rewrite string_compare_refl. Qed.

Lemma string_leb_trans (s1 s2 s3 : string) :
  String.leb s1 s2 = true → String.leb s2 s3 = true → String.leb s1 s3 = true.
Proof. rewrite !string_leb_le. apply string_compare_trans. Qed.

#[global] Instance string_leb_total : Total (λ a b : string, String.leb a b).
Proof.
  intros a b. destruct (String.leb_total a b) as [H|H]; rewrite H; [by left | by right].
Qed.

#[global] Instance string_geb_total : Total (λ a b : string, String.leb b a).
Proof. intros a b. destruct (string_leb_total b a); [by left | by right]. Qed.

#[global] Instance string_geb_trans : Transitive (λ a b : string, String.leb b a).
Proof.
  intros a b c Hab Hbc. apply Is_true_true. apply Is_true_true in Hab, Hbc.
  by eapply string_leb_trans.
Qed.

Lemma pair_leb_spec (a b : Z * string) :
  pair_leb a b = true ↔ a.1 < b.1 ∨ (a.1 = b.1 ∧ String.leb a.2 b.2 = true).
Proof.
  unfold pair_leb. rewrite orb_true_iff, andb_true_iff, Z.ltb_lt, Z.eqb_eq. done.
Qed.

#[global] Instance pair_geb_total : Total (λ a b : Z * string, pair_leb b a).
Proof.
  intros a b.
  destruct (Z.lt_trichotomy a.1 b.1) as [H|[H|H]].
  - right. apply Is_true_true, pair_leb_spec. by left.
  - destruct (String.leb_total a.2 b.2) as [Hs|Hs].
    + right. apply Is_true_true, pair_leb_spec. by right.
    + left. apply Is_true_true, pair_leb_spec. by right.
  - left. apply Is_true_true, pair_leb_spec. by left.
Qed.

#[global] Instance pair_geb_trans : Transitive (λ a b : Z * string, pair_leb b a).
Proof.
  intros a b c Hab Hbc. apply Is_true_true. apply Is_true_true in Hab, Hbc.
  apply pair_leb_spec in Hab, Hbc. apply pair_leb_spec.
  destruct Hab as [Hab|[Hab Hab']], Hbc as [Hbc|[Hbc Hbc']]; try (left; lia).
  right. split; [lia|]. by eapply string_leb_trans.
Qed.

(** The first element of a sorted list is related to every element. *)
Lemma head_merge_sort {A : Type} (R : relation A) `{!∀ x y, Decision (R x y)}
    `{!Transitive R, !Total R} (l : list A) (x : A) :
  head (merge_sort R l) = Some x → x ∈ l ∧ ∀ y, y ∈ l → R x y.
Proof.
  intros Hhead.
  pose proof (StronglySorted_merge_sort R l) as Hs.
  pose proof (merge_sort_Permutation R l) as Hp.
  destruct (merge_sort R l) as [|x' l'] eqn:Hl; [done|]. simplify_eq/=.
  split.
  - rewrite <- Hp. by left.
  - intros y Hy. rewrite <- Hp in Hy. apply StronglySorted_inv in Hs as [_ Hall].
    apply list_elem_of_In in Hy as [<-|Hy].
    + by destruct (total R x x).
    + rewrite Forall_forall in Hall. apply Hall. by apply list_elem_of_In.
Qed.

Lemma head_merge_sort_is_Some {A : Type} (R : relation A) `{!∀ x y, Decision (R x y)}
    (l : list A) :
  l ≠ [] → is_Some (head (merge_sort R l)).
Proof.
  intros Hne. pose proof (merge_sort_Permutation R l) as Hp.
  destruct (merge_sort R l) as [|x l']; [|by eexists].
  by apply Permutation_nil_l in Hp.
Qed.

(** ** Maximum of a list *)

Lemma foldl_max_spec (l : list Z) (x : Z) :
  (foldl Z.max x l = x ∨ foldl Z.max x l ∈ l)
  ∧ x ≤ foldl Z.max x l
  ∧ ∀ y, y ∈ l → y ≤ foldl Z.max x l.
Proof.
  revert x. induction l as [|a l IH]; intros x; simpl.
  - split; [by left|]. split; [lia|]. intros y Hy. by inversion Hy.
  - destruct (IH (Z.max x a)) as (Hm & Hle & Hall). split; [|split].
    + destruct Hm as [Hm|Hm].
      * rewrite Hm. destruct (Z.max_spec x a) as [[_ ->]|[_ ->]]; [right; left | by left].
      * right. by right.
    + lia.
    + intros y Hy. apply list_elem_of_In in Hy as [<-|Hy]; [lia|].
      apply Hall. by apply list_elem_of_In.
Qed.

Lemma max_opt_None (l : list Z) : max_opt l = None ↔ l = [].
Proof. by destruct l. Qed.

Lemma max_opt_Some (l : list Z) (m : Z) :
  max_opt l = Some m ↔ m ∈ l ∧ ∀ y, y ∈ l → y ≤ m.
Proof.
  destruct l as [|x l]; simpl.
  - split; [done | by intros [H _]; inversion H].
  - destruct (foldl_max_spec l x) as (Hm & Hle & Hall). split.
    + intros [= <-]. split.
      * destruct Hm as [->|Hm]; [by left | by right].
      * intros y Hy. apply list_elem_of_In in Hy as [<-|Hy]; [done|].
        apply Hall. by apply list_elem_of_In.
    + intros [Hin Hub]. f_equal. apply Z.le_antisymm.
      * apply Hub. destruct Hm as [->|Hm]; [by left | by right].
      * apply list_elem_of_In in Hin as [<-|Hin]; [done|].
        apply Hall. by apply list_elem_of_In.
Qed.

Lemma max_opt_ext (l1 l2 : list Z) :
  (∀ x, x ∈ l1 ↔ x ∈ l2) → max_opt l1 = max_opt l2.
Proof.
  intros Hext. destruct (max_opt l1) as [m|] eqn:H1.
  - symmetry. apply max_opt_Some. apply max_opt_Some in H1 as [Hin Hub].
    split; [by apply Hext|]. intros y Hy. apply Hub. by apply Hext.
  - symmetry. apply max_opt_None. apply max_opt_None in H1 as ->.
    destruct l2 as [|x l2]; [done|].
    assert (x ∈ @nil Z) as H by (apply Hext; left). inversion H.
Qed.

(** ** Metrics of the resolver *)

Lemma build_metrics_acc (calendars : gmap string Row) (calendar_dates : list Row)
    (pivot_date : Z) (services : list string) (acc m : gmap string Metrics) :
  foldlM (metrics_step calendars calendar_dates pivot_date) acc services = Ok m →
  ∀ s, (s ∈ services →
        ∃ mt, service_metrics s calendars calendar_dates pivot_date = Ok mt
              ∧ m !! s = Some mt)
       ∧ (s ∉ services → m !! s = acc !! s).
Proof.
  revert acc. induction services as [|a services IH]; intros acc Hm s; simpl in Hm.
  - simplify_eq. split; [by intros H; inversion H | done].
  - apply bind_Ok in Hm as (acc' & Hstep & Hm). unfold metrics_step in Hstep.
    apply bind_Ok in Hstep as (mt & Hmt & [= <-]).
    destruct (IH _ Hm s) as [Hin Hout].
    destruct (decide (s ∈ services)) as [Hs|Hs].
    + split; [by intros _; apply Hin|]. intros Hn. destruct Hn. by right.
    + split.
      * intros Hs'. apply list_elem_of_In in Hs' as [<-|Hs'];
          [|by destruct Hs; apply list_elem_of_In].
        exists mt. split; [done|]. rewrite Hout by done. apply lookup_insert_eq.
      * intros Hn. rewrite Hout by done. apply lookup_insert_ne.
        intros ->. apply Hn. by left.
Qed.

(** Every service of the group has its metrics in the dictionary, and the
    dictionary holds nothing else. *)
Lemma build_metrics_lookup (services : list string) (calendars : gmap string Row)
    (calendar_dates : list Row) (pivot_date : Z) (m : gmap string Metrics) :
  build_metrics services calendars calendar_dates pivot_date = Ok m →
  (∀ s, s ∈ services →
        ∃ mt, service_metrics s calendars calendar_dates pivot_date = Ok mt
              ∧ m !! s = Some mt)
  ∧ (∀ s, s ∉ services → m !! s = None).
Proof.
  intros Hm. split; intros s Hs.
  - by apply (build_metrics_acc _ _ _ _ _ _ Hm s).
  - rewrite (proj2 (build_metrics_acc _ _ _ _ _ _ Hm s)) by done. apply lookup_empty.
Qed.

Lemma build_metrics_Ok (services : list string) (calendars : gmap string Row)
    (calendar_dates : list Row) (pivot_date : Z) :
  (∀ s, s ∈ services →
        ∃ mt, service_metrics s calendars calendar_dates pivot_date = Ok mt) →
  ∃ m, build_metrics services calendars calendar_dates pivot_date = Ok m.
Proof.
  unfold build_metrics. generalize (∅ : gmap string Metrics).
  induction services as [|a services IH]; intros acc Hall; simpl.
  - by eexists.
  - destruct (Hall a) as [mt Hmt]; [by left|].
    assert (metrics_step calendars calendar_dates pivot_date acc a = Ok (<[a:=mt]> acc))
      as Hstep by (unfold metrics_step; by rewrite Hmt).
    rewrite Hstep. simpl.
    apply IH. intros s Hs. apply Hall. by right.
Qed.

(** The values of the dictionary are the metrics of the services. *)
Lemma metrics_values (services : list string) (m : gmap string Metrics) (mt : Metrics) :
  (∀ s, s ∈ services → is_Some (m !! s)) →
  (∀ s, s ∉ services → m !! s = None) →
  mt ∈ (map_to_list m).*2 ↔ ∃ s, s ∈ services ∧ m !!! s = mt.
Proof.
  intros Hin Hout. rewrite list_elem_of_fmap. split.
  - intros ([s mt'] & -> & Hs). apply elem_of_map_to_list in Hs. simpl.
    exists s. split.
    + destruct (decide (s ∈ services)) as [|Hn]; [done|]. rewrite Hout in Hs; done.
    + by rewrite lookup_total_alt, Hs.
  - intros (s & Hs & <-). destruct (Hin s Hs) as [mt' Hmt'].
    exists (s, mt'). split; [by rewrite lookup_total_alt, Hmt'|].
    by apply elem_of_map_to_list.
Qed.

(** ** Stages of the elimination chain *)

Lemma filter_all {A : Type} (P : A → Prop) `{!∀ x, Decision (P x)} (l : list A) :
  (∀ x, x ∈ l → P x) → filter P l = l.
Proof.
  induction l as [|x l IH]; intros HP; [done|].
  rewrite filter_cons_True by (apply HP; by left).
  f_equal. apply IH. intros y Hy. apply HP. by right.
Qed.

Lemma filter_length_eq {A : Type} (P : A → Prop) `{!∀ x, Decision (P x)} (l : list A) :
  length (filter P l) = length l → filter P l = l.
Proof.
  intros Hlen. apply filter_all. intros x Hx.
  destruct (decide (P x)) as [|Hn]; [done|].
  pose proof (length_filter_lt P l x Hx Hn). lia.
Qed.

Lemma keep_highest_elem {K : Type} (le : K → K → Prop) `{!∀ x y, Decision (le x y)}
    (key : string → K) (pool : list string) (s : string) :
  s ∈ keep_highest le key pool ↔ s ∈ pool ∧ ∀ s', s' ∈ pool → le (key s') (key s).
Proof.
  unfold keep_highest. rewrite list_elem_of_filter, Forall_forall. naive_solver.
Qed.

(** A stage on an optional date: either nobody has the date and the pool
    stays as it is, or the candidates with the latest date remain. *)
Lemma opt_key_stage (key : string → option Z) (pool : list string) :
  match max_opt (omap key pool) with
  | Some d =>
      keep_highest opt_date_le key pool = filter (λ s, key s = Some d) pool
      ∧ (∃ s, s ∈ pool ∧ key s = Some d)
  | None => keep_highest opt_date_le key pool = pool
  end.
Proof.
  destruct (max_opt (omap key pool)) as [d|] eqn:Hmax.
  - apply max_opt_Some in Hmax as [Hin Hub].
    apply list_elem_of_omap in Hin as (s0 & Hs0 & Hk0).
    split; [|by exists s0]. unfold keep_highest. apply filter_ext_in.
    intros s Hs. rewrite Forall_forall. split.
    + intros Hall. specialize (Hall s0 Hs0). rewrite Hk0 in Hall.
      destruct (key s) as [y|] eqn:Hy; [|done]. simpl in Hall.
      f_equal. apply Z.le_antisymm; [|done].
      apply Hub. apply list_elem_of_omap. by exists s.
    + intros Hk s' Hs'. rewrite Hk. destruct (key s') as [y|] eqn:Hy; [|done].
      simpl. apply Hub. apply list_elem_of_omap. by exists s'.
  - apply max_opt_None in Hmax. unfold keep_highest. apply filter_all.
    intros s Hs. apply Forall_forall. intros s' Hs'.
    destruct (key s') as [y|] eqn:Hy; [|done].
    assert (y ∈ omap key pool) as Hin by (apply list_elem_of_omap; by exists s').
    rewrite Hmax in Hin. inversion Hin.
Qed.

(** A stage on a count: the candidates with the highest count remain. *)
Lemma int_key_stage (key : string → Z) (pool : list string) :
  pool ≠ [] →
  ∃ v, max_opt (key <$> pool) = Some v
       ∧ keep_highest Z.le key pool = filter (λ s, key s = v) pool
       ∧ (∃ s, s ∈ pool ∧ key s = v)
       ∧ (∀ s, s ∈ pool → key s ≤ v).
Proof.
  intros Hne. destruct (max_opt (key <$> pool)) as [v|] eqn:Hmax.
  - exists v. apply max_opt_Some in Hmax as [Hin Hub].
    apply list_elem_of_fmap in Hin as (s0 & Hk0 & Hs0).
    assert (∀ s, s ∈ pool → key s ≤ v) as Hub'.
    { intros s Hs. apply Hub. apply list_elem_of_fmap. by exists s. }
    split_and!; [done| |by exists s0|done].
    unfold keep_highest. apply filter_ext_in. intros s Hs. rewrite Forall_forall. split.
    + intros Hall. apply Z.le_antisymm; [by apply Hub'|]. rewrite Hk0. by apply Hall.
    + intros <- s' Hs'. by apply Hub'.
  - apply max_opt_None in Hmax. by destruct pool.
Qed.

Lemma filter_nonempty {A : Type} (P : A → Prop) `{!∀ x, Decision (P x)} (l : list A) (x : A) :
  x ∈ l → P x → filter P l ≠ [].
Proof.
  intros Hx HP Hnil. assert (x ∈ filter P l) as Hin by by apply list_elem_of_filter.
  rewrite Hnil in Hin. inversion Hin.
Qed.

Lemma length_one_head {A : Type} (l : list A) :
  length l = 1%nat → ∃ x, l = [x] ∧ head l = Some x.
Proof. destruct l as [|x [|y l]]; try done. intros _. by exists x. Qed.

Lemma int_keys_elem (pool : list string) (keys : list (Z * string)) :
  int_keys pool = Some keys →
  ∀ n s, (n, s) ∈ keys ↔ s ∈ pool ∧ Py.int s = Some n.
Proof.
  unfold int_keys. intros Hk. apply mapM_Some in Hk.
  induction Hk as [|s p pool keys Hs Hk IH]; intros n s'.
  - split; [by intros H; inversion H | by intros [H _]; inversion H].
  - rewrite !elem_of_cons, IH.
    destruct (Py.int s) as [k|] eqn:Hint; simplify_eq/=. split.
    + intros [[= -> ->]|[Hin Hn]]; [by split; [left|] | by split; [right|]].
    + intros [[->|Hin] Hn]; [left; congruence | by right].
Qed.

Lemma int_keys_Some (pool : list string) :
  is_Some (int_keys pool) ↔ Forall (λ s, is_Some (Py.int s)) pool.
Proof.
  unfold int_keys. rewrite mapM_is_Some. apply Forall_proper; [|done].
  intros s. simpl. by rewrite fmap_is_Some.
Qed.

Lemma lexicographic_tiebreak_spec (pool reasons : list string) :
  pool ≠ [] →
  ∃ winner,
    lexicographic_tiebreak pool reasons
    = Ok (Some winner,
          reasons ++ ["Tiebreaker: lexicographically highest service_id ("
                      +:+ winner +:+ ")"],
          false)
    ∧ winner ∈ pool
    ∧ ∀ s, s ∈ pool → String.leb s winner = true.
Proof.
  intros Hne. unfold lexicographic_tiebreak.
  destruct (head_merge_sort_is_Some (λ a b : string, String.leb b a) pool Hne)
    as [w Hw].
  rewrite Hw. exists w. split; [done|].
  destruct (head_merge_sort _ _ _ Hw) as [Hin Hmax]. split; [done|].
  intros s Hs. apply Is_true_true. by apply Hmax.
Qed.

Lemma final_tiebreak_spec (pool reasons : list string) :
  pool ≠ [] →
  ∃ winner terminal,
    final_tiebreak pool reasons = Ok (Some winner, reasons ++ [terminal], false)
    ∧ final_pick pool winner
    ∧ ((Forall (λ s, is_Some (Py.int s)) pool
        ∧ terminal = "Tiebreaker: highest service_id (" +:+ winner +:+ ")")
       ∨ (¬ Forall (λ s, is_Some (Py.int s)) pool
          ∧ terminal = "Tiebreaker: lexicographically highest service_id ("
                       +:+ winner +:+ ")")).
Proof.
  intros Hne. unfold final_tiebreak.
  destruct (int_keys pool) as [keys|] eqn:Hkeys.
  - assert (Forall (λ s, is_Some (Py.int s)) pool) as Hall
      by (apply int_keys_Some; by rewrite Hkeys).
    pose proof (int_keys_elem _ _ Hkeys) as Helem.
    assert (keys ≠ []) as Hkne.
    { intros ->. destruct pool as [|s pool]; [done|].
      rewrite Forall_forall in Hall. destruct (Hall s) as [n Hn]; [by left|].
      assert ((n, s) ∈ @nil (Z * string)) as Hin by (apply Helem; split; [by left|done]).
      inversion Hin. }
    destruct (head_merge_sort_is_Some (λ a b : Z * string, pair_leb b a) keys Hkne)
      as [[k w] Hw].
    rewrite Hw. exists w, ("Tiebreaker: highest service_id (" +:+ w +:+ ")").
    destruct (head_merge_sort _ _ _ Hw) as [Hin Hmax].
    apply Helem in Hin as [Hin Hint].
    split; [done|]. split; [|by left]. split; [done|]. split.
    + intros _. exists k. split; [done|]. intros s Hs.
      rewrite Forall_forall in Hall. destruct (Hall s Hs) as [n Hn].
      exists n. split; [done|].
      assert ((n, s) ∈ keys) as Hns by by apply Helem.
      specialize (Hmax _ Hns). apply Is_true_true, pair_leb_spec in Hmax.
      simpl in Hmax. lia.
    + intros Hnot. by destruct Hnot.
  - assert (¬ Forall (λ s, is_Some (Py.int s)) pool) as Hnot.
    { intros Hall. apply int_keys_Some in Hall. rewrite Hkeys in Hall.
      by destruct Hall. }
    destruct (lexicographic_tiebreak_spec pool reasons Hne) as (w & Hw & Hin & Hmax).
    exists w, ("Tiebreaker: lexicographically highest service_id (" +:+ w +:+ ")").
    split; [done|]. split; [|by right]. split; [done|]. split; [by intros ?|done].
Qed.

Section Chain.

Variables (services : list string) (calendars : gmap string Row)
  (calendar_dates : list Row) (pivot_date : Z) (m : gmap string Metrics).
Hypothesis Hm : build_metrics services calendars calendar_dates pivot_date = Ok m.

Lemma metrics_present (s : string) : s ∈ services → is_Some (m !! s).
Proof.
  intros Hs. destruct (proj1 (build_metrics_lookup _ _ _ _ _ Hm) s Hs) as (mt & _ & Hmt).
  by exists mt.
Qed.

Lemma metrics_absent (s : string) : s ∉ services → m !! s = None.
Proof. apply (proj2 (build_metrics_lookup _ _ _ _ _ Hm)). Qed.

Lemma after_pivot_nonneg (s : string) :
  s ∈ services → 0 ≤ active_after_pivot (m !!! s).
Proof.
  intros Hs. destruct (proj1 (build_metrics_lookup _ _ _ _ _ Hm) s Hs) as (mt & Hsm & Hmt).
  rewrite lookup_total_alt, Hmt. simpl. unfold service_metrics in Hsm.
  apply bind_Ok in Hsm as (active & _ & [= <-]). simpl. lia.
Qed.

(** The latest date over [metrics.values()] is the latest over the group. *)
Lemma last_dates_max :
  max_opt (omap last_active_date (map_to_list m).*2)
  = max_opt (omap (λ s, last_active_date (m !!! s)) services).
Proof.
  apply max_opt_ext. intros x. rewrite !list_elem_of_omap. split.
  - intros (mt & Hmt & Hx).
    apply (metrics_values services) in Hmt as (s & Hs & <-);
      [|apply metrics_present|apply metrics_absent].
    by exists s.
  - intros (s & Hs & Hx). exists (m !!! s). split; [|done].
    apply (metrics_values services); [apply metrics_present|apply metrics_absent|].
    by exists s.
Qed.

Lemma stage_last_active_spec (reasons : list string) :
  (2 ≤ length services)%nat →
  let p1 := pool_last_active m services in
  p1 ≠ []
  ∧ ((length p1 = 1%nat
      ∧ ∃ d, (∀ s, s ∈ p1 → last_active_date (m !!! s) = Some d)
             ∧ stage_last_active m services reasons
               = inl (head p1,
                      reasons ++ ["Latest last_active_date: " +:+ Py.strftime_Y_m_d d],
                      false))
     ∨ (length p1 ≠ 1%nat
        ∧ ∃ r1, stage_last_active m services reasons = inr (p1, reasons ++ r1)
                ∧ ((r1 = [] ∧ p1 = services)
                   ∨ ∃ d, (∀ s, s ∈ p1 → last_active_date (m !!! s) = Some d)
                          ∧ r1 = ["Tied on last_active_date: " +:+ Py.strftime_Y_m_d d]))).
Proof.
  intros Hlen p1. unfold stage_last_active. rewrite last_dates_max.
  pose proof (opt_key_stage (λ s, last_active_date (m !!! s)) services) as Hstage.
  fold (pool_last_active m services) in Hstage. fold p1 in Hstage.
  destruct (max_opt (omap (λ s, last_active_date (m !!! s)) services)) as [d|].
  - destruct Hstage as [Hp1 (s0 & Hs0 & Hk0)]. rewrite <- Hp1.
    assert (∀ s, s ∈ p1 → last_active_date (m !!! s) = Some d) as Hall.
    { intros s Hs. rewrite Hp1 in Hs. by apply list_elem_of_filter in Hs as [? _]. }
    split; [rewrite Hp1; by eapply filter_nonempty|].
    case_bool_decide as Hone.
    + left. split; [done|]. by exists d.
    + right. split; [done|]. eexists. split; [done|]. right. by exists d.
  - rewrite Hstage. split; [intros Heq; rewrite Heq in Hlen; simpl in Hlen; lia|].
    right. split; [lia|]. exists []. rewrite app_nil_r. split; [done|]. by left.
Qed.

Lemma stage_after_pivot_spec (pool reasons : list string) :
  pool ≠ [] → (∀ s, s ∈ pool → 0 ≤ active_after_pivot (m !!! s)) →
  let p2 := pool_after_pivot m pool in
  p2 ≠ []
  ∧ ∃ v, (∀ s, s ∈ p2 → active_after_pivot (m !!! s) = v)
         ∧ ((length p2 = 1%nat
             ∧ stage_after_pivot m pool reasons
               = inl (head p2,
                      reasons ++ ["Most active days after pivot (" +:+ pretty v
                                  +:+ " days)"],
                      false))
            ∨ (length p2 ≠ 1%nat
               ∧ ∃ r2, stage_after_pivot m pool reasons = inr (p2, reasons ++ r2)
                       ∧ ((r2 = [] ∧ p2 = pool)
                          ∨ r2 = ["Tied on active days after pivot: " +:+ pretty v]))).
Proof.
  intros Hne Hpos p2. unfold stage_after_pivot.
  destruct (int_key_stage (λ s, active_after_pivot (m !!! s)) pool Hne)
    as (v & Hmax & Hp2 & (s0 & Hs0 & Hk0) & Hub).
  fold (pool_after_pivot m pool) in Hp2. fold p2 in Hp2.
  rewrite Hmax. rewrite <- Hp2.
  assert (∀ s, s ∈ p2 → active_after_pivot (m !!! s) = v) as Hall.
  { intros s Hs. rewrite Hp2 in Hs. by apply list_elem_of_filter in Hs as [? _]. }
  split; [rewrite Hp2; by eapply filter_nonempty|].
  exists v. split; [done|]. case_bool_decide as Hone.
  - left. by split.
  - right. split; [done|]. case_bool_decide as Hv.
    + eexists. split; [done|]. by right.
    + exists []. rewrite app_nil_r. split; [done|]. left. split; [done|].
      rewrite Hp2. apply filter_all. intros s Hs.
      specialize (Hub s Hs). specialize (Hpos s Hs). lia.
Qed.

Lemma stage_start_date_spec (pool reasons : list string) :
  pool ≠ [] → length pool ≠ 1%nat →
  let p3 := pool_start_date m pool in
  p3 ≠ []
  ∧ ((length p3 = 1%nat
      ∧ ∃ d, (∀ s, s ∈ p3 → start_date (m !!! s) = Some d)
             ∧ stage_start_date m pool reasons
               = inl (head p3,
                      reasons ++ ["Latest start_date: " +:+ Py.strftime_Y_m_d d],
                      false))
     ∨ (length p3 ≠ 1%nat
        ∧ ∃ r3, stage_start_date m pool reasons = inr (p3, reasons ++ r3)
                ∧ ((r3 = [] ∧ p3 = pool)
                   ∨ ∃ d, (∀ s, s ∈ p3 → start_date (m !!! s) = Some d)
                          ∧ r3 = ["Tied on start_date: " +:+ Py.strftime_Y_m_d d]))).
Proof.
  intros Hne Hlen p3. unfold stage_start_date.
  pose proof (opt_key_stage (λ s, start_date (m !!! s)) pool) as Hstage.
  fold (pool_start_date m pool) in Hstage. fold p3 in Hstage.
  destruct (max_opt (omap (λ s, start_date (m !!! s)) pool)) as [d|].
  - destruct Hstage as [Hp3 (s0 & Hs0 & Hk0)]. rewrite <- Hp3.
    assert (∀ s, s ∈ p3 → start_date (m !!! s) = Some d) as Hall.
    { intros s Hs. rewrite Hp3 in Hs. by apply list_elem_of_filter in Hs as [? _]. }
    split; [rewrite Hp3; by eapply filter_nonempty|].
    case_bool_decide as Hone.
    + left. split; [done|]. by exists d.
    + right. split; [done|]. eexists. split; [done|]. right. by exists d.
  - rewrite Hstage. split; [done|]. right.
    split; [done|]. exists []. rewrite app_nil_r. split; [done|]. by left.
Qed.

Lemma keep_highest_incl {K : Type} (le : K → K → Prop) `{!∀ x y, Decision (le x y)}
    (key : string → K) (pool : list string) (s : string) :
  s ∈ keep_highest le key pool → s ∈ pool.
Proof. intros Hs. by apply keep_highest_elem in Hs as [? _]. Qed.

Lemma keep_highest_length {K : Type} (le : K → K → Prop) `{!∀ x y, Decision (le x y)}
    (key : string → K) (pool : list string) :
  (length (keep_highest le key pool) ≤ length pool)%nat.
Proof. apply length_filter. Qed.

(** The run of the chain on a group of at least two services: the winner,
    the "tied" reasons of the stages that did not decide, and the reason of
    the stage that decided. *)
Lemma chain_analysis :
  (2 ≤ length services)%nat →
  let p1 := pool_last_active m services in
  let p2 := pool_after_pivot m p1 in
  let p3 := pool_start_date m p2 in
  ∃ winner r1 r2 r3 terminal,
    elimination_chain m services
    = Ok (Some winner, r1 ++ r2 ++ r3 ++ [terminal], false)
    ∧ chain_winner m services winner
    ∧ (r1 = [] ∨ ∃ d, (∀ s, s ∈ p1 → last_active_date (m !!! s) = Some d)
                      ∧ r1 = ["Tied on last_active_date: " +:+ Py.strftime_Y_m_d d])
    ∧ (r2 = [] ∨ ∃ v, (∀ s, s ∈ p2 → active_after_pivot (m !!! s) = v)
                      ∧ r2 = ["Tied on active days after pivot: " +:+ pretty v])
    ∧ (r3 = [] ∨ ∃ d, (∀ s, s ∈ p3 → start_date (m !!! s) = Some d)
                      ∧ r3 = ["Tied on start_date: " +:+ Py.strftime_Y_m_d d])
    ∧ (length p1 < length services → 1 < length p1 → r1 ≠ [])%nat
    ∧ (length p2 < length p1 → 1 < length p2 → r2 ≠ [])%nat
    ∧ (length p3 < length p2 → 1 < length p3 → r3 ≠ [])%nat
    ∧ ((length p1 = 1%nat
        ∧ ∃ d, (∀ s, s ∈ p1 → last_active_date (m !!! s) = Some d)
               ∧ terminal = "Latest last_active_date: " +:+ Py.strftime_Y_m_d d)
       ∨ (length p1 ≠ 1%nat ∧ length p2 = 1%nat
          ∧ ∃ v, (∀ s, s ∈ p2 → active_after_pivot (m !!! s) = v)
                 ∧ terminal = "Most active days after pivot (" +:+ pretty v +:+ " days)")
       ∨ (length p1 ≠ 1%nat ∧ length p2 ≠ 1%nat ∧ length p3 = 1%nat
          ∧ ∃ d, (∀ s, s ∈ p3 → start_date (m !!! s) = Some d)
                 ∧ terminal = "Latest start_date: " +:+ Py.strftime_Y_m_d d)
       ∨ (length p1 ≠ 1%nat ∧ length p2 ≠ 1%nat ∧ length p3 ≠ 1%nat
          ∧ ((Forall (λ s, is_Some (Py.int s)) p3
              ∧ terminal = "Tiebreaker: highest service_id (" +:+ winner +:+ ")")
             ∨ (¬ Forall (λ s, is_Some (Py.int s)) p3
                ∧ terminal = "Tiebreaker: lexicographically highest service_id ("
                             +:+ winner +:+ ")")))).
Proof.
  intros Hlen. cbv zeta. unfold elimination_chain, chain_winner. cbv zeta.
  pose proof (keep_highest_length opt_date_le (λ s, last_active_date (m !!! s)) services)
    as Hle1. fold (pool_last_active m services) in Hle1.
  pose proof (keep_highest_length Z.le (λ s, active_after_pivot (m !!! s))
                (pool_last_active m services))
    as Hle2. fold (pool_after_pivot m (pool_last_active m services)) in Hle2.
  pose proof (keep_highest_length opt_date_le (λ s, start_date (m !!! s))
                (pool_after_pivot m (pool_last_active m services)))
    as Hle3.
  fold (pool_start_date m (pool_after_pivot m (pool_last_active m services))) in Hle3.
  pose proof (stage_last_active_spec [] Hlen) as S1. cbv zeta in S1.
  assert (∀ s, s ∈ pool_last_active m services → 0 ≤ active_after_pivot (m !!! s))
    as Hpos.
  { intros s Hs. apply after_pivot_nonneg. by eapply keep_highest_incl. }
  pose proof (λ r, stage_after_pivot_spec (pool_last_active m services) r) as S2.
  cbv zeta in S2.
  pose proof (λ r, stage_start_date_spec
                     (pool_after_pivot m (pool_last_active m services)) r) as S3.
  cbv zeta in S3.
  pose proof (λ r, final_tiebreak_spec
                     (pool_start_date m
                        (pool_after_pivot m (pool_last_active m services))) r) as S4.
  remember (pool_last_active m services) as p1 eqn:Ep1.
  remember (pool_after_pivot m p1) as p2 eqn:Ep2.
  remember (pool_start_date m p2) as p3 eqn:Ep3.
  destruct S1 as [Hp1 [(H1 & d1 & Hd1 & Hs1)|(H1 & r1 & Hs1 & Hr1)]].
  { (* decided by the last active date *)
    rewrite Hs1. destruct (length_one_head p1 H1) as (x & Hx & Hhd). rewrite Hhd.
    exists x, [], [], [], ("Latest last_active_date: " +:+ Py.strftime_Y_m_d d1).
    split; [done|]. split; [by rewrite decide_True|].
    split_and!; [by left | by left | by left | lia | lia | lia |].
    left. split; [done|]. by exists d1. }
  rewrite Hs1. simpl.
  assert (r1 = [] ∨ ∃ d, (∀ s, s ∈ p1 → last_active_date (m !!! s) = Some d)
                         ∧ r1 = ["Tied on last_active_date: " +:+ Py.strftime_Y_m_d d])
    as Hr1' by (destruct Hr1 as [[-> _]|Hr1]; [by left | by right]).
  assert (length p1 < length services → 1 < length p1 → r1 ≠ [])%nat as Hn1.
  { intros Hlt _. destruct Hr1 as [[_ Heq]|(d & _ & ->)]; [|done].
    rewrite Heq in Hlt. lia. }
  destruct (S2 r1 Hp1 Hpos)
    as [Hp2 (v & Hv & [(H2 & Hs2)|(H2 & r2 & Hs2 & Hr2)])].
  { (* decided by the days after the pivot *)
    rewrite Hs2. destruct (length_one_head p2 H2) as (x & Hx & Hhd). rewrite Hhd.
    exists x, r1, [], [],
      ("Most active days after pivot (" +:+ pretty v +:+ " days)").
    split; [done|]. split; [rewrite decide_False by done; by rewrite decide_True|].
    split_and!; [done | by left | by left | done | lia | lia |].
    right. left. split_and!; [done..|]. by exists v. }
  rewrite Hs2.
  assert (r2 = [] ∨ ∃ v, (∀ s, s ∈ p2 → active_after_pivot (m !!! s) = v)
                         ∧ r2 = ["Tied on active days after pivot: " +:+ pretty v])
    as Hr2' by (destruct Hr2 as [[-> _]| ->]; [by left | right; by exists v]).
  assert (length p2 < length p1 → 1 < length p2 → r2 ≠ [])%nat as Hn2.
  { intros Hlt _. destruct Hr2 as [[_ Heq]| ->]; [|done].
    rewrite Heq in Hlt. lia. }
  destruct (S3 (r1 ++ r2) Hp2 H2)
    as [Hp3 [(H3 & d3 & Hd3 & Hs3)|(H3 & r3 & Hs3 & Hr3)]].
  { (* decided by the start date *)
    rewrite Hs3. destruct (length_one_head p3 H3) as (x & Hx & Hhd). rewrite Hhd.
    exists x, r1, r2, [], ("Latest start_date: " +:+ Py.strftime_Y_m_d d3).
    split; [by rewrite <- !app_assoc|].
    split; [rewrite !decide_False by done; by rewrite decide_True|].
    split_and!; [done | done | by left | done | done | lia |].
    right. right. left. split_and!; [done..|]. by exists d3. }
  rewrite Hs3.
  assert (r3 = [] ∨ ∃ d, (∀ s, s ∈ p3 → start_date (m !!! s) = Some d)
                         ∧ r3 = ["Tied on start_date: " +:+ Py.strftime_Y_m_d d])
    as Hr3' by (destruct Hr3 as [[-> _]|Hr3]; [by left | by right]).
  assert (length p3 < length p2 → 1 < length p3 → r3 ≠ [])%nat as Hn3.
  { intros Hlt _. destruct Hr3 as [[_ Heq]|(d & _ & ->)]; [|done].
    rewrite Heq in Hlt. lia. }
  destruct (S4 ((r1 ++ r2) ++ r3) Hp3)
    as (winner & terminal & Hfinal & Hpick & Hterm).
  rewrite Hfinal. exists winner, r1, r2, r3, terminal.
  split; [by rewrite <- !app_assoc|].
  split; [by rewrite !decide_False by done|].
  split_and!; [done..|]. right. right. right. by split_and!.
Qed.

End Chain.

(** ** Overlap of the active dates *)

Lemma overlap_inner_spec (count : string → Z) (rest : list string) (acc : Z) :
  let r := foldl (λ mo b, if bool_decide (mo < count b) then count b else mo) acc rest in
  acc ≤ r
  ∧ (∀ (j : nat) b, rest !! j = Some b → count b ≤ r)
  ∧ (r = acc ∨ ∃ (j : nat) b, rest !! j = Some b ∧ count b = r).
Proof.
  revert acc. induction rest as [|x rest IH]; intros acc; simpl.
  - split; [lia|]. split; [by intros j b Hj|by left].
  - destruct (IH (if bool_decide (acc < count x) then count x else acc))
      as (Hle & Hub & Hatt).
    case_bool_decide as Hlt.
    + split; [lia|]. split.
      * intros [|j] b Hj; simpl in Hj; [by simplify_eq|by eapply Hub].
      * right. destruct Hatt as [->|(j & b & Hj & Hb)]; [by exists 0%nat, x|].
        by exists (S j), b.
    + split; [lia|]. split.
      * intros [|j] b Hj; simpl in Hj; [simplify_eq; lia|by eapply Hub].
      * destruct Hatt as [->|(j & b & Hj & Hb)]; [by left|]. right. by exists (S j), b.
Qed.

Lemma overlap_scan_spec (m : gmap string Metrics) (services : list string) (acc : Z) :
  let r := overlap_scan m services acc in
  acc ≤ r
  ∧ (∀ (i j : nat) a b, (i < j)%nat → services !! i = Some a → services !! j = Some b →
                        overlap m a b ≤ r)
  ∧ (r = acc ∨ ∃ (i j : nat) a b, (i < j)%nat ∧ services !! i = Some a
                                  ∧ services !! j = Some b ∧ overlap m a b = r).
Proof.
  revert acc. induction services as [|x services IH]; intros acc; simpl.
  - split; [lia|]. split; [by intros i j a b _ Hi|by left].
  - destruct (overlap_inner_spec (overlap m x) services acc) as (Hle1 & Hub1 & Hatt1).
    simpl in *.
    destruct (IH (foldl (λ mo b, if bool_decide (mo < overlap m x b)
                                 then overlap m x b else mo) acc services))
      as (Hle & Hub & Hatt).
    split; [lia|]. split.
    + intros [|i] [|j] a b Hij Hi Hj; simpl in *; try lia.
      * simplify_eq. specialize (Hub1 _ _ Hj). lia.
      * apply (Hub i j); [lia|done..].
    + destruct Hatt as [Heq|(i & j & a & b & Hij & Hi & Hj & Hab)].
      * destruct Hatt1 as [Heq1|(j & b & Hj & Hb)]; [left; lia|].
        right. exists 0%nat, (S j), x, b. split_and!; [lia|done..|lia].
      * right. exists (S i), (S j), a, b. split_and!; [lia|done..].
Qed.

(** With at least two services the scan computes the largest pairwise
    overlap. *)
Lemma overlap_scan_max (m : gmap string Metrics) (services : list string) :
  (2 ≤ length services)%nat →
  max_pairwise (overlap m) services (overlap_scan m services 0).
Proof.
  intros Hlen. destruct (overlap_scan_spec m services 0) as (Hle & Hub & Hatt).
  simpl in *. split; [|done].
  destruct Hatt as [Heq|Hatt]; [|done].
  destruct services as [|a [|b services]]; simpl in Hlen; try lia.
  exists 0%nat, 1%nat, a, b. split_and!; [lia|done..|].
  specialize (Hub 0%nat 1%nat a b ltac:(lia) eq_refl eq_refl).
  unfold overlap in *. lia.
Qed.

Lemma max_pairwise_unique (count : string → string → Z) (services : list string) (M M' : Z) :
  max_pairwise count services M → max_pairwise count services M' → M = M'.
Proof.
  intros [(i & j & a & b & Hij & Hi & Hj & <-) Hub]
         [(i' & j' & a' & b' & Hij' & Hi' & Hj' & <-) Hub'].
  apply Z.le_antisymm; [exact (Hub' i j a b Hij Hi Hj)|exact (Hub i' j' a' b' Hij' Hi' Hj')].
Qed.

Lemma max_pairwise_ext (count count' : string → string → Z) (services : list string) (M : Z) :
  (∀ a b, a ∈ services → b ∈ services → count a b = count' a b) →
  max_pairwise count services M → max_pairwise count' services M.
Proof.
  intros Hext [(i & j & a & b & Hij & Hi & Hj & <-) Hub]. split.
  - exists i, j, a, b. split_and!; [done..|]. symmetry.
    apply Hext; by eapply list_elem_of_lookup_2.
  - intros i' j' a' b' Hij' Hi' Hj'. rewrite <- Hext by by eapply list_elem_of_lookup_2.
    exact (Hub i' j' a' b' Hij' Hi' Hj').
Qed.

(** ** The dictionary of calendars *)

Lemma calendars_step_Ok (acc : gmap string Row) (c : Row) (sid : string) :
  c !! "service_id" = Some sid → calendars_step acc c = Ok (<[sid := c]> acc).
Proof. intros Hsid. unfold calendars_step, dict_item. by rewrite Hsid. Qed.

Lemma calendars_dict_Ok (rows : list Row) (acc : gmap string Row) :
  Forall (λ c : Row, is_Some (c !! "service_id")) rows →
  ∃ m, foldlM calendars_step acc rows = Ok m.
Proof.
  revert acc. induction rows as [|c rows IH]; intros acc Hall; simpl; [by eexists|].
  apply Forall_cons in Hall as [[sid Hsid] Hall].
  rewrite (calendars_step_Ok _ _ _ Hsid). simpl. by apply IH.
Qed.

Lemma calendars_dict_other (rows : list Row) (acc m : gmap string Row) (sid : string) :
  foldlM calendars_step acc rows = Ok m →
  Forall (λ c : Row, c !! "service_id" ≠ Some sid) rows →
  m !! sid = acc !! sid.
Proof.
  revert acc. induction rows as [|c rows IH]; intros acc Hm Hall; simpl in Hm.
  - by simplify_eq.
  - apply Forall_cons in Hall as [Hc Hall].
    apply bind_Ok in Hm as (acc' & Hstep & Hm). unfold calendars_step, dict_item in Hstep.
    destruct (c !! "service_id") as [sid'|] eqn:Hsid; [|done]. simpl in Hstep.
    simplify_eq. rewrite (IH _ Hm Hall). apply lookup_insert_ne. congruence.
Qed.

(** Later rows overwrite earlier ones: the dictionary maps a service id to
    the last calendar row that carries it. *)
Lemma calendars_dict_last (pre post : list Row) (r : Row) (sid : string) :
  Forall (λ c : Row, is_Some (c !! "service_id")) pre →
  r !! "service_id" = Some sid →
  Forall (λ c : Row, is_Some (c !! "service_id") ∧ c !! "service_id" ≠ Some sid) post →
  ∃ m, build_calendars_dict (pre ++ r :: post) = Ok m ∧ m !! sid = Some r.
Proof.
  intros Hpre Hr Hpost. unfold build_calendars_dict.
  destruct (calendars_dict_Ok pre ∅ Hpre) as [m1 Hm1].
  rewrite foldlM_app, Hm1. simpl.
  rewrite (calendars_step_Ok _ _ _ Hr). simpl.
  destruct (calendars_dict_Ok post (<[sid:=r]> m1)) as [m2 Hm2].
  { eapply Forall_impl; [done|]. by intros c [? _]. }
  exists m2. split; [done|].
  rewrite (calendars_dict_other _ _ _ sid Hm2).
  - apply lookup_insert_eq.
  - eapply Forall_impl; [done|]. by intros c [_ ?].
Qed.

Lemma service_metrics_row (sid : string) (calendars : gmap string Row) (r : Row)
    (calendar_dates : list Row) (pivot_date : Z) :
  calendars !! sid = Some r →
  service_metrics sid calendars calendar_dates pivot_date
  = service_metrics sid {[sid := r]} calendar_dates pivot_date.
Proof.
  intros Hr. unfold service_metrics. by rewrite Hr, lookup_singleton_eq.
Qed.

(** ** The resolver *)

Lemma opt_date_le_refl (a : option Z) : opt_date_le a a.
Proof. destruct a; simpl; [lia|done]. Qed.

Lemma chain_winner_singleton (m : gmap string Metrics) (s : string) :
  chain_winner m [s] s.
Proof.
  unfold chain_winner. cbv zeta.
  assert (pool_last_active m [s] = [s]) as ->; [|by rewrite decide_True].
  unfold pool_last_active, keep_highest. apply filter_all.
  intros x Hx. apply list_elem_of_singleton in Hx as ->.
  apply Forall_singleton, opt_date_le_refl.
Qed.

Lemma pool_last_active_pair (m : gmap string Metrics) (a b : string) :
  last_active_date (m !!! a) = last_active_date (m !!! b) →
  pool_last_active m [a; b] = [a; b].
Proof.
  intros Heq. unfold pool_last_active, keep_highest. apply filter_all.
  intros x Hx. apply Forall_forall. intros y Hy.
  assert (last_active_date (m !!! y) = last_active_date (m !!! x)) as ->;
    [|apply opt_date_le_refl].
  set_unfold. destruct Hx as [->|[->|[]]], Hy as [->|[->|[]]]; done.
Qed.

Lemma pool_after_pivot_pair (m : gmap string Metrics) (a b : string) :
  active_after_pivot (m !!! a) < active_after_pivot (m !!! b) →
  pool_after_pivot m [a; b] = [b] ∧ pool_after_pivot m [b; a] = [b].
Proof.
  intros Hlt. unfold pool_after_pivot, keep_highest.
  split; rewrite !filter_cons, filter_nil.
  - rewrite decide_False, decide_True; [done| |].
    + apply Forall_forall. intros y Hy. set_unfold. destruct Hy as [->|[->|[]]]; lia.
    + intros Hall. apply Forall_cons in Hall as [_ Hall].
      apply Forall_cons in Hall as [Hall _]. lia.
  - rewrite decide_True, decide_False; [done| |].
    + intros Hall. apply Forall_cons in Hall as [Hall _]. lia.
    + apply Forall_forall. intros y Hy. set_unfold. destruct Hy as [->|[->|[]]]; lia.
Qed.

Lemma resolver_chain (services : list string) (calendars : gmap string Row)
    (calendar_dates : list Row) (pivot_date overlap_max_days : Z) (v : Verdict) :
  (2 ≤ length services)%nat →
  _choose_service_winner_factual services calendars calendar_dates pivot_date
    overlap_max_days = Ok v →
  ∃ m, build_metrics services calendars calendar_dates pivot_date = Ok m
       ∧ ((overlap_max_days < overlap_scan m services 0
           ∧ v = (None, [ambiguous_reason (overlap_scan m services 0) overlap_max_days],
                  true))
          ∨ (overlap_scan m services 0 ≤ overlap_max_days
             ∧ elimination_chain m services = Ok v)).
Proof.
  intros Hlen Hres. unfold _choose_service_winner_factual in Hres.
  rewrite bool_decide_eq_false_2 in Hres by lia.
  apply bind_Ok in Hres as (m & Hm & Hres). exists m. split; [done|].
  case_bool_decide as Hamb.
  - left. split; [done|]. by simplify_eq.
  - right. split; [lia|done].
Qed.

(** The resolver returns whenever the metrics of the group can be computed. *)
Lemma resolver_total (services : list string) (calendars : gmap string Row)
    (calendar_dates : list Row) (pivot_date overlap_max_days : Z) (m : gmap string Metrics) :
  build_metrics services calendars calendar_dates pivot_date = Ok m →
  ∃ v, _choose_service_winner_factual services calendars calendar_dates pivot_date
         overlap_max_days = Ok v.
Proof.
  intros Hm. unfold _choose_service_winner_factual.
  case_bool_decide as Hlen; [by eexists|]. rewrite Hm. simpl.
  case_bool_decide; [by eexists|].
  assert (2 ≤ length services)%nat as Hlen2 by lia.
  destruct (chain_analysis _ _ _ _ _ Hm Hlen2) as (w & r1 & r2 & r3 & t & Hc & _).
  rewrite Hc. by eexists.
Qed.

(** C9. Called with an empty list of services the resolver does not raise:
    it returns no winner, not ambiguous, and the single reason
    "Only one service in group". *)
Theorem resolver_empty_group (calendars : gmap string Row) (calendar_dates : list Row)
    (pivot_date overlap_max_days : Z) :
  _choose_service_winner_factual [] calendars calendar_dates pivot_date overlap_max_days
  = Ok (None, ["Only one service in group"], false).
Proof. reflexivity. Qed.

(** C2. For a group of two or more services whose active dates can be
    computed, if the largest number of dates shared by two candidates (taken
    over all pairs of positions in the group) exceeds the threshold, the
    resolver returns no winner and the ambiguous flag, with the single
    reason that records that number and the threshold; no reason of the
    elimination chain is produced. *)
Theorem overlap_ambiguity (services : list string) (calendars : gmap string Row)
    (calendar_dates : list Row) (pivot_date overlap_max_days : Z)
    (dates : string → gset Z) (M : Z) :
  (2 ≤ length services)%nat →
  (∀ s, s ∈ services →
        _active_dates_for_service s (default ∅ (calendars !! s))
          (filter (λ exc : Row, exc !! "service_id" = Some s) calendar_dates)
        = Ok (dates s)) →
  max_pairwise (λ a b, Z.of_nat (size (dates a ∩ dates b))) services M →
  overlap_max_days < M →
  _choose_service_winner_factual services calendars calendar_dates pivot_date
    overlap_max_days
  = Ok (None,
        ["Ambiguous: services overlap by " +:+ pretty M +:+ " days (> "
         +:+ pretty overlap_max_days +:+ ")"],
        true).
Proof.
  intros Hlen Hdates Hmax Hthr.
  destruct (build_metrics_Ok services calendars calendar_dates pivot_date) as [m Hm].
  { intros s Hs. unfold service_metrics. rewrite (Hdates s Hs). by eexists. }
  assert (∀ s, s ∈ services → active_dates (m !!! s) = dates s) as Hact.
  { intros s Hs.
    destruct (proj1 (build_metrics_lookup _ _ _ _ _ Hm) s Hs) as (mt & Hsm & Hmt).
    rewrite lookup_total_alt, Hmt. simpl. unfold service_metrics in Hsm.
    rewrite (Hdates s Hs) in Hsm. simpl in Hsm. by simplify_eq. }
  assert (overlap_scan m services 0 = M) as Hscan.
  { apply (max_pairwise_unique (overlap m) services); [by apply overlap_scan_max|].
    eapply max_pairwise_ext; [|done]. intros a b Ha Hb. unfold overlap.
    by rewrite (Hact a Ha), (Hact b Hb). }
  unfold _choose_service_winner_factual.
  rewrite bool_decide_eq_false_2 by lia. rewrite Hm. simpl.
  rewrite Hscan. by rewrite bool_decide_eq_true_2.
Qed.

Lemma max_pairwise_pair (count : string → string → Z) (a b : string) (M : Z) :
  count a b = M → max_pairwise count [a; b] M.
Proof.
  intros <-. split.
  - exists 0%nat, 1%nat, a, b. split; [lia|]. by split.
  - intros i j x y Hij Hi Hj.
    destruct i as [|[|i]]; destruct j as [|[|j]]; simpl in Hi, Hj;
      try discriminate Hi; try discriminate Hj; try lia.
    injection Hi as <-. injection Hj as <-. lia.
Qed.

(** The two demo timetables share 13 working days; with a threshold of 5
    days the group is ambiguous. *)
Lemma overlap_ambiguity_witness :
  (2 ≤ length ["100"; "101"])%nat ∧ 5 < 13
  ∧ _choose_service_winner_factual ["100"; "101"] demo_dict [] demo_pivot 5
    = Ok (None, ["Ambiguous: services overlap by 13 days (> 5)"], true).
Proof.
  assert (2 ≤ length ["100"; "101"])%nat as Hlen by (simpl; lia).
  assert (5 < 13) as Hthr by lia.
  split; [exact Hlen|]. split; [exact Hthr|].
  refine (overlap_ambiguity ["100"; "101"] demo_dict [] demo_pivot 5 demo_dates 13
            Hlen _ _ Hthr); clear Hlen Hthr.
  - intros s Hs. apply elem_of_cons in Hs as [->|Hs]; [vm_refl|].
    apply elem_of_cons in Hs as [->|Hs]; [vm_refl|]. inversion Hs.
  - apply max_pairwise_pair. vm_refl.
Defined.

Lemma last_app_singleton {A : Type} (l1 l2 l3 : list A) (x : A) :
  last (l1 ++ l2 ++ l3 ++ [x]) = Some x.
Proof. by rewrite !app_assoc, last_snoc. Qed.

Lemma max_pairwise_pair_inv (count : string → string → Z) (a b : string) (M : Z) :
  max_pairwise count [a; b] M → M = count a b.
Proof.
  intros [(i & j & x & y & Hij & Hi & Hj & <-) _].
  destruct i as [|[|i]]; destruct j as [|[|j]]; simpl in Hi, Hj;
    try discriminate Hi; try discriminate Hj; try lia.
  injection Hi as <-. injection Hj as <-. reflexivity.
Qed.

(** The chain runs when the largest overlap is within the threshold. *)
Lemma resolver_runs_chain (services : list string) (calendars : gmap string Row)
    (calendar_dates : list Row) (pivot_date overlap_max_days : Z)
    (m : gmap string Metrics) :
  (2 ≤ length services)%nat →
  build_metrics services calendars calendar_dates pivot_date = Ok m →
  (∀ M, max_pairwise (overlap m) services M → M ≤ overlap_max_days) →
  _choose_service_winner_factual services calendars calendar_dates pivot_date
    overlap_max_days
  = elimination_chain m services.
Proof.
  intros Hlen Hm Hov. unfold _choose_service_winner_factual.
  rewrite bool_decide_eq_false_2 by lia. rewrite Hm. simpl.
  pose proof (Hov _ (overlap_scan_max m services Hlen)) as Hle.
  by rewrite bool_decide_eq_false_2 by lia.
Qed.

(** C1. A non-empty group that is not declared ambiguous, that is, whose
    largest pairwise overlap is within the threshold, gets a winner: the
    resolver returns it with the ambiguous flag off, and it is the one the
    ordered elimination chain selects: keep the candidates with the highest
    last active date (an absent date loses), then those with the highest
    count of active days from the pivot on, then those with the highest
    start date (an absent date loses), stopping at the first stage that
    leaves exactly one candidate; if none does, the numerically largest id
    when [int] accepts every remaining id, otherwise the lexicographically
    largest one. In particular, of two candidates tied on the last active
    date the one with strictly more active days after the pivot wins, and
    the last reason cites that count. [m] holds the metrics of the
    candidates, which the resolver computes for a group of two or more. *)
Theorem chain_picks_winner (services : list string) (calendars : gmap string Row)
    (calendar_dates : list Row) (pivot_date overlap_max_days : Z)
    (m : gmap string Metrics) :
  services ≠ [] →
  ((2 ≤ length services)%nat →
   build_metrics services calendars calendar_dates pivot_date = Ok m) →
  (∀ M, max_pairwise (overlap m) services M → M ≤ overlap_max_days) →
  ∃ winner reasons,
    _choose_service_winner_factual services calendars calendar_dates pivot_date
      overlap_max_days = Ok (Some winner, reasons, false)
    ∧ chain_winner m services winner
    ∧ reasons ≠ []
    ∧ (∀ a b,
         services = [a; b] ∨ services = [b; a] →
         last_active_date (m !!! a) = last_active_date (m !!! b) →
         active_after_pivot (m !!! a) < active_after_pivot (m !!! b) →
         winner = b
         ∧ last reasons
           = Some ("Most active days after pivot ("
                   +:+ pretty (active_after_pivot (m !!! b)) +:+ " days)")).
Proof.
  intros Hne Hbuild Hov.
  destruct (decide (length services ≤ 1)%nat) as [Hone|Hmany].
  - (* a single service *)
    destruct services as [|s [|s' services]]; simpl in Hone; [done| |lia].
    exists s, ["Only one service in group"]. split; [done|].
    split; [apply chain_winner_singleton|]. split; [done|].
    intros a b [Heq|Heq]; discriminate.
  - assert (2 ≤ length services)%nat as Hlen2 by lia.
    pose proof (Hbuild Hlen2) as Hm.
    rewrite (resolver_runs_chain _ _ _ _ _ _ Hlen2 Hm Hov).
    destruct (chain_analysis _ _ _ _ _ Hm Hlen2)
      as (winner & r1 & r2 & r3 & t & Hc & Hwin & _ & _ & _ & _ & _ & _ & Hterm).
    exists winner, (r1 ++ r2 ++ r3 ++ [t]). split; [done|]. split; [done|]. split.
    { intros Hnil. apply (f_equal length) in Hnil.
      rewrite !length_app in Hnil. simpl in Hnil. lia. }
    intros a b Hsv Hlast Hafter.
    assert (pool_last_active m services = services) as Hp1.
    { destruct Hsv as [->| ->]; by apply pool_last_active_pair. }
    assert (pool_after_pivot m services = [b]) as Hp2.
    { destruct (pool_after_pivot_pair m a b Hafter) as [Hab Hba].
      by destruct Hsv as [->| ->]. }
    assert (length services = 2%nat) as Hlen by by destruct Hsv as [->| ->].
    unfold chain_winner in Hwin. cbv zeta in Hwin. cbv zeta in Hterm.
    rewrite Hp1, Hp2 in Hwin, Hterm. rewrite Hlen in Hwin, Hterm. simpl in Hwin, Hterm.
    simplify_eq. split; [done|]. rewrite last_app_singleton. f_equal.
    destruct Hterm as [[? _]|[(_ & _ & v & Hv & ->)|[(_ & ? & _)|(_ & ? & _)]]];
      [lia| |done|done].
    by rewrite (Hv winner) by set_solver.
Qed.

(** Service 101 beats service 100 in the demo feed: both last run on
    2024-01-31, and the removed day leaves 100 with fewer days from the
    pivot on. *)
Lemma chain_picks_winner_witness :
  ["100"; "101"] ≠ []
  ∧ build_metrics ["100"; "101"] demo_dict demo_exceptions demo_pivot = Ok demo_metrics
  ∧ overlap demo_metrics "100" "101" ≤ 45
  ∧ _choose_service_winner_factual ["100"; "101"] demo_dict demo_exceptions demo_pivot 45
    = Ok (Some "101",
          ["Tied on last_active_date: 2024-01-31";
           "Most active days after pivot (13 days)"], false)
  ∧ chain_winner demo_metrics ["100"; "101"] "101".
Proof.
  assert (["100"; "101"] ≠ @nil string) as Hne by (intros Hnil; discriminate Hnil).
  assert (build_metrics ["100"; "101"] demo_dict demo_exceptions demo_pivot
          = Ok demo_metrics) as Hm by vm_refl.
  assert (overlap demo_metrics "100" "101" ≤ 45) as Hle by by_compute.
  assert (_choose_service_winner_factual ["100"; "101"] demo_dict demo_exceptions
            demo_pivot 45
          = Ok (Some "101",
                ["Tied on last_active_date: 2024-01-31";
                 "Most active days after pivot (13 days)"], false)) as Hres
    by vm_refl.
  split; [exact Hne|]. split; [exact Hm|]. split; [exact Hle|]. split; [exact Hres|].
  assert (∀ M, max_pairwise (overlap demo_metrics) ["100"; "101"] M → M ≤ 45) as Hov.
  { intros M HM. rewrite (max_pairwise_pair_inv _ _ _ _ HM). exact Hle. }
  pose proof (chain_picks_winner ["100"; "101"] demo_dict demo_exceptions demo_pivot 45
                demo_metrics Hne (λ _, Hm) Hov) as Hthm.
  clear Hm Hle Hov.
  destruct Hthm as (winner & reasons & Hrun & Hchain & _).
  rewrite Hres in Hrun. clear Hres. injection Hrun as <- _. exact Hchain.
Defined.



(** C10. When several calendar rows carry the same service id, the
    dictionary the orchestrator hands to the resolver maps the id to the
    last of them, and the metrics of the service (active dates, start date,
    last active date, active days after the pivot) are those computed from
    that row alone. *)
Theorem metrics_from_last_row (pre post : list Row) (r : Row) (sid : string)
    (calendar_dates : list Row) (pivot_date : Z) :
  Forall (λ c : Row, is_Some (c !! "service_id")) pre →
  r !! "service_id" = Some sid →
  Forall (λ c : Row, is_Some (c !! "service_id") ∧ c !! "service_id" ≠ Some sid) post →
  ∃ calendars_dict,
    build_calendars_dict (pre ++ r :: post) = Ok calendars_dict
    ∧ calendars_dict !! sid = Some r
    ∧ service_metrics sid calendars_dict calendar_dates pivot_date
      = service_metrics sid {[sid := r]} calendar_dates pivot_date
    ∧ ∀ services m,
        sid ∈ services →
        build_metrics services calendars_dict calendar_dates pivot_date = Ok m →
        ∃ mt, m !! sid = Some mt
              ∧ _active_dates_for_service sid r
                  (filter (λ exc : Row, exc !! "service_id" = Some sid) calendar_dates)
                = Ok (active_dates mt)
              ∧ start_date mt = _parse_ymd (dict_get r "start_date" "")
              ∧ last_active_date mt = max_opt (elements (active_dates mt))
              ∧ active_after_pivot mt
                = Z.of_nat (length (filter (λ d, pivot_date ≤ d)
                                      (elements (active_dates mt)))).
Proof.
  intros Hpre Hr Hpost.
  destruct (calendars_dict_last pre post r sid Hpre Hr Hpost) as (cd & Hcd & Hsid).
  exists cd. split; [done|]. split; [done|].
  split; [by apply service_metrics_row|].
  intros services m Hin Hm.
  destruct (proj1 (build_metrics_lookup _ _ _ _ _ Hm) sid Hin) as (mt & Hsm & Hmt).
  exists mt. split; [done|]. unfold service_metrics in Hsm. rewrite Hsid in Hsm.
  simpl in Hsm. apply bind_Ok in Hsm as (active & Hactive & Hmk). simplify_eq. done.
Qed.

(** In the demo the superseded row of service 100 is ignored: the metrics
    are those of the current row. *)
Lemma metrics_from_last_row_witness :
  Forall (λ c : Row, is_Some (c !! "service_id")) [demo_old_row]
  ∧ demo_new_row !! "service_id" = Some "100"
  ∧ ∃ calendars_dict,
      build_calendars_dict [demo_old_row; demo_new_row] = Ok calendars_dict
      ∧ calendars_dict !! "100" = Some demo_new_row
      ∧ service_metrics "100" calendars_dict [] demo_pivot
        = service_metrics "100" {["100" := demo_new_row]} [] demo_pivot.
Proof.
  assert (Forall (λ c : Row, is_Some (c !! "service_id")) [demo_old_row]) as Hpre
    by by_compute.
  assert (demo_new_row !! "service_id" = Some "100") as Hr by vm_refl.
  split; [exact Hpre|]. split; [exact Hr|].
  destruct (metrics_from_last_row [demo_old_row] [] demo_new_row "100" [] demo_pivot
              Hpre Hr (Forall_nil_2 _))
    as (cd & Hcd & Hsid & Hsm & _).
  exists cd. split; [exact Hcd|]. split; [exact Hsid | exact Hsm].
Defined.

(** The final tiebreak at work: timetables that agree on every date are told
    apart by their ids, numerically when all ids are numbers (10 beats 7)
    and as strings otherwise (7a beats 7 and 10). *)
Lemma final_tiebreak_examples :
  _choose_service_winner_factual ["7"; "10"] demo_twin_dict [] demo_pivot 45
  = Ok (Some "10",
        ["Tied on last_active_date: 2024-01-19";
         "Tied on active days after pivot: 5";
         "Tied on start_date: 2024-01-15";
         "Tiebreaker: highest service_id (10)"], false)
  ∧ _choose_service_winner_factual ["7"; "10"; "7a"] demo_twin_dict [] demo_pivot 45
    = Ok (Some "7a",
          ["Tied on last_active_date: 2024-01-19";
           "Tied on active days after pivot: 5";
           "Tied on start_date: 2024-01-15";
           "Tiebreaker: lexicographically highest service_id (7a)"], false).
Proof. split; vm_refl. Qed.

(** ** Route-aware grouper *)

Lemma truthy_Some (o : option string) :
  truthy o = true ↔ ∃ s, o = Some s ∧ s ≠ "".
Proof.
  destruct o as [s|]; simpl.
  - rewrite negb_true_iff, String.eqb_neq. naive_solver.
  - naive_solver.
Qed.

Lemma truthy_false (o : option string) :
  truthy o = false ↔ o = None ∨ o = Some "".
Proof.
  destruct o as [s|]; simpl.
  - rewrite negb_false_iff, String.eqb_eq. naive_solver.
  - naive_solver.
Qed.

Lemma service_route_set_snoc (trips : list Row) (t : Row) (sid : string) :
  service_route_set (trips ++ [t]) sid
  = service_route_set trips sid
    ∪ (if decide (t !! "service_id" = Some sid) then {[trip_route t]} else ∅).
Proof.
  unfold service_route_set. rewrite filter_app, fmap_app, list_to_set_app_L.
  f_equal. rewrite filter_cons, filter_nil. case_decide; simpl; set_solver.
Qed.

(** [service_routes] after the loop over the trips. *)
Lemma service_routes_spec (trips : list Row) (sid : string) :
  sid ≠ "" →
  default ∅ (foldl routes_step ∅ trips !! sid) = service_route_set trips sid
  ∧ foldl routes_step ∅ trips !! sid ≠ Some ∅.
Proof.
  intros Hsid. induction trips as [|t trips [IH1 IH2]] using rev_ind.
  - simpl. rewrite lookup_empty. by split.
  - rewrite foldl_app, service_route_set_snoc. simpl. unfold routes_step at 1 3.
    destruct (truthy (t !! "service_id")) eqn:Ht.
    + apply truthy_Some in Ht as (s & Hs & Hne). rewrite Hs. simpl.
      destruct (decide (s = sid)) as [->|Hn].
      * rewrite lookup_insert_eq. simpl. rewrite decide_True by done.
        split; [|intros [= Heq]; set_solver]. rewrite IH1. fold (trip_route t). set_solver.
      * rewrite lookup_insert_ne by done. rewrite decide_False by congruence.
        split; [|done]. rewrite IH1. set_solver.
    + apply truthy_false in Ht. rewrite decide_False by (destruct Ht; congruence).
      split; [|done]. rewrite IH1. set_solver.
Qed.

Lemma routes_or_unknown_spec (trips : list Row) (sid : string) :
  sid ≠ "" →
  routes_or_unknown (foldl routes_step ∅ trips) sid = spec_routes trips sid.
Proof.
  intros Hsid. destruct (service_routes_spec trips sid Hsid) as [Hset Hne].
  unfold routes_or_unknown, spec_routes.
  destruct (foldl routes_step ∅ trips !! sid) as [S|]; simpl in Hset.
  - subst S. case_bool_decide as Hempty.
    + by rewrite decide_True.
    + by rewrite decide_False.
  - by rewrite <- Hset, decide_True.
Qed.



Lemma spec_members_snoc (rows trips : list Row) (cal : Row) (k : GroupKey) :
  spec_members (rows ++ [cal]) trips k
  = spec_members rows trips k
    ++ match cal !! "service_id" with
       | Some sid =>
           if decide (sid ≠ "" ∧ spec_group_key trips cal sid = k) then [sid] else []
       | None => []
       end.
Proof.
  unfold spec_members. rewrite omap_app. f_equal. simpl.
  destruct (cal !! "service_id") as [sid|]; [|done]. by case_decide.
Qed.

(** [groups] after the loop over the calendar rows. *)
Lemma groups_spec (calendar_rows trips : list Row) (k : GroupKey) :
  default [] (foldl (group_step (foldl routes_step ∅ trips)) ∅ calendar_rows !! k)
  = spec_members calendar_rows trips k
  ∧ foldl (group_step (foldl routes_step ∅ trips)) ∅ calendar_rows !! k ≠ Some [].
Proof.
  induction calendar_rows as [|cal rows [IH1 IH2]] using rev_ind.
  - simpl. rewrite lookup_empty. by split.
  - rewrite foldl_app, spec_members_snoc. simpl. unfold group_step at 1 3.
    destruct (truthy (cal !! "service_id")) eqn:Ht.
    + apply truthy_Some in Ht as (sid & Hs & Hne). rewrite Hs. simpl.
      rewrite routes_or_unknown_spec by done.
      fold (spec_group_key trips cal sid).
      destruct (decide (spec_group_key trips cal sid = k)) as [<-|Hk].
      * rewrite lookup_insert_eq. simpl. rewrite decide_True by done.
        split; [by rewrite IH1|]. intros [= Heq]. by destruct (default _ _).
      * rewrite lookup_insert_ne by done. rewrite decide_False by naive_solver.
        by rewrite app_nil_r.
    + apply truthy_false in Ht as [Ht|Ht]; rewrite Ht.
      * by rewrite app_nil_r.
      * rewrite decide_False by naive_solver. by rewrite app_nil_r.
Qed.

Lemma spec_members_elem (calendar_rows trips : list Row) (k : GroupKey) (sid : string) :
  sid ∈ spec_members calendar_rows trips k ↔
  sid ≠ "" ∧ ∃ cal, cal ∈ calendar_rows ∧ cal !! "service_id" = Some sid
                    ∧ k = spec_group_key trips cal sid.
Proof.
  unfold spec_members. rewrite list_elem_of_omap. split.
  - intros (cal & Hcal & H). destruct (cal !! "service_id") as [s|] eqn:Hs; [|done].
    case_decide as Hd; [|done]. simplify_eq. destruct Hd as [Hne <-].
    split; [done|]. by exists cal.
  - intros (Hne & cal & Hcal & Hs & ->). exists cal. split; [done|].
    rewrite Hs. by rewrite decide_True.
Qed.




(** ** Pruning orchestrator *)

Lemma foldlM_invariant {A B : Type} (P : B → Prop) (f : B → A → Res B)
    (l : list A) (b b' : B) :
  (∀ st x st', x ∈ l → P st → f st x = Ok st' → P st') →
  P b → foldlM f b l = Ok b' → P b'.
Proof.
  revert b. induction l as [|x l IH]; intros b Hstep Hb Hrun; simpl in Hrun.
  - by simplify_eq.
  - apply bind_Ok in Hrun as (b1 & Hx & Hrun).
    apply (IH b1); [|by eapply Hstep; [left|..]|done].
    intros st y st' Hy. apply Hstep. by right.
Qed.

Lemma sorted_groups_elem (groups : gmap GroupKey (list string)) (k : GroupKey)
    (l : list string) :
  (k, l) ∈ sorted_groups groups ↔ groups !! k = Some l.
Proof.
  unfold sorted_groups. rewrite merge_sort_Permutation. apply elem_of_map_to_list.
Qed.

(** A winner named by the resolver is one of the candidates. *)
Lemma chain_winner_in (m : gmap string Metrics) (services : list string) (w : string) :
  chain_winner m services w → w ∈ services.
Proof.
  unfold chain_winner. cbv zeta.
  assert (∀ x, x ∈ pool_last_active m services → x ∈ services) as H1
    by (intros x; apply keep_highest_incl).
  assert (∀ x, x ∈ pool_after_pivot m (pool_last_active m services) → x ∈ services) as H2.
  { intros x Hx. apply H1. by eapply keep_highest_incl. }
  assert (∀ x, x ∈ pool_start_date m (pool_after_pivot m (pool_last_active m services))
               → x ∈ services) as H3.
  { intros x Hx. apply H2. by eapply keep_highest_incl. }
  repeat case_decide.
  - intros Heq. apply H1. rewrite Heq. by left.
  - intros Heq. apply H2. rewrite Heq. by left.
  - intros Heq. apply H3. rewrite Heq. by left.
  - intros [Hin _]. by apply H3.
Qed.

Lemma resolver_winner_in (services : list string) (calendars : gmap string Row)
    (calendar_dates : list Row) (pivot_date overlap_max_days : Z)
    (w : string) (reasons : list string) (amb : bool) :
  _choose_service_winner_factual services calendars calendar_dates pivot_date
    overlap_max_days = Ok (Some w, reasons, amb) →
  w ∈ services.
Proof.
  intros Hres. destruct (decide (length services ≤ 1)%nat) as [Hone|Hmany].
  - unfold _choose_service_winner_factual in Hres.
    rewrite bool_decide_eq_true_2 in Hres by done. simplify_eq.
    destruct services as [|s services]; simplify_eq/=. by left.
  - assert (2 ≤ length services)%nat as Hlen by lia.
    destruct (resolver_chain _ _ _ _ _ _ Hlen Hres)
      as (m & Hm & [[_ Hv]|[_ Hchain]]); [discriminate|].
    destruct (chain_analysis _ _ _ _ _ Hm Hlen)
      as (winner & r1 & r2 & r3 & t & Hc & Hwin & _).
    rewrite Hc in Hchain. simplify_eq. by eapply chain_winner_in.
Qed.

(** What one iteration of the loop over the groups does to the kept and
    pruned sets. *)
Lemma process_group_sets (resolve : list string → Res Verdict) (st st' : PruneState)
    (k : GroupKey) (sids : list string) :
  process_group resolve st (k, sids) = Ok st' →
  (services_to_keep st' = list_to_set sids ∪ services_to_keep st
   ∧ services_to_prune st' = services_to_prune st)
  ∨ ((2 ≤ length sids)%nat ∧ 2 < active_day_count k.1
     ∧ ∃ w reasons amb,
         resolve sids = Ok (Some w, reasons, amb)
         ∧ services_to_keep st' = {[w]} ∪ services_to_keep st
         ∧ services_to_prune st'
           = list_to_set (filter (λ s, s ≠ w) sids) ∪ services_to_prune st).
Proof.
  destruct k as [mask routes]. unfold process_group. simpl.
  case_bool_decide as Hlen; [intros [= <-]; by left|].
  case_bool_decide as Hcount; [intros [= <-]; by left|].
  intros Hrun. apply bind_Ok in Hrun as ([[winner reasons] amb] & Hres & Hrun).
  destruct (amb || negb (truthy winner)) eqn:Hamb; [simplify_eq; by left|].
  apply orb_false_iff in Hamb as [-> Ht]. apply negb_false_iff in Ht.
  apply truthy_Some in Ht as (w & -> & Hw). simplify_eq. right.
  split; [lia|]. split; [lia|]. by exists w, reasons, false.
Qed.

Lemma process_group_records (resolve : list string → Res Verdict) (st st' : PruneState)
    (g : GroupKey * list string) :
  process_group resolve st g = Ok st' →
  ∃ extra, st_groups st' = st_groups st ++ extra.
Proof.
  destruct g as [[mask routes] sids]. unfold process_group.
  case_bool_decide; [intros [= <-]; exists []; by rewrite app_nil_r|].
  case_bool_decide; [intros [= <-]; by eexists|].
  intros Hrun. apply bind_Ok in Hrun as ([[winner reasons] amb] & Hres & Hrun).
  destruct (amb || negb (truthy winner)); simplify_eq; by eexists.
Qed.

(** A group whose mask has at most two active days is kept in full, whatever
    the resolver would say. *)
Lemma process_limited_group (resolve : list string → Res Verdict) (st : PruneState)
    (k : GroupKey) (sids : list string) :
  (1 < length sids)%nat → active_day_count k.1 ≤ 2 →
  process_group resolve st (k, sids)
  = Ok {| services_to_keep := list_to_set sids ∪ services_to_keep st;
          services_to_prune := services_to_prune st;
          st_groups := st_groups st ++ [limited_day_record k sids];
          st_overlapping := st_overlapping st + 1;
          st_ambiguous := st_ambiguous st + 1;
          st_pruned := st_pruned st;
          st_kept := st_kept st + Z.of_nat (length sids) |}.
Proof.
  intros Hlen Hcount. destruct k as [mask routes]. unfold process_group.
  rewrite bool_decide_eq_false_2 by lia. by rewrite bool_decide_eq_true_2.
Qed.

Lemma foldlM_established {A B : Type} (Q : B → Prop) (f : B → A → Res B)
    (l : list A) (x : A) (b b' : B) :
  (∀ st y st', f st y = Ok st' → Q st → Q st') →
  (∀ st st', f st x = Ok st' → Q st') →
  x ∈ l → foldlM f b l = Ok b' → Q b'.
Proof.
  intros Hkeep Hmake. revert b. induction l as [|y l IH]; intros b Hx Hrun.
  - inversion Hx.
  - simpl in Hrun. apply bind_Ok in Hrun as (b1 & Hy & Hrun).
    apply list_elem_of_In in Hx as [->|Hx].
    + apply (foldlM_invariant Q f l b1 b'); [|by eapply Hmake|done].
      intros st z st' _ HQ Hz. by eapply Hkeep.
    + apply (IH b1); [by apply list_elem_of_In|done].
Qed.

Lemma group_member_row (calendar_rows trips : list Row) (k : GroupKey)
    (l : list string) (sid : string) :
  (_build_route_grouping calendar_rows trips).1 !! k = Some l → sid ∈ l →
  sid ≠ ""
  ∧ ∃ cal, cal ∈ calendar_rows ∧ cal !! "service_id" = Some sid
           ∧ k = spec_group_key trips cal sid.
Proof.
  unfold _build_route_grouping. simpl. intros Hk Hsid. apply spec_members_elem.
  rewrite <- (proj1 (groups_spec calendar_rows trips k)). by rewrite Hk.
Qed.

Section Prune.

Variables (today : Z) (calendar_rows calendar_dates trips feed_info : list Row)
  (overlap_max_days : Z).

Lemma prune_groups_run (final : PruneState) :
  prune_groups today calendar_rows calendar_dates trips feed_info overlap_max_days
  = Ok final →
  ∃ calendars_dict,
    build_calendars_dict calendar_rows = Ok calendars_dict
    ∧ foldlM (process_group (λ service_ids,
                _choose_service_winner_factual service_ids calendars_dict
                  calendar_dates (pivot_of today feed_info) overlap_max_days))
        init_state (sorted_groups (_build_route_grouping calendar_rows trips).1)
      = Ok final.
Proof.
  unfold prune_groups. intros Hrun. apply bind_Ok in Hrun as (cd & Hcd & Hrun).
  by exists cd.
Qed.

(** Every kept service is a member of some group. *)
Lemma kept_from_groups (final : PruneState) (s : string) :
  prune_groups today calendar_rows calendar_dates trips feed_info overlap_max_days
  = Ok final →
  s ∈ services_to_keep final →
  ∃ k l, (_build_route_grouping calendar_rows trips).1 !! k = Some l ∧ s ∈ l.
Proof.
  intros Hrun. destruct (prune_groups_run final Hrun) as (cd & _ & Hloop). revert s.
  refine (foldlM_invariant
            (λ st, ∀ s, s ∈ services_to_keep st →
                        ∃ k l, (_build_route_grouping calendar_rows trips).1 !! k = Some l
                               ∧ s ∈ l) _ _ _ _ _ _ Hloop).
  - intros st [k sids] st' Hin Hinv Hstep s Hs.
    apply sorted_groups_elem in Hin.
    destruct (process_group_sets _ _ _ _ _ Hstep)
      as [[Hkeep _]|(_ & _ & w & rs & amb & Hres & Hkeep & _)];
      rewrite Hkeep in Hs; apply elem_of_union in Hs as [Hs|Hs]; try by apply Hinv.
    + apply elem_of_list_to_set in Hs. by exists k, sids.
    + apply elem_of_singleton in Hs as ->. exists k, sids. split; [done|].
      by eapply resolver_winner_in.
  - intros s Hs. simpl in Hs. set_solver.
Qed.

(** Every pruned service was a loser in a group whose mask has more than
    two active days. *)
Lemma pruned_from_resolved_groups (final : PruneState) (s : string) :
  prune_groups today calendar_rows calendar_dates trips feed_info overlap_max_days
  = Ok final →
  s ∈ services_to_prune final →
  ∃ k l, (_build_route_grouping calendar_rows trips).1 !! k = Some l ∧ s ∈ l
         ∧ 2 < active_day_count k.1.
Proof.
  intros Hrun. destruct (prune_groups_run final Hrun) as (cd & _ & Hloop). revert s.
  refine (foldlM_invariant
            (λ st, ∀ s, s ∈ services_to_prune st →
                        ∃ k l, (_build_route_grouping calendar_rows trips).1 !! k = Some l
                               ∧ s ∈ l ∧ 2 < active_day_count k.1) _ _ _ _ _ _ Hloop).
  - intros st [k sids] st' Hin Hinv Hstep s Hs.
    apply sorted_groups_elem in Hin.
    destruct (process_group_sets _ _ _ _ _ Hstep)
      as [[_ Hprune]|(_ & Hcount & w & rs & amb & Hres & _ & Hprune)];
      rewrite Hprune in Hs; [by apply Hinv|].
    apply elem_of_union in Hs as [Hs|Hs]; [|by apply Hinv].
    apply elem_of_list_to_set, list_elem_of_filter in Hs as [_ Hs].
    by exists k, sids.
  - intros s Hs. simpl in Hs. set_solver.
Qed.

Lemma limited_group_kept (final : PruneState) (k : GroupKey) (sids : list string) :
  prune_groups today calendar_rows calendar_dates trips feed_info overlap_max_days
  = Ok final →
  (_build_route_grouping calendar_rows trips).1 !! k = Some sids →
  (1 < length sids)%nat → active_day_count k.1 ≤ 2 →
  (∀ s, s ∈ sids → s ∈ services_to_keep final)
  ∧ limited_day_record k sids ∈ st_groups final.
Proof.
  intros Hrun Hk Hlen Hcount.
  destruct (prune_groups_run final Hrun) as (cd & _ & Hloop).
  refine (foldlM_established
            (λ st, (∀ s, s ∈ sids → s ∈ services_to_keep st)
                   ∧ limited_day_record k sids ∈ st_groups st)
            _ _ (k, sids) _ _ _ _ _ Hloop).
  - intros st [k' sids'] st' Hstep [Hkept Hrec]. split.
    + intros s Hs.
      destruct (process_group_sets _ _ _ _ _ Hstep)
        as [[Hkeep _]|(_ & _ & w & rs & amb & _ & Hkeep & _)];
        rewrite Hkeep; apply elem_of_union; right; by apply Hkept.
    + destruct (process_group_records _ _ _ _ Hstep) as [extra ->].
      apply elem_of_app. by left.
  - intros st st' Hstep. rewrite process_limited_group in Hstep by done.
    simplify_eq. simpl. split.
    + intros s Hs. apply elem_of_union. left. by apply elem_of_list_to_set.
    + apply elem_of_app. right. by left.
  - by apply sorted_groups_elem.
Qed.

End Prune.

(** ** The cascade of filters *)

Lemma in_set_spec (o : option string) (s : gset string) :
  in_set o s ↔ ∃ x, o = Some x ∧ x ∈ s.
Proof.
  destruct o as [x|]; simpl.
  - rewrite bool_decide_spec. split; [by exists x | by intros (y & [= <-] & Hy)].
  - split; [done | by intros (y & [=] & _)].
Qed.

Lemma trips_loop (keep : gset string) (trips : list Row) (acc : list Row * gset string) :
  foldl (trips_step keep) acc trips
  = (acc.1 ++ filter (λ t : Row, in_set (t !! "service_id") keep) trips,
     list_to_set (trip_id_of <$> filter (λ t : Row, in_set (t !! "service_id") keep) trips)
     ∪ acc.2).
Proof.
  revert acc. induction trips as [|t trips IH]; intros [rows ids]; simpl.
  - rewrite app_nil_r. f_equal. set_solver.
  - rewrite IH, filter_cons. unfold trips_step.
    destruct (decide (in_set (t !! "service_id") keep)) as [Hin|Hin].
    + apply Is_true_true in Hin. rewrite Hin. simpl. rewrite <- app_assoc. simpl.
      f_equal. unfold trip_id_of. set_solver.
    + apply Is_true_false in Hin. rewrite Hin. done.
Qed.

Lemma kept_rows_filter (keep : gset string) (rows kept : list Row) :
  filterM (kept_by_service_id keep) rows = Ok kept →
  kept = filter (λ c : Row, in_set (c !! "service_id") keep) rows.
Proof.
  intros Hrun. apply filterM_Ok in Hrun as (q & Hq & ->).
  apply filter_ext_in. intros c Hc. specialize (Hq c Hc).
  unfold kept_by_service_id, dict_item in Hq.
  destruct (c !! "service_id") as [sid|]; simpl in Hq; [|discriminate Hq].
  injection Hq as <-. done.
Qed.

Lemma stop_times_filter (trips_f stop_times : list Row) :
  filter (λ s : Row, in_set (s !! "trip_id") (list_to_set (trip_id_of <$> trips_f) ∪ ∅))
    stop_times
  = filter (references_trip trips_f) stop_times.
Proof.
  apply filter_ext_in. intros s _. rewrite in_set_spec. unfold references_trip.
  rewrite Exists_exists. split.
  - intros (x & Hx & Hin). rewrite right_id_L in Hin by apply _.
    apply elem_of_list_to_set, list_elem_of_fmap in Hin as (t & -> & Ht).
    by exists t.
  - intros (t & Ht & Hs). exists (trip_id_of t). split; [done|].
    rewrite right_id_L by apply _.
    apply elem_of_list_to_set, list_elem_of_fmap. by exists t.
Qed.

(** C6. When pruning returns, the surviving trips are the input trips whose
    service id is in the kept-service set, in input order, and the surviving
    stop times are the input stop times whose trip id is the trip id of a
    surviving trip (a trip without trip id is recorded under the empty id,
    as the code has it). The surviving calendar rows and exceptions are the
    rows whose service id is kept. Hence every surviving stop time carries
    the trip id of a surviving trip, and every surviving trip carries the
    service id of a surviving calendar row. *)
Theorem cascade_integrity (today : Z)
    (agencies calendar_rows calendar_dates trips stop_times feed_info : list Row)
    (overlap_max_days : Z)
    (cal_f cd_f trips_f stop_times_f : list Row) (diagnostics : Diagnostics) :
  _prune_overlaps_factual today agencies calendar_rows calendar_dates trips stop_times
    feed_info overlap_max_days
  = Ok (cal_f, cd_f, trips_f, stop_times_f, diagnostics) →
  ∃ final,
    prune_groups today calendar_rows calendar_dates trips feed_info overlap_max_days
    = Ok final
    ∧ trips_f = filter (λ t : Row, in_set (t !! "service_id") (services_to_keep final)) trips
    ∧ stop_times_f = filter (references_trip trips_f) stop_times
    ∧ cal_f = filter (λ c : Row, in_set (c !! "service_id") (services_to_keep final))
                calendar_rows
    ∧ cd_f = filter (λ d : Row, in_set (d !! "service_id") (services_to_keep final))
               calendar_dates
    ∧ (∀ s, s ∈ stop_times_f →
            s ∈ stop_times
            ∧ ∃ t, t ∈ trips_f ∧ s !! "trip_id" = Some (trip_id_of t))
    ∧ (∀ t, t ∈ trips_f →
            t ∈ trips
            ∧ ∃ sid c, t !! "service_id" = Some sid ∧ c ∈ cal_f
                       ∧ c !! "service_id" = Some sid).
Proof.
  unfold _prune_overlaps_factual. intros Hrun.
  apply bind_Ok in Hrun as (final & Hfinal & Hrun).
  apply bind_Ok in Hrun as (cal & Hcal & Hrun).
  apply bind_Ok in Hrun as (cd & Hcd & Hrun).
  rewrite trips_loop in Hrun. simpl in Hrun.
  injection Hrun as <- <- <- <- _.
  apply kept_rows_filter in Hcal as ->. apply kept_rows_filter in Hcd as ->.
  exists final. split; [done|]. split; [done|].
  split; [apply stop_times_filter|]. split; [done|]. split; [done|]. split.
  - intros s Hs. rewrite stop_times_filter in Hs.
    apply list_elem_of_filter in Hs as [Href Hs]. split; [done|].
    by apply Exists_exists in Href.
  - intros t Ht. apply list_elem_of_filter in Ht as [Hkept Ht]. split; [done|].
    apply in_set_spec in Hkept as (sid & Hsid & Hkept).
    destruct (kept_from_groups _ _ _ _ _ _ _ _ Hfinal Hkept) as (k & l & Hk & Hl).
    destruct (group_member_row _ _ _ _ _ Hk Hl) as (_ & c & Hc & Hcs & _).
    exists sid, c. split; [done|]. split; [|done].
    apply list_elem_of_filter. split; [|done].
    apply in_set_spec. by exists sid.
Qed.

(** On the demo feed service 101 supersedes service 100: trip t2 and its stop
    time survive, and the stop time of the unknown trip t9 is dropped. *)
Lemma cascade_integrity_witness :
  _prune_overlaps_factual demo_pivot [] demo_calendars demo_exceptions demo_route_trips
    demo_stop_times [] 45
  = Ok ([mk_calendar "101" "20240115" "20240131" working_days], [],
        [mk_trip "t2" "101" "R1"],
        [mk_row [("trip_id", "t2"); ("stop_id", "S1")]], demo_diagnostics)
  ∧ ∀ s, s ∈ [mk_row [("trip_id", "t2"); ("stop_id", "S1")]] →
         ∃ t, t ∈ [mk_trip "t2" "101" "R1"] ∧ s !! "trip_id" = Some (trip_id_of t).
Proof.
  assert (_prune_overlaps_factual demo_pivot [] demo_calendars demo_exceptions
            demo_route_trips demo_stop_times [] 45
          = Ok ([mk_calendar "101" "20240115" "20240131" working_days], [],
                [mk_trip "t2" "101" "R1"],
                [mk_row [("trip_id", "t2"); ("stop_id", "S1")]], demo_diagnostics))
    as Hrun by vm_refl.
  split; [exact Hrun|].
  pose proof (cascade_integrity _ _ _ _ _ _ _ _ _ _ _ _ _ Hrun) as Hthm. clear Hrun.
  destruct Hthm as (final & _ & _ & _ & _ & _ & Hst & _).
  intros s Hs. exact (proj2 (Hst s Hs)).
Defined.

(** ** Groups with at most two active days *)

(** C5. A group of more than one service whose weekday mask has at most two
    active days is processed in the same way whatever the resolver is, so
    the resolver is not consulted: all its services enter the kept set, the
    pruned set is left as it was, and the group is recorded as ambiguous
    with no winner. When the run over all groups returns, the services of
    such a group are all kept and its record is in the diagnostics. A
    service of such a group could be in the pruned set only as the loser of
    another group, whose mask has more than two active days; with service
    ids that are unique among the calendar rows, as the data model has them,
    a service is in one group only and so is never in the pruned set (it is
    enough that the calendar rows of the service carry the same weekday
    mask). *)
Theorem limited_day_groups_kept (today : Z)
    (calendar_rows calendar_dates trips feed_info : list Row) (overlap_max_days : Z)
    (k : GroupKey) (sids : list string) :
  (_build_route_grouping calendar_rows trips).1 !! k = Some sids →
  (1 < length sids)%nat →
  active_day_count k.1 ≤ 2 →
  (∀ resolve st,
     process_group resolve st (k, sids)
     = Ok {| services_to_keep := list_to_set sids ∪ services_to_keep st;
             services_to_prune := services_to_prune st;
             st_groups := st_groups st ++ [limited_day_record k sids];
             st_overlapping := st_overlapping st + 1;
             st_ambiguous := st_ambiguous st + 1;
             st_pruned := st_pruned st;
             st_kept := st_kept st + Z.of_nat (length sids) |})
  ∧ g_winner (limited_day_record k sids) = None
  ∧ g_is_ambiguous (limited_day_record k sids) = true
  ∧ ∀ final,
      prune_groups today calendar_rows calendar_dates trips feed_info overlap_max_days
      = Ok final →
      (∀ s, s ∈ sids → s ∈ services_to_keep final)
      ∧ limited_day_record k sids ∈ st_groups final
      ∧ (∀ s, s ∈ sids → s ∈ services_to_prune final →
              ∃ k' sids', k' ≠ k
                          ∧ (_build_route_grouping calendar_rows trips).1 !! k' = Some sids'
                          ∧ s ∈ sids' ∧ 2 < active_day_count k'.1)
      ∧ (∀ s, s ∈ sids →
              (∀ c c', c ∈ calendar_rows → c' ∈ calendar_rows →
                       c !! "service_id" = Some s → c' !! "service_id" = Some s →
                       _weekday_mask c = _weekday_mask c') →
              s ∉ services_to_prune final).
Proof.
  intros Hk Hlen Hcount. split; [|split; [done|split; [done|]]].
  { intros resolve st. by apply process_limited_group. }
  intros final Hfinal.
  destruct (limited_group_kept _ _ _ _ _ _ _ _ _ Hfinal Hk Hlen Hcount) as [Hkept Hrec].
  split; [done|]. split; [done|].
  assert (∀ s, s ∈ sids → s ∈ services_to_prune final →
               ∃ k' sids', k' ≠ k
                           ∧ (_build_route_grouping calendar_rows trips).1 !! k' = Some sids'
                           ∧ s ∈ sids' ∧ 2 < active_day_count k'.1) as Hother.
  { intros s Hs Hpruned.
    destruct (pruned_from_resolved_groups _ _ _ _ _ _ _ _ Hfinal Hpruned)
      as (k' & sids' & Hk' & Hs' & Hcount').
    exists k', sids'. split; [|done]. intros ->. lia. }
  split; [done|].
  intros s Hs Hmask Hpruned.
  destruct (Hother s Hs Hpruned) as (k' & sids' & Hne & Hk' & Hs' & _).
  destruct (group_member_row _ _ _ _ _ Hk Hs) as (_ & c & Hc & Hcs & Hkc).
  destruct (group_member_row _ _ _ _ _ Hk' Hs') as (_ & c' & Hc' & Hcs' & Hkc').
  apply Hne. rewrite Hkc, Hkc'. unfold spec_group_key. f_equal. by apply Hmask.
Qed.

(** Two weekend timetables are both kept, with any resolver. *)
Lemma limited_day_groups_kept_witness :
  (_build_route_grouping demo_weekend_rows []).1 !! weekend_key = Some ["W1"; "W2"]
  ∧ (1 < length ["W1"; "W2"])%nat
  ∧ active_day_count weekend_key.1 ≤ 2
  ∧ prune_groups demo_pivot demo_weekend_rows [] [] [] 45 = Ok demo_weekend_state
  ∧ "W1" ∈ services_to_keep demo_weekend_state
  ∧ "W2" ∈ services_to_keep demo_weekend_state
  ∧ "W1" ∉ services_to_prune demo_weekend_state.
Proof.
  assert ((_build_route_grouping demo_weekend_rows []).1 !! weekend_key
          = Some ["W1"; "W2"]) as Hk by vm_refl.
  assert (1 < length ["W1"; "W2"])%nat as Hlen by (simpl; lia).
  assert (active_day_count weekend_key.1 ≤ 2) as Hcount by by_compute.
  assert (prune_groups demo_pivot demo_weekend_rows [] [] [] 45 = Ok demo_weekend_state)
    as Hfinal by vm_refl.
  split; [exact Hk|]. split; [exact Hlen|]. split; [exact Hcount|].
  split; [exact Hfinal|].
  pose proof (limited_day_groups_kept demo_pivot demo_weekend_rows [] [] [] 45
                weekend_key ["W1"; "W2"] Hk Hlen Hcount) as Hthm.
  clear Hk Hlen Hcount.
  destruct Hthm as (_ & _ & _ & Hthm).
  destruct (Hthm demo_weekend_state Hfinal) as (Hkept & _ & _ & Hnot). clear Hthm Hfinal.
  split; [apply Hkept; left|]. split; [apply Hkept; right; left|].
  apply Hnot; [left|].
  intros c c' Hc Hc' Hs Hs'.
  apply elem_of_cons in Hc as [->|Hc].
  - apply elem_of_cons in Hc' as [->|Hc']; [reflexivity|].
    apply elem_of_cons in Hc' as [->|Hc']; [|inversion Hc'].
    vm_compute in Hs'. discriminate Hs'.
  - apply elem_of_cons in Hc as [->|Hc]; [|inversion Hc].
    vm_compute in Hs. discriminate Hs.
Defined.


(** * Further properties *)

(** ** The loop over the groups *)

Lemma process_group_outcome (resolve : list string → Res Verdict) (st st' : PruneState)
    (k : GroupKey) (sids : list string) :
  process_group resolve st (k, sids) = Ok st' →
  (group_outcome resolve (k, sids) = Ok None
   ∧ services_to_keep st' = list_to_set sids ∪ services_to_keep st
   ∧ services_to_prune st' = services_to_prune st)
  ∨ (∃ w, group_outcome resolve (k, sids) = Ok (Some w)
          ∧ services_to_keep st' = {[w]} ∪ services_to_keep st
          ∧ services_to_prune st'
            = list_to_set (filter (λ s, s ≠ w) sids) ∪ services_to_prune st).
Proof.
  destruct k as [mask routes]. unfold process_group, group_outcome. simpl.
  case_bool_decide as Hlen; [intros [= <-]; by left|].
  case_bool_decide as Hcount; [intros [= <-]; by left|].
  intros Hrun. apply bind_Ok in Hrun as ([[winner reasons] amb] & Hres & Hrun).
  rewrite Hres. simpl.
  destruct (amb || negb (truthy winner)) eqn:Hamb; [simplify_eq; by left|].
  apply orb_false_iff in Hamb as [-> Ht]. apply negb_false_iff in Ht.
  apply truthy_Some in Ht as (w & -> & Hw). simplify_eq. right. by exists w.
Qed.

Lemma groups_nonempty (calendar_rows trips : list Row) (k : GroupKey) (l : list string) :
  (_build_route_grouping calendar_rows trips).1 !! k = Some l → l ≠ [].
Proof.
  unfold _build_route_grouping. simpl. intros Hk ->.
  by apply (proj2 (groups_spec calendar_rows trips k)).
Qed.

Lemma row_in_group (calendar_rows trips : list Row) (cal : Row) (sid : string) :
  cal ∈ calendar_rows → cal !! "service_id" = Some sid → sid ≠ "" →
  ∃ l, (_build_route_grouping calendar_rows trips).1 !! spec_group_key trips cal sid = Some l
       ∧ sid ∈ l.
Proof.
  intros Hcal Hsid Hne. unfold _build_route_grouping. simpl.
  assert (sid ∈ spec_members calendar_rows trips (spec_group_key trips cal sid)) as Hin.
  { apply spec_members_elem. split; [done|]. by exists cal. }
  rewrite <- (proj1 (groups_spec calendar_rows trips _)) in Hin.
  destruct (foldl (group_step (foldl routes_step ∅ trips)) ∅ calendar_rows
              !! spec_group_key trips cal sid) as [l|]; simpl in Hin.
  - by exists l.
  - inversion Hin.
Qed.

Section MorePrune.

Variables (today : Z) (calendar_rows calendar_dates trips feed_info : list Row)
  (overlap_max_days : Z).

Local Abbreviation groups := (_build_route_grouping calendar_rows trips).1.

(** X13. Pruning never empties a group: when the loop over the groups
    returns, every group has a member in the kept set. *)
Theorem every_group_keeps_a_service (final : PruneState) (k : GroupKey) (sids : list string) :
  prune_groups today calendar_rows calendar_dates trips feed_info overlap_max_days
  = Ok final →
  groups !! k = Some sids →
  ∃ s, s ∈ sids ∧ s ∈ services_to_keep final.
Proof.
  intros Hrun Hk. destruct (prune_groups_run _ _ _ _ _ _ final Hrun) as (cd & _ & Hloop).
  refine (foldlM_established
            (λ st, ∃ s, s ∈ sids ∧ s ∈ services_to_keep st)
            _ _ (k, sids) _ _ _ _ _ Hloop).
  - intros st [k' sids'] st' Hstep (s & Hs & Hkept). exists s. split; [done|].
    destruct (process_group_sets _ _ _ _ _ Hstep)
      as [[Hkeep _]|(_ & _ & w & rs & amb & _ & Hkeep & _)];
      rewrite Hkeep; apply elem_of_union; by right.
  - intros st st' Hstep.
    destruct (process_group_sets _ _ _ _ _ Hstep)
      as [[Hkeep _]|(_ & _ & w & rs & amb & Hres & Hkeep & _)].
    + destruct sids as [|s sids]; [by apply groups_nonempty in Hk|].
      exists s. split; [by left|]. rewrite Hkeep. apply elem_of_union. left.
      apply elem_of_list_to_set. by left.
    + exists w. split; [by eapply resolver_winner_in|].
      rewrite Hkeep. apply elem_of_union. left. by apply elem_of_singleton.
  - by apply sorted_groups_elem.
Qed.


Lemma group_members_settled (final : PruneState) (k : GroupKey) (sids : list string) :
  prune_groups today calendar_rows calendar_dates trips feed_info overlap_max_days
  = Ok final →
  groups !! k = Some sids →
  ∀ s, s ∈ sids → s ∈ services_to_keep final ∨ s ∈ services_to_prune final.
Proof.
  intros Hrun Hk. destruct (prune_groups_run _ _ _ _ _ _ final Hrun) as (cd & _ & Hloop).
  refine (foldlM_established
            (λ st, ∀ s, s ∈ sids → s ∈ services_to_keep st ∨ s ∈ services_to_prune st)
            _ _ (k, sids) _ _ _ _ _ Hloop).
  - intros st [k' sids'] st' Hstep Hinv s Hs.
    destruct (process_group_sets _ _ _ _ _ Hstep)
      as [[Hkeep Hprune]|(_ & _ & w & rs & amb & _ & Hkeep & Hprune)];
      rewrite Hkeep, Hprune; destruct (Hinv s Hs); set_solver.
  - intros st st' Hstep s Hs.
    destruct (process_group_sets _ _ _ _ _ Hstep)
      as [[Hkeep Hprune]|(_ & _ & w & rs & amb & _ & Hkeep & Hprune)];
      rewrite Hkeep, Hprune.
    + left. apply elem_of_union. left. by apply elem_of_list_to_set.
    + destruct (decide (s = w)) as [->|Hne]; [left; set_solver|].
      right. apply elem_of_union. left. apply elem_of_list_to_set.
      by apply list_elem_of_filter.
  - by apply sorted_groups_elem.
Qed.

(** X14. When the loop over the groups returns, a service id is kept or
    pruned iff it is the non-empty [service_id] of some calendar row. *)
Theorem kept_or_pruned_iff_calendar_service (final : PruneState) (s : string) :
  prune_groups today calendar_rows calendar_dates trips feed_info overlap_max_days
  = Ok final →
  s ∈ services_to_keep final ∪ services_to_prune final ↔
  s ≠ "" ∧ ∃ cal, cal ∈ calendar_rows ∧ cal !! "service_id" = Some s.
Proof.
  intros Hrun. rewrite elem_of_union. split.
  - intros [Hs|Hs].
    + destruct (kept_from_groups _ _ _ _ _ _ _ _ Hrun Hs) as (k & l & Hk & Hl).
      destruct (group_member_row _ _ _ _ _ Hk Hl) as (Hne & cal & Hcal & Hsid & _).
      split; [done|]. by exists cal.
    + destruct (pruned_from_resolved_groups _ _ _ _ _ _ _ _ Hrun Hs)
        as (k & l & Hk & Hl & _).
      destruct (group_member_row _ _ _ _ _ Hk Hl) as (Hne & cal & Hcal & Hsid & _).
      split; [done|]. by exists cal.
  - intros (Hne & cal & Hcal & Hsid).
    destruct (row_in_group calendar_rows trips cal s Hcal Hsid Hne) as (l & Hk & Hl).
    by eapply group_members_settled.
Qed.


End MorePrune.

Lemma every_group_keeps_a_service_witness :
  prune_groups week_start week_rows [] week_trips [] 45 = Ok week_state
  ∧ (_build_route_grouping week_rows week_trips).1 !! week_key = Some ["7"; "8"]
  ∧ ∃ s, s ∈ ["7"; "8"] ∧ s ∈ services_to_keep week_state.
Proof.
  assert (prune_groups week_start week_rows [] week_trips [] 45 = Ok week_state)
    as Hrun by reflexivity.
  assert ((_build_route_grouping week_rows week_trips).1 !! week_key = Some ["7"; "8"])
    as Hk by reflexivity.
  split; [exact Hrun|]. split; [exact Hk|].
  exact (every_group_keeps_a_service week_start week_rows [] week_trips [] 45
           week_state week_key ["7"; "8"] Hrun Hk).
Defined.

Lemma kept_or_pruned_iff_calendar_service_witness :
  prune_groups week_start week_rows [] week_trips [] 45 = Ok week_state
  ∧ "7" ∈ services_to_keep week_state ∪ services_to_prune week_state.
Proof.
  assert (prune_groups week_start week_rows [] week_trips [] 45 = Ok week_state)
    as Hrun by reflexivity.
  split; [exact Hrun|].
  refine (proj2 (kept_or_pruned_iff_calendar_service week_start week_rows [] week_trips
                   [] 45 week_state "7" Hrun) _).
  clear Hrun. split; [intros Heq; discriminate Heq|].
  exists (mk_calendar "7" "20240101" "20240107" ["monday"; "tuesday"; "wednesday"]).
  split; [left | reflexivity].
Defined.

(** ** Missing service ids *)

Lemma calendars_dict_raises (rows : list Row) (acc : gmap string Row) :
  (∃ c, c ∈ rows ∧ c !! "service_id" = None) →
  foldlM calendars_step acc rows = Raise (KeyError "service_id").
Proof.
  revert acc. induction rows as [|c rows IH]; intros acc (c' & Hin & Hnone).
  - inversion Hin.
  - simpl. destruct (c !! "service_id") as [sid|] eqn:Hsid.
    + rewrite (calendars_step_Ok _ _ _ Hsid). simpl. apply IH. exists c'. split; [|done].
      apply elem_of_cons in Hin as [->|Hin]; [congruence|done].
    + assert (calendars_step acc c = Raise (KeyError "service_id")) as ->; [|done].
      unfold calendars_step, dict_item. by rewrite Hsid.
Qed.

Lemma kept_rows_raise (keep : gset string) (rows : list Row) :
  (∃ c, c ∈ rows ∧ c !! "service_id" = None) →
  filterM (kept_by_service_id keep) rows = Raise (KeyError "service_id").
Proof.
  induction rows as [|c rows IH]; intros (c' & Hin & Hnone).
  - inversion Hin.
  - simpl. destruct (c !! "service_id") as [sid|] eqn:Hsid.
    + rewrite IH; [|exists c'; split; [|done]].
      * unfold kept_by_service_id, dict_item. by rewrite Hsid.
      * apply elem_of_cons in Hin as [->|Hin]; [congruence|done].
    + assert (kept_by_service_id keep c = Raise (KeyError "service_id")) as ->; [|done].
      unfold kept_by_service_id, dict_item. by rewrite Hsid.
Qed.

Lemma kept_rows_Ok (keep : gset string) (rows : list Row) :
  Forall (λ c : Row, is_Some (c !! "service_id")) rows →
  filterM (kept_by_service_id keep) rows
  = Ok (filter (λ c : Row, in_set (c !! "service_id") keep) rows).
Proof.
  intros Hall. apply (filterM_pure _ (λ c : Row, in_set (c !! "service_id") keep)).
  intros c Hc. rewrite Forall_forall in Hall. destruct (Hall c Hc) as [sid Hsid].
  unfold kept_by_service_id, dict_item. by rewrite Hsid.
Qed.

(** X17. The orchestrator raises [KeyError] for [service_id] when a calendar
    row lacks the key, although the grouper skips such rows; it raises the
    same error when the loop over the groups has returned and an exception
    row lacks the key; and it returns when the loop has returned and every
    exception row has the key. *)
Theorem pruning_requires_service_ids (today : Z)
    (agencies calendar_rows calendar_dates trips stop_times feed_info : list Row)
    (overlap_max_days : Z) :
  ((∃ c, c ∈ calendar_rows ∧ c !! "service_id" = None) →
   _prune_overlaps_factual today agencies calendar_rows calendar_dates trips stop_times
     feed_info overlap_max_days = Raise (KeyError "service_id"))
  ∧ (∀ final,
       prune_groups today calendar_rows calendar_dates trips feed_info overlap_max_days
       = Ok final →
       (∃ d, d ∈ calendar_dates ∧ d !! "service_id" = None) →
       _prune_overlaps_factual today agencies calendar_rows calendar_dates trips stop_times
         feed_info overlap_max_days = Raise (KeyError "service_id"))
  ∧ (∀ final,
       prune_groups today calendar_rows calendar_dates trips feed_info overlap_max_days
       = Ok final →
       Forall (λ d : Row, is_Some (d !! "service_id")) calendar_dates →
       ∃ result,
         _prune_overlaps_factual today agencies calendar_rows calendar_dates trips
           stop_times feed_info overlap_max_days = Ok result).
Proof.
  split_and!.
  - intros Hmiss. unfold _prune_overlaps_factual, prune_groups, build_calendars_dict.
    by rewrite (calendars_dict_raises _ _ Hmiss).
  - intros final Hfinal Hmiss. unfold _prune_overlaps_factual. rewrite Hfinal. simpl.
    assert (Forall (λ c : Row, is_Some (c !! "service_id")) calendar_rows) as Hall.
    { apply Forall_forall. intros c Hc.
      destruct (c !! "service_id") eqn:Hsid; [done|].
      unfold prune_groups, build_calendars_dict in Hfinal.
      rewrite (calendars_dict_raises calendar_rows ∅) in Hfinal; [done|by exists c]. }
    rewrite (kept_rows_Ok _ _ Hall). simpl. by rewrite (kept_rows_raise _ _ Hmiss).
  - intros final Hfinal Hcd. unfold _prune_overlaps_factual. rewrite Hfinal. simpl.
    assert (Forall (λ c : Row, is_Some (c !! "service_id")) calendar_rows) as Hall.
    { apply Forall_forall. intros c Hc.
      destruct (c !! "service_id") eqn:Hsid; [done|].
      unfold prune_groups, build_calendars_dict in Hfinal.
      rewrite (calendars_dict_raises calendar_rows ∅) in Hfinal; [done|by exists c]. }
    rewrite (kept_rows_Ok _ _ Hall), (kept_rows_Ok _ _ Hcd). simpl.
    destruct (foldl _ _ trips) as [trips_f ids]. by eexists.
Qed.

Lemma pruning_requires_service_ids_witness :
  anonymous_row !! "service_id" = None
  ∧ _prune_overlaps_factual week_start [] (week_rows ++ [anonymous_row]) [] week_trips
      week_stop_times [] 45 = Raise (KeyError "service_id").
Proof.
  assert (anonymous_row !! "service_id" = None) as Hnone by reflexivity.
  split; [exact Hnone|].
  refine (proj1 (pruning_requires_service_ids week_start [] (week_rows ++ [anonymous_row])
                   [] week_trips week_stop_times [] 45) _).
  exists anonymous_row. split; [|exact Hnone].
  apply elem_of_app. right. left.
Defined.

(** ** Pruned services leave the feed *)

Section Outcomes.

Variables (today : Z) (calendar_rows calendar_dates trips feed_info : list Row)
  (overlap_max_days : Z) (calendars_dict : gmap string Row).

Local Abbreviation groups := (_build_route_grouping calendar_rows trips).1.
Local Abbreviation resolve :=
  (λ service_ids : list string,
     _choose_service_winner_factual service_ids calendars_dict calendar_dates
       (pivot_of today feed_info) overlap_max_days).

Lemma kept_outcome (final : PruneState) (s : string) :
  foldlM (process_group resolve) init_state (sorted_groups groups) = Ok final →
  s ∈ services_to_keep final →
  ∃ k l, groups !! k = Some l ∧ s ∈ l
         ∧ (group_outcome resolve (k, l) = Ok None
            ∨ group_outcome resolve (k, l) = Ok (Some s)).
Proof.
  intros Hloop. revert s.
  refine (foldlM_invariant
            (λ st, ∀ s, s ∈ services_to_keep st →
                        ∃ k l, groups !! k = Some l ∧ s ∈ l
                               ∧ (group_outcome resolve (k, l) = Ok None
                                  ∨ group_outcome resolve (k, l) = Ok (Some s)))
            _ _ _ _ _ _ Hloop).
  - intros st [k sids] st' Hin Hinv Hstep s Hs.
    apply sorted_groups_elem in Hin.
    destruct (process_group_outcome _ _ _ _ _ Hstep)
      as [(Hout & Hkeep & _)|(w & Hout & Hkeep & _)];
      rewrite Hkeep in Hs; apply elem_of_union in Hs as [Hs|Hs]; try by apply Hinv.
    + apply elem_of_list_to_set in Hs. exists k, sids. by auto.
    + apply elem_of_singleton in Hs as ->. exists k, sids. split; [done|].
      split; [|by right].
      unfold group_outcome in Hout. simpl in Hout.
      repeat case_bool_decide; try discriminate Hout.
      apply bind_Ok in Hout as ([[winner rs] amb] & Hres & Hout).
      destruct (amb || negb (truthy winner)); [discriminate Hout|].
      injection Hout as ->. by eapply resolver_winner_in.
  - intros s Hs. simpl in Hs. set_solver.
Qed.

Lemma pruned_outcome (final : PruneState) (s : string) :
  foldlM (process_group resolve) init_state (sorted_groups groups) = Ok final →
  s ∈ services_to_prune final →
  ∃ k l w, groups !! k = Some l ∧ s ∈ l
           ∧ group_outcome resolve (k, l) = Ok (Some w) ∧ s ≠ w.
Proof.
  intros Hloop. revert s.
  refine (foldlM_invariant
            (λ st, ∀ s, s ∈ services_to_prune st →
                        ∃ k l w, groups !! k = Some l ∧ s ∈ l
                                 ∧ group_outcome resolve (k, l) = Ok (Some w) ∧ s ≠ w)
            _ _ _ _ _ _ Hloop).
  - intros st [k sids] st' Hin Hinv Hstep s Hs.
    apply sorted_groups_elem in Hin.
    destruct (process_group_outcome _ _ _ _ _ Hstep)
      as [(Hout & _ & Hprune)|(w & Hout & _ & Hprune)];
      rewrite Hprune in Hs; [by apply Hinv|].
    apply elem_of_union in Hs as [Hs|Hs]; [|by apply Hinv].
    apply elem_of_list_to_set, list_elem_of_filter in Hs as [Hne Hs].
    by exists k, sids, w.
  - intros s Hs. simpl in Hs. set_solver.
Qed.

End Outcomes.

(** X15. When the calendar rows of one service all carry the same weekday
    mask, the pruned and the kept services are disjoint, and no surviving
    calendar row, exception or trip carries the id of a pruned service. *)
Theorem pruned_services_removed (today : Z)
    (agencies calendar_rows calendar_dates trips stop_times feed_info : list Row)
    (overlap_max_days : Z)
    (cal_f cd_f trips_f stop_times_f : list Row) (diagnostics : Diagnostics) :
  (∀ c c' sid, c ∈ calendar_rows → c' ∈ calendar_rows →
               c !! "service_id" = Some sid → c' !! "service_id" = Some sid →
               _weekday_mask c = _weekday_mask c') →
  _prune_overlaps_factual today agencies calendar_rows calendar_dates trips stop_times
    feed_info overlap_max_days
  = Ok (cal_f, cd_f, trips_f, stop_times_f, diagnostics) →
  ∃ final,
    prune_groups today calendar_rows calendar_dates trips feed_info overlap_max_days
    = Ok final
    ∧ ∀ s, s ∈ services_to_prune final →
           (s ∉ services_to_keep final)
           ∧ (∀ c, c ∈ cal_f → c !! "service_id" ≠ Some s)
           ∧ (∀ d, d ∈ cd_f → d !! "service_id" ≠ Some s)
           ∧ (∀ t, t ∈ trips_f → t !! "service_id" ≠ Some s).
Proof.
  intros Hmask Hrun.
  unfold _prune_overlaps_factual in Hrun.
  apply bind_Ok in Hrun as (final & Hfinal & Hrun).
  apply bind_Ok in Hrun as (cal & Hcal & Hrun).
  apply bind_Ok in Hrun as (cd & Hcd & Hrun).
  rewrite trips_loop in Hrun. simpl in Hrun.
  injection Hrun as <- <- <- _ _.
  apply kept_rows_filter in Hcal as ->. apply kept_rows_filter in Hcd as ->.
  exists final. split; [done|]. intros s Hpruned.
  assert (s ∉ services_to_keep final) as Hnot.
  { intros Hkept.
    destruct (prune_groups_run _ _ _ _ _ _ final Hfinal) as (dict & _ & Hloop).
    destruct (kept_outcome _ _ _ _ _ _ _ _ _ Hloop Hkept) as (k & l & Hk & Hl & Hout).
    destruct (pruned_outcome _ _ _ _ _ _ _ _ _ Hloop Hpruned)
      as (k' & l' & w & Hk' & Hl' & Hout' & Hne).
    destruct (group_member_row _ _ _ _ _ Hk Hl) as (_ & c & Hc & Hcs & Hkc).
    destruct (group_member_row _ _ _ _ _ Hk' Hl') as (_ & c' & Hc' & Hcs' & Hkc').
    assert (k = k') as <-.
    { rewrite Hkc, Hkc'. unfold spec_group_key. f_equal. by eapply Hmask. }
    assert (l' = l) as -> by congruence.
    destruct Hout as [Hout|Hout]; congruence. }
  split; [done|].
  assert (∀ (rows : list Row) (r : Row),
            r ∈ filter (λ c : Row, in_set (c !! "service_id") (services_to_keep final)) rows →
            r !! "service_id" ≠ Some s) as Hrows.
  { intros rows r Hr Hs. apply list_elem_of_filter in Hr as [Hkept _].
    apply in_set_spec in Hkept as (x & Hx & Hkept). congruence. }
  split_and!; intros r Hr; by eapply Hrows.
Qed.

Lemma pruned_services_removed_witness :
  _prune_overlaps_factual week_start [] week_rows [] week_trips week_stop_times [] 45
  = Ok ([mk_calendar "8" "20240108" "20240114" ["monday"; "tuesday"; "wednesday"]], [],
        [mk_trip "b" "8" "R"], [mk_row [("trip_id", "b")]], week_diagnostics)
  ∧ ∃ final,
      prune_groups week_start week_rows [] week_trips [] 45 = Ok final
      ∧ ∀ s, s ∈ services_to_prune final →
             (s ∉ services_to_keep final)
             ∧ ∀ t, t ∈ [mk_trip "b" "8" "R"] → t !! "service_id" ≠ Some s.
Proof.
  assert (_prune_overlaps_factual week_start [] week_rows [] week_trips week_stop_times
            [] 45
          = Ok ([mk_calendar "8" "20240108" "20240114" ["monday"; "tuesday"; "wednesday"]],
                [], [mk_trip "b" "8" "R"], [mk_row [("trip_id", "b")]], week_diagnostics))
    as Hrun by reflexivity.
  split; [exact Hrun|].
  assert (∀ c c' sid, c ∈ week_rows → c' ∈ week_rows →
                      c !! "service_id" = Some sid → c' !! "service_id" = Some sid →
                      _weekday_mask c = _weekday_mask c') as Hmask.
  { intros c c' sid Hc Hc' _ _.
    apply elem_of_cons in Hc as [->|Hc];
      [|apply elem_of_cons in Hc as [->|Hc]; [|inversion Hc]];
      (apply elem_of_cons in Hc' as [->|Hc'];
       [|apply elem_of_cons in Hc' as [->|Hc']; [|inversion Hc']]);
      reflexivity. }
  destruct (pruned_services_removed week_start [] week_rows [] week_trips
              week_stop_times [] 45 _ _ _ _ _ Hmask Hrun) as (final & Hfinal & Hall).
  clear Hrun Hmask. exists final. split; [exact Hfinal|].
  intros s Hs. destruct (Hall s Hs) as (Hnot & _ & _ & Htrips).
  split; [exact Hnot | exact Htrips].
Defined.

(** ** The counters of the diagnostics *)

Lemma memberships_Permutation (l1 l2 : list (GroupKey * list string)) :
  l1 ≡ₚ l2 → memberships l1 = memberships l2.
Proof. induction 1; simpl; lia. Qed.

Lemma memberships_insert (g : gmap GroupKey (list string)) (k : GroupKey)
    (l : list string) :
  memberships (map_to_list (<[k := l]> g))
  = Z.of_nat (length l) + memberships (map_to_list g)
    - Z.of_nat (length (default [] (g !! k))).
Proof.
  destruct (g !! k) as [l0|] eqn:Hk; simpl.
  - rewrite <- insert_delete_eq.
    rewrite (memberships_Permutation _ _
               (map_to_list_insert (delete k g) k l (lookup_delete_eq g k))).
    rewrite <- (memberships_Permutation _ _ (map_to_list_delete g k l0 Hk)).
    simpl. lia.
  - rewrite (memberships_Permutation _ _ (map_to_list_insert g k l Hk)). simpl. lia.
Qed.

Lemma calendar_service_ids_snoc (rows : list Row) (cal : Row) :
  calendar_service_ids (rows ++ [cal])
  = calendar_service_ids rows
    ++ (if truthy (cal !! "service_id") then [default "" (cal !! "service_id")] else []).
Proof.
  unfold calendar_service_ids. rewrite omap_app. f_equal. simpl.
  destruct (cal !! "service_id") as [sid|]; simpl; [|done].
  destruct (decide (sid ≠ "")) as [Hne|Heq].
  - apply String.eqb_neq in Hne. by rewrite Hne.
  - apply dec_stable in Heq as ->. done.
Qed.

(** The groups hold one member for every calendar row with a non-empty
    service id. *)
Lemma memberships_rows (calendar_rows trips : list Row) :
  memberships (map_to_list (_build_route_grouping calendar_rows trips).1)
  = Z.of_nat (length (calendar_service_ids calendar_rows)).
Proof.
  unfold _build_route_grouping. simpl.
  induction calendar_rows as [|cal rows IH] using rev_ind.
  - simpl. by rewrite map_to_list_empty.
  - rewrite foldl_app, calendar_service_ids_snoc, length_app. simpl.
    unfold group_step at 1.
    destruct (truthy (cal !! "service_id")); simpl.
    + rewrite memberships_insert, length_app. simpl.
      destruct (foldl _ _ rows !! _) as [l0|]; simpl in *; lia.
    + lia.
Qed.

Lemma spec_members_sublist (calendar_rows trips : list Row) (k : GroupKey) :
  spec_members calendar_rows trips k `sublist_of` calendar_service_ids calendar_rows.
Proof.
  unfold spec_members, calendar_service_ids.
  induction calendar_rows as [|cal rows IH]; simpl; [done|].
  destruct (cal !! "service_id") as [sid|]; simpl; [|done].
  destruct (decide (sid ≠ "")) as [Hne|Hne].
  - case_decide as Hd; simpl.
    + by apply sublist_skip.
    + by apply sublist_cons.
  - rewrite decide_False by tauto. done.
Qed.

Lemma filter_other_length (w : string) (sids : list string) :
  w ∈ sids →
  (length (filter (λ s, s ≠ w) sids) + 1 ≤ length sids)%nat
  ∧ (NoDup sids → length (filter (λ s, s ≠ w) sids) + 1 = length sids)%nat.
Proof.
  induction sids as [|s sids IH]; intros Hin; [inversion Hin|].
  rewrite filter_cons. destruct (decide (s ≠ w)) as [Hne|Heq]; simpl.
  - apply elem_of_cons in Hin as [->|Hin]; [done|].
    destruct (IH Hin) as [Hle Heq]. split; [lia|].
    intros Hnd. apply NoDup_cons in Hnd as [_ Hnd]. specialize (Heq Hnd). lia.
  - apply dec_stable in Heq as ->.
    pose proof (length_filter (λ s, s ≠ w) sids) as Hlen. split; [lia|].
    intros Hnd. apply NoDup_cons in Hnd as [Hnot _].
    assert (filter (λ s, s ≠ w) sids = sids) as ->; [|lia].
    clear -Hnot. induction sids as [|s sids IH]; [done|].
    rewrite filter_cons. apply not_elem_of_cons in Hnot as [Hne Hnot].
    rewrite decide_True by done. by rewrite IH.
Qed.

Section Counters.

Variable resolve : list string → Res Verdict.
Hypothesis resolve_in :
  ∀ sids w reasons amb, resolve sids = Ok (Some w, reasons, amb) → w ∈ sids.

Lemma process_group_counters (st st' : PruneState) (g : GroupKey * list string) :
  process_group resolve st g = Ok st' →
  let big := if decide (1 < length g.2)%nat then 1 else 0 in
  st_overlapping st' = st_overlapping st + big
  ∧ Z.of_nat (length (st_groups st')) = Z.of_nat (length (st_groups st)) + big
  ∧ st_ambiguous st ≤ st_ambiguous st' ≤ st_ambiguous st + big
  ∧ st_kept st ≤ st_kept st' ∧ st_pruned st ≤ st_pruned st'
  ∧ st_kept st' + st_pruned st'
    ≤ st_kept st + st_pruned st + Z.of_nat (length g.2)
  ∧ (NoDup g.2 →
     st_kept st' + st_pruned st'
     = st_kept st + st_pruned st + Z.of_nat (length g.2)).
Proof.
  destruct g as [[mask routes] sids]. unfold process_group. simpl.
  case_bool_decide as Hlen.
  { intros [= <-]. rewrite decide_False by lia. simpl. lia. }
  rewrite decide_True by lia.
  case_bool_decide as Hcount.
  { intros [= <-]. simpl. rewrite length_app. simpl. lia. }
  intros Hrun. apply bind_Ok in Hrun as ([[winner reasons] amb] & Hres & Hrun).
  destruct (amb || negb (truthy winner)) eqn:Hamb.
  { simplify_eq. simpl. rewrite length_app. simpl. lia. }
  apply orb_false_iff in Hamb as [-> Ht]. apply negb_false_iff in Ht.
  apply truthy_Some in Ht as (w & -> & Hw).
  destruct (filter_other_length w sids) as [Hle Heq]; [by eapply resolve_in|].
  simplify_eq. simpl. rewrite length_app. simpl. split_and!; try lia.
  intros Hnd. specialize (Heq Hnd). lia.
Qed.

Lemma loop_counters (gl : list (GroupKey * list string)) (st st' : PruneState) :
  foldlM (process_group resolve) st gl = Ok st' →
  let big := Z.of_nat (length (filter (λ g : GroupKey * list string,
                                         (1 < length g.2)%nat) gl)) in
  st_overlapping st' = st_overlapping st + big
  ∧ Z.of_nat (length (st_groups st')) = Z.of_nat (length (st_groups st)) + big
  ∧ st_ambiguous st ≤ st_ambiguous st' ≤ st_ambiguous st + big
  ∧ st_kept st ≤ st_kept st' ∧ st_pruned st ≤ st_pruned st'
  ∧ st_kept st' + st_pruned st' ≤ st_kept st + st_pruned st + memberships gl
  ∧ (Forall (λ g : GroupKey * list string, NoDup g.2) gl →
     st_kept st' + st_pruned st' = st_kept st + st_pruned st + memberships gl).
Proof.
  revert st. induction gl as [|g gl IH]; intros st Hrun; simpl in Hrun.
  - simplify_eq. simpl. lia.
  - apply bind_Ok in Hrun as (st1 & Hstep & Hrun).
    destruct (process_group_counters _ _ _ Hstep) as (H1 & H2 & H3 & H4 & H5 & H6 & H7).
    destruct (IH _ Hrun) as (I1 & I2 & I3 & I4 & I5 & I6 & I7).
    cbv zeta. rewrite filter_cons. simpl.
    destruct (decide (1 < length g.2)%nat); simpl length.
    + split_and!; try lia.
      intros Hnd. apply Forall_cons in Hnd as [Hg Hnd].
      specialize (H7 Hg). specialize (I7 Hnd). lia.
    + split_and!; try lia.
      intros Hnd. apply Forall_cons in Hnd as [Hg Hnd].
      specialize (H7 Hg). specialize (I7 Hnd). lia.
Qed.

End Counters.

(** X16. The counters of the diagnostics: [total_groups] is the number of
    groups; [overlapping_groups] is the number of groups with more than one
    member, which is also the number of group records; [ambiguous_groups]
    lies between 0 and [overlapping_groups]; [kept_services] plus
    [pruned_services] is at most the number of calendar rows with a
    non-empty service id, and equal to it when these ids are distinct. *)
Theorem summary_counters (today : Z)
    (agencies calendar_rows calendar_dates trips stop_times feed_info : list Row)
    (overlap_max_days : Z)
    (cal_f cd_f trips_f stop_times_f : list Row) (diagnostics : Diagnostics) :
  _prune_overlaps_factual today agencies calendar_rows calendar_dates trips stop_times
    feed_info overlap_max_days
  = Ok (cal_f, cd_f, trips_f, stop_times_f, diagnostics) →
  let groups := (_build_route_grouping calendar_rows trips).1 in
  let summary := d_summary diagnostics in
  total_groups summary = Z.of_nat (size groups)
  ∧ overlapping_groups summary
    = Z.of_nat (length (filter (λ g : GroupKey * list string, (1 < length g.2)%nat)
                          (map_to_list groups)))
  ∧ Z.of_nat (length (d_groups diagnostics)) = overlapping_groups summary
  ∧ 0 ≤ ambiguous_groups summary ≤ overlapping_groups summary
  ∧ 0 ≤ kept_services summary ∧ 0 ≤ pruned_services summary
  ∧ kept_services summary + pruned_services summary
    ≤ Z.of_nat (length (calendar_service_ids calendar_rows))
  ∧ (NoDup (calendar_service_ids calendar_rows) →
     kept_services summary + pruned_services summary
     = Z.of_nat (length (calendar_service_ids calendar_rows))).
Proof.
  intros Hrun. unfold _prune_overlaps_factual in Hrun.
  apply bind_Ok in Hrun as (final & Hfinal & Hrun).
  apply bind_Ok in Hrun as (cal & Hcal & Hrun).
  apply bind_Ok in Hrun as (cd & Hcd & Hrun).
  destruct (foldl _ _ trips) as [tf ids]. injection Hrun as _ _ _ _ <-.
  cbv zeta.
  cbn [d_summary d_groups total_groups overlapping_groups ambiguous_groups
       pruned_services kept_services].
  destruct (prune_groups_run _ _ _ _ _ _ final Hfinal) as (dict & _ & Hloop).
  assert (sorted_groups (_build_route_grouping calendar_rows trips).1
          ≡ₚ map_to_list (_build_route_grouping calendar_rows trips).1) as Hperm
    by apply merge_sort_Permutation.
  pose proof (loop_counters _ (λ sids w rs amb, resolver_winner_in sids _ _ _ _ w rs amb)
                _ _ _ Hloop) as Hc.
  cbv zeta in Hc.
  rewrite (memberships_Permutation _ _ Hperm), memberships_rows in Hc.
  assert (length (filter (λ g : GroupKey * list string, (1 < length g.2)%nat)
                    (sorted_groups (_build_route_grouping calendar_rows trips).1))
          = length (filter (λ g : GroupKey * list string, (1 < length g.2)%nat)
                      (map_to_list (_build_route_grouping calendar_rows trips).1)))
    as Hlen by (apply Permutation_length; by rewrite Hperm).
  rewrite Hlen in Hc. clear Hlen.
  destruct Hc as (H1 & H2 & H3 & H4 & H5 & H6 & H7).
  change (st_overlapping init_state) with 0 in *.
  change (st_ambiguous init_state) with 0 in *.
  change (st_kept init_state) with 0 in *.
  change (st_pruned init_state) with 0 in *.
  change (length (st_groups init_state)) with 0%nat in *.
  split_and!; try lia; try reflexivity.
  intros Hnd. apply H7.
  apply Forall_forall. intros [k l] Hin. simpl.
  apply sorted_groups_elem in Hin.
  apply (sublist_NoDup _ _ Hnd).
  pose proof (proj1 (groups_spec calendar_rows trips k)) as Hspec.
  unfold _build_route_grouping in Hin. simpl in Hin. rewrite Hin in Hspec.
  simpl in Hspec. rewrite Hspec. apply spec_members_sublist.
Qed.

Lemma summary_counters_witness :
  _prune_overlaps_factual week_start [] week_rows [] week_trips week_stop_times [] 45
  = Ok ([mk_calendar "8" "20240108" "20240114" ["monday"; "tuesday"; "wednesday"]], [],
        [mk_trip "b" "8" "R"], [mk_row [("trip_id", "b")]], week_diagnostics)
  ∧ NoDup (calendar_service_ids week_rows)
  ∧ kept_services (d_summary week_diagnostics)
    + pruned_services (d_summary week_diagnostics)
    = Z.of_nat (length (calendar_service_ids week_rows)).
Proof.
  assert (_prune_overlaps_factual week_start [] week_rows [] week_trips week_stop_times
            [] 45
          = Ok ([mk_calendar "8" "20240108" "20240114" ["monday"; "tuesday"; "wednesday"]],
                [], [mk_trip "b" "8" "R"], [mk_row [("trip_id", "b")]], week_diagnostics))
    as Hrun by reflexivity.
  assert (NoDup (calendar_service_ids week_rows)) as Hnd by by_compute.
  split; [exact Hrun|]. split; [exact Hnd|].
  pose proof (summary_counters week_start [] week_rows [] week_trips week_stop_times [] 45
                _ _ _ _ _ Hrun) as Hthm.
  clear Hrun. cbv zeta in Hthm.
  destruct Hthm as (_ & _ & _ & _ & _ & _ & _ & Heq). exact (Heq Hnd).
Defined.

(** ** Dates *)

Lemma year_length (y : Z) :
  Py.days_before_year (y + 1)
  = Py.days_before_year y + 365 + (if Py.is_leap y then 1 else 0).
Proof.
  unfold Py.days_before_year, Py.is_leap. cbv zeta.
  replace (y + 1 - 1) with y by lia.
  destruct (Z.eqb_spec (y mod 4) 0), (Z.eqb_spec (y mod 100) 0),
    (Z.eqb_spec (y mod 400) 0); simpl; Z.div_mod_to_equations; lia.
Qed.

Lemma days_before_year_mono (y1 y2 : Z) :
  y1 ≤ y2 → Py.days_before_year y1 ≤ Py.days_before_year y2.
Proof.
  intros Hle. unfold Py.days_before_year. cbv zeta. Z.div_mod_to_equations. lia.
Qed.

Lemma month_cases (m : Z) :
  1 ≤ m ≤ 12 →
  m = 1 ∨ m = 2 ∨ m = 3 ∨ m = 4 ∨ m = 5 ∨ m = 6 ∨ m = 7 ∨ m = 8 ∨ m = 9 ∨ m = 10
  ∨ m = 11 ∨ m = 12.
Proof. lia. Qed.

Lemma month_within_year (y m : Z) :
  1 ≤ m ≤ 12 →
  0 ≤ Py.days_before_month y m
  ∧ Py.days_before_month y m + Py.days_in_month y m
    ≤ 365 + (if Py.is_leap y then 1 else 0).
Proof.
  intros Hm. unfold Py.days_before_month, Py.days_in_month.
  destruct (Py.is_leap y);
    destruct (month_cases m Hm) as [->|[->|[->|[->|[->|[->|[->|[->|[->|[->|[->| ->]]]]]]]]]]];
    vm_compute; split; congruence.
Qed.

(** A date that [date(y, m, d)] accepts is a day between 0001-01-01 and
    9999-12-31. *)
Lemma date_range (y m d n : Z) :
  Py.date y m d = Some n → 1 ≤ n ≤ Py.MAXORDINAL.
Proof.
  unfold Py.date. destruct (_ && _) eqn:Hok; [|done]. intros [= <-].
  repeat (apply andb_true_iff in Hok as [Hok ?]).
  assert (1 ≤ y ≤ 9999 ∧ 1 ≤ m ≤ 12 ∧ 1 ≤ d ≤ Py.days_in_month y m) as (Hy & Hm & Hd) by lia.
  destruct (month_within_year y m Hm) as [Hlo Hhi].
  pose proof (year_length y) as Hlen.
  pose proof (days_before_year_mono 1 y ltac:(lia)) as Hfirst.
  pose proof (days_before_year_mono (y + 1) 10000 ltac:(lia)) as Hlast.
  change (Py.days_before_year 1) with 0 in Hfirst.
  change (Py.days_before_year 10000) with 3652059 in Hlast.
  unfold Py.ymd2ord, Py.MAXORDINAL. lia.
Qed.

Lemma month_and_day_spec (leapyear : bool) (n : Z) :
  0 ≤ n < 365 + (if leapyear then 1 else 0) →
  month_and_day_ok leapyear n = true.
Proof.
  intros Hn.
  assert (forallb (month_and_day_ok true) (seqZ 0 366) = true) as Hleap by vm_refl.
  assert (forallb (month_and_day_ok false) (seqZ 0 365) = true) as Hcommon by vm_refl.
  rewrite forallb_forall in Hleap, Hcommon.
  destruct leapyear.
  - apply Hleap, list_elem_of_In, elem_of_seqZ. lia.
  - apply Hcommon, list_elem_of_In, elem_of_seqZ. lia.
Qed.

Lemma is_leap_digits (a b c e : Z) :
  0 ≤ a → 0 ≤ b ≤ 3 → 0 ≤ c ≤ 24 → 0 ≤ e ≤ 3 →
  Py.is_leap (a * 400 + 1 + b * 100 + c * 4 + e)
  = (e =? 3) && (negb (c =? 24) || (b =? 3)).
Proof.
  intros Ha Hb Hc He. unfold Py.is_leap.
  destruct (Z.eqb_spec ((a * 400 + 1 + b * 100 + c * 4 + e) mod 4) 0) as [H4|H4],
    (Z.eqb_spec ((a * 400 + 1 + b * 100 + c * 4 + e) mod 100) 0) as [H100|H100],
    (Z.eqb_spec ((a * 400 + 1 + b * 100 + c * 4 + e) mod 400) 0) as [H400|H400],
    (Z.eqb_spec e 3), (Z.eqb_spec c 24), (Z.eqb_spec b 3); simpl; try reflexivity;
    exfalso; Z.div_mod_to_equations; lia.
Qed.

Lemma days_before_year_digits (a b c e : Z) :
  0 ≤ a → 0 ≤ b ≤ 3 → 0 ≤ c ≤ 24 → 0 ≤ e ≤ 3 →
  Py.days_before_year (a * 400 + 1 + b * 100 + c * 4 + e)
  = 146097 * a + 36524 * b + 1461 * c + 365 * e.
Proof.
  intros Ha Hb Hc He. unfold Py.days_before_year. cbv zeta.
  Z.div_mod_to_equations. lia.
Qed.

(** [ord2ymd] finds the year, month and day of a day number: the inverse of
    [ymd2ord] on the days 0001-01-01 to 9999-12-31. *)
Lemma ord2ymd_spec (n0 : Z) :
  1 ≤ n0 ≤ Py.MAXORDINAL →
  ∃ y m d, Py.ord2ymd n0 = (y, m, d)
           ∧ 1 ≤ y ≤ 9999 ∧ 1 ≤ m ≤ 12 ∧ 1 ≤ d ≤ Py.days_in_month y m
           ∧ Py.ymd2ord y m d = n0.
Proof.
  intros Hn0. unfold Py.MAXORDINAL in Hn0. unfold Py.ord2ymd. cbv zeta.
  pose proof (Z.div_mod (n0 - 1) 146097 ltac:(lia)) as E400.
  pose proof (Z.mod_pos_bound (n0 - 1) 146097 ltac:(lia)) as B400.
  set (a := (n0 - 1) / 146097) in *. set (r400 := (n0 - 1) mod 146097) in *.
  pose proof (Z.div_mod r400 36524 ltac:(lia)) as E100.
  pose proof (Z.mod_pos_bound r400 36524 ltac:(lia)) as B100.
  set (b := r400 / 36524) in *. set (r100 := r400 mod 36524) in *.
  pose proof (Z.div_mod r100 1461 ltac:(lia)) as E4.
  pose proof (Z.mod_pos_bound r100 1461 ltac:(lia)) as B4.
  set (c := r100 / 1461) in *. set (r4 := r100 mod 1461) in *.
  pose proof (Z.div_mod r4 365 ltac:(lia)) as E1.
  pose proof (Z.mod_pos_bound r4 365 ltac:(lia)) as B1.
  set (e := r4 / 365) in *. set (r1 := r4 mod 365) in *.
  clearbody a r400 b r100 c r4 e r1.
  assert (0 ≤ a ≤ 24 ∧ 0 ≤ b ≤ 4 ∧ 0 ≤ c ≤ 24 ∧ 0 ≤ e ≤ 4) as (Ha & Hb & Hc & He) by lia.
  destruct (Z.eqb_spec e 4) as [He4|He4]; [|destruct (Z.eqb_spec b 4) as [Hb4|Hb4]];
    simpl orb; cbv iota.
  - exists (a * 400 + 1 + b * 100 + c * 4 + 3), 12, 31.
    split; [by replace (a * 400 + 1 + b * 100 + c * 4 + e - 1)
              with (a * 400 + 1 + b * 100 + c * 4 + 3) by lia|].
    assert (0 ≤ b ≤ 3 ∧ 0 ≤ c ≤ 23) as [Hb3 Hc3] by lia.
    split; [lia|]. split; [lia|]. split; [change (Py.days_in_month _ 12) with 31; lia|].
    unfold Py.ymd2ord, Py.days_before_month.
    rewrite is_leap_digits, days_before_year_digits by lia.
    destruct (Z.eqb_spec c 24) as [?|_]; [lia|]. simpl. vm_compute (_ !!! _). lia.
  - exists (a * 400 + 1 + 3 * 100 + 24 * 4 + 3), 12, 31.
    split; [by replace (a * 400 + 1 + b * 100 + c * 4 + e - 1)
              with (a * 400 + 1 + 3 * 100 + 24 * 4 + 3) by lia|].
    split; [lia|]. split; [lia|]. split; [change (Py.days_in_month _ 12) with 31; lia|].
    unfold Py.ymd2ord, Py.days_before_month.
    rewrite is_leap_digits, days_before_year_digits by lia.
    simpl. vm_compute (_ !!! _). lia.
  - assert (0 ≤ b ≤ 3 ∧ 0 ≤ e ≤ 3) as [Hb3 He3] by lia.
    set (year := a * 400 + 1 + b * 100 + c * 4 + e).
    set (leapyear := (e =? 3) && (negb (c =? 24) || (b =? 3))).
    assert (Py.is_leap year = leapyear) as Hleap by (apply is_leap_digits; lia).
    assert (Py.days_before_year year = 146097 * a + 36524 * b + 1461 * c + 365 * e)
      as Hdays by (apply days_before_year_digits; lia).
    pose proof (month_and_day_spec leapyear r1) as Hmd.
    unfold month_and_day_ok, month_and_day in Hmd. cbv zeta in Hmd.
    destruct (r1 <? _).
    + eexists _, _, _. split; [reflexivity|].
      specialize (Hmd ltac:(destruct leapyear; lia)).
      repeat (apply andb_true_iff in Hmd as [Hmd ?]).
      unfold Py.days_in_month, Py.ymd2ord, Py.days_before_month. rewrite Hleap, Hdays.
      unfold month_length, days_before in *. lia.
    + eexists _, _, _. split; [reflexivity|].
      specialize (Hmd ltac:(destruct leapyear; lia)).
      repeat (apply andb_true_iff in Hmd as [Hmd ?]).
      unfold Py.days_in_month, Py.ymd2ord, Py.days_before_month. rewrite Hleap, Hdays.
      unfold month_length, days_before in *. lia.
Qed.

(** *** Printing and reading the fields of a date *)

Lemma digit_char (d : N) :
  (d < 10)%N →
  Py.digit_val (pretty_N_char d) = Some (Z.of_N d)
  ∧ Py.is_space (pretty_N_char d) = false
  ∧ Ascii.eqb (pretty_N_char d) "+" = false
  ∧ Ascii.eqb (pretty_N_char d) "-" = false.
Proof.
  intros Hd.
  assert (d = 0 ∨ d = 1 ∨ d = 2 ∨ d = 3 ∨ d = 4 ∨ d = 5 ∨ d = 6 ∨ d = 7 ∨ d = 8 ∨ d = 9)%N
    as [->|[->|[->|[->|[->|[->|[->|[->|[->| ->]]]]]]]]] by lia;
    vm_compute; auto.
Qed.

Lemma digit_count_le (l : list Ascii.ascii) :
  Py.digit_count l ≤ Z.of_nat (length l).
Proof. unfold Py.digit_count. pose proof (length_filter (λ c, is_Some (Py.digit_val c)) l). lia. Qed.

Lemma pretty_four_digits (y : Z) :
  1000 ≤ y ≤ 9999 →
  String.length (pretty y) = 4%nat ∧ Py.int (pretty y) = Some y.
Proof.
  intros Hy. destruct y as [|p|p]; [lia| |lia].
  unfold pretty, pretty_Z, pretty, pretty_positive, pretty, pretty_N.
  rewrite decide_False by lia.
  set (x := N.pos p). assert (1000 ≤ x ≤ 9999)%N as Hx by (unfold x; lia).
  assert (Z.pos p = Z.of_N x) as -> by (unfold x; lia). clearbody x. clear p Hy.
  pose proof (N.div_mod x 10 ltac:(lia)) as E0.
  pose proof (N.mod_lt x 10 ltac:(lia)) as B0.
  set (q1 := (x `div` 10)%N) in *. set (d0 := (x `mod` 10)%N) in *.
  pose proof (N.div_mod q1 10 ltac:(lia)) as E1.
  pose proof (N.mod_lt q1 10 ltac:(lia)) as B1.
  set (q2 := (q1 `div` 10)%N) in *. set (d1 := (q1 `mod` 10)%N) in *.
  pose proof (N.div_mod q2 10 ltac:(lia)) as E2.
  pose proof (N.mod_lt q2 10 ltac:(lia)) as B2.
  set (q3 := (q2 `div` 10)%N) in *. set (d2 := (q2 `mod` 10)%N) in *.
  pose proof (N.div_mod q3 10 ltac:(lia)) as E3.
  pose proof (N.mod_lt q3 10 ltac:(lia)) as B3.
  set (q4 := (q3 `div` 10)%N) in *. set (d3 := (q3 `mod` 10)%N) in *.
  rewrite (pretty_N_go_step x) by lia. fold q1 d0.
  rewrite (pretty_N_go_step q1) by lia. fold q2 d1.
  rewrite (pretty_N_go_step q2) by lia. fold q3 d2.
  rewrite (pretty_N_go_step q3) by lia. fold q4 d3.
  assert (q4 = 0)%N as -> by lia.
  rewrite pretty_N_go_0. split; [reflexivity|].
  destruct (digit_char d0 B0) as (V0 & S0 & _).
  destruct (digit_char d1 B1) as (V1 & _).
  destruct (digit_char d2 B2) as (V2 & _).
  destruct (digit_char d3 B3) as (V3 & S3 & P3 & M3).
  unfold Py.int, Py.strip. cbn [String.list_ascii_of_string Py.lstrip].
  rewrite S3. cbn [reverse rev_append Py.lstrip]. rewrite S0.
  cbn [reverse rev_append]. rewrite P3, M3. unfold Py.int_of_digits.
  rewrite bool_decide_eq_true_2
    by (etrans; [apply digit_count_le|]; unfold Py.MAX_STR_DIGITS; simpl; lia).
  cbn [Py.digits].
  rewrite V3. cbn [Py.digits]. rewrite V2. cbn [Py.digits]. rewrite V1.
  cbn [Py.digits]. rewrite V0. cbn [Py.digits mbind option_bind]. f_equal. lia.
Qed.

Lemma pad2_spec (k : Z) :
  1 ≤ k ≤ 31 → String.length (Py.pad2 k) = 2%nat ∧ Py.int (Py.pad2 k) = Some k.
Proof.
  intros Hk.
  assert (forallb pad2_ok (seqZ 1 31) = true) as Hall by vm_refl.
  rewrite forallb_forall in Hall.
  specialize (Hall k). unfold pad2_ok in Hall.
  apply andb_true_iff in Hall as [Hlen Hint].
  - split; [by apply Nat.eqb_eq|].
    destruct (Py.int (Py.pad2 k)) as [v|]; [|done]. f_equal. lia.
  - apply list_elem_of_In, elem_of_seqZ. lia.
Qed.

Lemma substring_prefix (a b : string) (n : nat) :
  String.length a = n → String.substring 0 n (a +:+ b) = a.
Proof.
  revert n. induction a as [|c a IH]; intros n <-; simpl.
  - by destruct b.
  - f_equal. by apply IH.
Qed.

Lemma substring_whole (a : string) (n : nat) :
  String.length a = n → String.substring 0 n a = a.
Proof.
  revert n. induction a as [|c a IH]; intros n <-; simpl; [done|].
  f_equal. by apply IH.
Qed.

Lemma substring_skip (a b : string) (n k m : nat) :
  String.length a = n → String.substring (n + k) m (a +:+ b) = String.substring k m b.
Proof.
  revert n. induction a as [|c a IH]; intros n <-; simpl; [done|]. by apply IH.
Qed.

Lemma length_append (a b : string) :
  String.length (a +:+ b) = (String.length a + String.length b)%nat.
Proof. induction a as [|c a IH]; simpl; [done|]. by rewrite IH. Qed.

Lemma ymd2ord_within_year (y m d : Z) :
  1 ≤ m ≤ 12 → 1 ≤ d ≤ Py.days_in_month y m →
  Py.days_before_year y < Py.ymd2ord y m d ≤ Py.days_before_year (y + 1).
Proof.
  intros Hm Hd. destruct (month_within_year y m Hm) as [Hlo Hhi].
  rewrite year_length. unfold Py.ymd2ord. lia.
Qed.

Lemma months_in_order (y m m' : Z) :
  1 ≤ m → m < m' → m' ≤ 12 →
  Py.days_before_month y m + Py.days_in_month y m ≤ Py.days_before_month y m'.
Proof.
  intros H1 Hlt H12. unfold Py.days_before_month, Py.days_in_month.
  destruct (Py.is_leap y);
    destruct (month_cases m ltac:(lia))
      as [->|[->|[->|[->|[->|[->|[->|[->|[->|[->|[->| ->]]]]]]]]]]];
    destruct (month_cases m' ltac:(lia))
      as [->|[->|[->|[->|[->|[->|[->|[->|[->|[->|[->| ->]]]]]]]]]]];
    try lia; vm_compute; congruence.
Qed.

(** Different valid dates have different day numbers. *)
Lemma ymd2ord_inj (y m d y' m' d' : Z) :
  1 ≤ m ≤ 12 → 1 ≤ d ≤ Py.days_in_month y m →
  1 ≤ m' ≤ 12 → 1 ≤ d' ≤ Py.days_in_month y' m' →
  Py.ymd2ord y m d = Py.ymd2ord y' m' d' →
  y = y' ∧ m = m' ∧ d = d'.
Proof.
  intros Hm Hd Hm' Hd' Heq.
  pose proof (ymd2ord_within_year y m d Hm Hd) as Hy.
  pose proof (ymd2ord_within_year y' m' d' Hm' Hd') as Hy'.
  assert (y = y') as <-.
  { destruct (Z.lt_trichotomy y y') as [Hlt|[?|Hlt]]; [|done|].
    - pose proof (days_before_year_mono (y + 1) y' ltac:(lia)). lia.
    - pose proof (days_before_year_mono (y' + 1) y ltac:(lia)). lia. }
  split; [done|]. unfold Py.ymd2ord in Heq.
  assert (m = m') as <-.
  { destruct (Z.lt_trichotomy m m') as [Hlt|[?|Hlt]]; [|done|].
    - pose proof (months_in_order y m m' ltac:(lia) Hlt ltac:(lia)). lia.
    - pose proof (months_in_order y m' m ltac:(lia) Hlt ltac:(lia)). lia. }
  split; [done|lia].
Qed.

Lemma date_fields (y m d n : Z) :
  Py.date y m d = Some n → Py.ord2ymd n = (y, m, d).
Proof.
  intros Hdate. pose proof (date_range _ _ _ _ Hdate) as Hn.
  unfold Py.date in Hdate. destruct (_ && _) eqn:Hok; [|done]. injection Hdate as <-.
  repeat (apply andb_true_iff in Hok as [Hok ?]).
  destruct (ord2ymd_spec _ Hn) as (y' & m' & d' & -> & Hy' & Hm' & Hd' & Heq).
  destruct (ymd2ord_inj y' m' d' y m d) as (-> & -> & ->); try done; lia.
Qed.

Lemma parsed_date_bounds (s : string) (n : Z) :
  _yyyymmdd_to_date s = Some n → 1 ≤ n ≤ Py.MAXORDINAL.
Proof.
  unfold _yyyymmdd_to_date. case_bool_decide as Hlen; [done|].
  destruct (Py.int (String.substring 0 4 s)) as [y|]; [|done].
  destruct (Py.int (String.substring 4 2 s)) as [m|]; [|done].
  destruct (Py.int (String.substring 6 2 s)) as [d|]; [|done]. simpl.
  apply date_range.
Qed.

(** X1. When [_yyyymmdd_to_date] returns a date, the string has exactly 8
    characters, its three fields read as integers [y], [m], [d] that form a
    valid date, the result is the date with these fields, and it lies
    between 0001-01-01 and 9999-12-31. *)
Theorem parsed_date_is_valid (s : string) (n : Z) :
  _yyyymmdd_to_date s = Some n →
  String.length s = 8%nat
  ∧ 1 ≤ n ≤ Py.MAXORDINAL
  ∧ ∃ y m d,
      Py.int (String.substring 0 4 s) = Some y
      ∧ Py.int (String.substring 4 2 s) = Some m
      ∧ Py.int (String.substring 6 2 s) = Some d
      ∧ 1 ≤ y ≤ 9999 ∧ 1 ≤ m ≤ 12 ∧ 1 ≤ d ≤ Py.days_in_month y m
      ∧ Py.ord2ymd n = (y, m, d).
Proof.
  unfold _yyyymmdd_to_date. case_bool_decide as Hlen; [done|].
  destruct (Py.int (String.substring 0 4 s)) as [y|]; [|done].
  destruct (Py.int (String.substring 4 2 s)) as [m|]; [|done].
  destruct (Py.int (String.substring 6 2 s)) as [d|]; [|done]. simpl.
  intros Hdate. split; [done|]. split; [by eapply date_range|].
  exists y, m, d. split_and!; try done; try (by eapply date_fields);
    unfold Py.date in Hdate; destruct (_ && _) eqn:Hok; try done;
    repeat (apply andb_true_iff in Hok as [Hok ?]); lia.
Qed.

Lemma parsed_date_is_valid_witness :
  _yyyymmdd_to_date "20240115" = Some 738900
  ∧ String.length "20240115" = 8%nat
  ∧ 1 ≤ 738900 ≤ Py.MAXORDINAL.
Proof.
  assert (_yyyymmdd_to_date "20240115" = Some 738900) as Hparse by reflexivity.
  split; [exact Hparse|].
  pose proof (parsed_date_is_valid "20240115" 738900 Hparse) as Hthm. clear Hparse.
  destruct Hthm as (Hlen & Hrange & _). split; [exact Hlen | exact Hrange].
Defined.

Lemma yyyymmdd_print_parse (n : Z) :
  FIRST_FOUR_DIGIT_DAY ≤ n ≤ Py.MAXORDINAL →
  String.length (_date_to_yyyymmdd n) = 8%nat
  ∧ _yyyymmdd_to_date (_date_to_yyyymmdd n) = Some n.
Proof.
  intros Hn. unfold FIRST_FOUR_DIGIT_DAY in Hn.
  destruct (ord2ymd_spec n) as (y & m & d & Hymd & Hy & Hm & Hd & Heq); [lia|].
  assert (1000 ≤ y) as Hy4.
  { destruct (decide (1000 ≤ y)) as [|Hsmall]; [done|].
    pose proof (ymd2ord_within_year y m d Hm Hd) as Hin.
    pose proof (days_before_year_mono (y + 1) 1000 ltac:(lia)) as Hmono.
    change (Py.days_before_year 1000) with 364877 in Hmono. lia. }
  assert (d ≤ 31) as Hd31.
  { destruct Hd as [_ Hd]. unfold Py.days_in_month in Hd.
    destruct (_ && _); [lia|].
    destruct (month_cases m Hm)
      as [->|[->|[->|[->|[->|[->|[->|[->|[->|[->|[->| ->]]]]]]]]]]];
      vm_compute (_ !!! _) in Hd; lia. }
  destruct (pretty_four_digits y ltac:(lia)) as [Ly Iy].
  destruct (pad2_spec m ltac:(lia)) as [Lm Im].
  destruct (pad2_spec d ltac:(lia)) as [Ld Id].
  unfold _date_to_yyyymmdd, Py.strftime_Ymd. rewrite Hymd.
  assert (String.length (pretty y +:+ Py.pad2 m +:+ Py.pad2 d) = 8%nat) as Hlen.
  { rewrite !length_append, Ly, Lm, Ld. done. }
  split; [done|].
  unfold _yyyymmdd_to_date. rewrite bool_decide_eq_false_2 by (rewrite Hlen; intros Hne; by apply Hne).
  rewrite (substring_prefix _ _ 4 Ly), Iy. simpl.
  change 4%nat with (4 + 0)%nat at 1.
  rewrite (substring_skip _ _ 4 0 2 Ly), (substring_prefix _ _ 2 Lm), Im. simpl.
  change 6%nat with (4 + 2)%nat.
  rewrite (substring_skip _ _ 4 2 2 Ly).
  change 2%nat with (2 + 0)%nat at 1.
  rewrite (substring_skip _ _ 2 0 2 Lm), (substring_whole _ 2 Ld), Id. simpl.
  unfold Py.date.
  assert ((1 <=? y) && (y <=? 9999) && (1 <=? m) && (m <=? 12) && (1 <=? d)
          && (d <=? Py.days_in_month y m) = true) as ->; [|by rewrite Heq].
  repeat (apply andb_true_iff; split); lia.
Qed.

Lemma yyyymmdd_parse_print (n : Z) :
  FIRST_FOUR_DIGIT_DAY ≤ n ≤ Py.MAXORDINAL →
  _yyyymmdd_to_date (_date_to_yyyymmdd n) = Some n.
Proof. intros Hn. by apply yyyymmdd_print_parse. Qed.

(** X2. For every date from 1000-01-01 to 9999-12-31 the string
    [_date_to_yyyymmdd] prints has 8 characters and [_yyyymmdd_to_date]
    reads it back as the same date. *)
Theorem yyyymmdd_round_trip (n : Z) (s : string) :
  FIRST_FOUR_DIGIT_DAY ≤ n ≤ Py.MAXORDINAL →
  _date_to_yyyymmdd n = s →
  String.length s = 8%nat ∧ _yyyymmdd_to_date s = Some n.
Proof. intros Hn <-. by apply yyyymmdd_print_parse. Qed.

Lemma yyyymmdd_round_trip_witness :
  FIRST_FOUR_DIGIT_DAY ≤ 738900 ≤ Py.MAXORDINAL
  ∧ _date_to_yyyymmdd 738900 = "20240115"
  ∧ _yyyymmdd_to_date "20240115" = Some 738900.
Proof.
  assert (FIRST_FOUR_DIGIT_DAY ≤ 738900 ≤ Py.MAXORDINAL) as Hrange by by_compute.
  assert (_date_to_yyyymmdd 738900 = "20240115") as Hprint by reflexivity.
  split; [exact Hrange|]. split; [exact Hprint|].
  exact (proj2 (yyyymmdd_round_trip 738900 "20240115" Hrange Hprint)).
Defined.


(** ** Active dates of one service *)

Lemma weekly_loop_spec (mask : list bool) (e : Z) (fuel : nat) (cur : Z)
    (active : gset Z) :
  0 < cur → Z.of_nat fuel = e - cur + 1 → e < Py.MAXORDINAL →
  weekly_loop fuel mask cur e active
  = Ok (list_to_set (filter (λ d, (mask !!! Z.to_nat (Py.weekday d) : bool))
                       (seqZ cur (Z.of_nat fuel))) ∪ active).
Proof.
  revert cur active. induction fuel as [|fuel IH]; intros cur active Hcur Hfuel He.
  - simpl. f_equal. set_solver.
  - cbn [weekly_loop]. rewrite bool_decide_eq_true_2 by lia.
    rewrite date_add_ok by lia. simpl.
    rewrite IH by lia.
    rewrite (seqZ_cons cur (Z.of_nat (S fuel))) by lia.
    replace (Z.pred (Z.of_nat (S fuel))) with (Z.of_nat fuel) by lia.
    replace (Z.succ cur) with (cur + 1) by lia.
    rewrite filter_cons.
    destruct (decide (Is_true (mask !!! Z.to_nat (Py.weekday cur)))) as [Hday|Hday].
    + apply Is_true_true in Hday. rewrite Hday. f_equal. set_solver.
    + apply Is_true_false in Hday. rewrite Hday. done.
Qed.

Lemma weekly_loop_overflow (mask : list bool) (fuel : nat) (cur : Z) (active : gset Z) :
  0 < cur ≤ Py.MAXORDINAL → Z.of_nat fuel = Py.MAXORDINAL - cur + 1 →
  weekly_loop fuel mask cur Py.MAXORDINAL active = Raise OverflowError.
Proof.
  revert cur active. induction fuel as [|fuel IH]; intros cur active Hcur Hfuel; [lia|].
  cbn [weekly_loop]. rewrite bool_decide_eq_true_2 by lia.
  destruct (decide (cur = Py.MAXORDINAL)) as [->|Hne].
  - by rewrite date_add_overflow by lia.
  - rewrite date_add_ok by lia. simpl. apply IH; lia.
Qed.

Lemma weekly_dates_elem (calendar : Row) (d : Z) :
  d ∈ weekly_dates calendar ↔
  ∃ s e, _parse_ymd (dict_get calendar "start_date" "") = Some s
         ∧ _parse_ymd (dict_get calendar "end_date" "") = Some e
         ∧ s ≤ d ≤ e
         ∧ _weekday_mask calendar !!! Z.to_nat (Py.weekday d) = true.
Proof.
  unfold weekly_dates.
  destruct (_parse_ymd (dict_get calendar "start_date" "")) as [s|];
    [destruct (_parse_ymd (dict_get calendar "end_date" "")) as [e|]|].
  - rewrite elem_of_list_to_set, list_elem_of_filter, elem_of_seqZ. split.
    + intros [Hday Hd]. exists s, e. split_and!; try done; try lia.
      by apply Is_true_true.
    + intros (s' & e' & [= <-] & [= <-] & Hd & Hday). split; [|lia].
      by apply Is_true_true.
  - split; [set_solver|]. by intros (s' & e' & _ & [=] & _).
  - split; [set_solver|]. by intros (s' & e' & [=] & _).
Qed.

Lemma overlay_elem (sid : string) (excs : list Row) (active : gset Z) (d : Z) :
  d ∈ foldl (overlay_step sid) active excs ↔
  match last (filter (exception_for sid d) excs) with
  | Some exc => dict_get exc "exception_type" "" = "1"
  | None => d ∈ active
  end.
Proof.
  induction excs as [|exc excs IH] using rev_ind; [done|].
  rewrite foldl_app, filter_app. simpl. rewrite filter_cons, filter_nil.
  unfold overlay_step at 1.
  destruct (decide (exception_for sid d exc)) as [(Hs & Hd & Ht)|Hnot].
  - rewrite last_snoc. rewrite bool_decide_eq_true_2 by done. rewrite Hd.
    destruct Ht as [Ht|Ht]; rewrite Ht; simpl.
    + split; [done|]. set_solver.
    + split; [set_solver|done].
  - rewrite app_nil_r, <- IH. unfold exception_for in Hnot.
    case_bool_decide as Hs; [|done].
    destruct (_parse_ymd (dict_get exc "date" "")) as [d'|] eqn:Hd; [|done].
    destruct (decide (d' = d)) as [->|Hne].
    + repeat case_bool_decide; try done; exfalso; apply Hnot; auto.
    + repeat case_bool_decide; set_solver.
Qed.

Lemma parsed_date_range (s : string) (n : Z) :
  _parse_ymd s = Some n → 1 ≤ n ≤ Py.MAXORDINAL.
Proof. intros Hn. by apply parsed_date_bounds in Hn. Qed.

Lemma active_dates_run (sid : string) (calendar : Row) (excs : list Row) :
  (open_ended calendar
   ∧ _active_dates_for_service sid calendar excs = Raise OverflowError)
  ∨ (¬ open_ended calendar
     ∧ _active_dates_for_service sid calendar excs
       = Ok (foldl (overlay_step sid) (weekly_dates calendar) excs)).
Proof.
  unfold _active_dates_for_service, open_ended, weekly_dates. cbv zeta.
  destruct (_parse_ymd (dict_get calendar "start_date" "")) as [s|] eqn:Hs;
    [destruct (_parse_ymd (dict_get calendar "end_date" "")) as [e|] eqn:He|].
  - pose proof (parsed_date_range _ _ Hs) as Rs.
    pose proof (parsed_date_range _ _ He) as Re.
    destruct (decide (e = Py.MAXORDINAL)) as [->|Hne].
    + left. split; [done|].
      rewrite weekly_loop_overflow; [done|lia|].
      unfold Py.MAXORDINAL in *. lia.
    + right. split; [by intros [_ [= ?]]|].
      destruct (decide (s ≤ e)) as [Hle|Hgt].
      * rewrite weekly_loop_spec by lia. simpl.
        rewrite Z2Nat.id by lia. by rewrite right_id_L by apply _.
      * replace (Z.to_nat (e - s + 1)) with 0%nat by lia. simpl.
        by rewrite seqZ_nil by lia.
  - right. split; [by intros [_ [=]]|done].
  - right. split; [by intros [[? [=]] _]|done].
Qed.

(** X7. For a calendar row that is not open-ended, the function returns the
    set in which a date is active iff the last exception of the service
    whose date reads as that date (type 1 or 2) has type 1 or, when there
    is no such exception, iff the date lies between the start and the end
    date of the row and its weekday is set in the row's mask. Every date
    of the set is a date between 0001-01-01 and 9999-12-31. Exceptions of
    other services, with unreadable dates or of other types do not count. *)
Theorem active_dates_closed_form (sid : string) (calendar : Row) (excs : list Row) :
  ¬ open_ended calendar →
  ∃ dates,
    _active_dates_for_service sid calendar excs = Ok dates
    ∧ (∀ d, d ∈ dates ↔
            match last (filter (exception_for sid d) excs) with
            | Some exc => dict_get exc "exception_type" "" = "1"
            | None => d ∈ weekly_dates calendar
            end)
    ∧ (∀ d, d ∈ weekly_dates calendar ↔
            ∃ s e, _parse_ymd (dict_get calendar "start_date" "") = Some s
                   ∧ _parse_ymd (dict_get calendar "end_date" "") = Some e
                   ∧ s ≤ d ≤ e
                   ∧ _weekday_mask calendar !!! Z.to_nat (Py.weekday d) = true)
    ∧ (∀ d, d ∈ dates → 1 ≤ d ≤ Py.MAXORDINAL).
Proof.
  intros Hopen. destruct (active_dates_run sid calendar excs) as [[? _]|[_ Hrun]]; [done|].
  eexists. split; [exact Hrun|]. split; [apply overlay_elem|].
  split; [apply weekly_dates_elem|].
  intros d Hd. apply overlay_elem in Hd.
  destruct (last _) as [exc|] eqn:Hlast.
  - apply last_Some_elem_of, list_elem_of_filter in Hlast as [(_ & Hparse & _) _].
    by eapply parsed_date_range.
  - apply weekly_dates_elem in Hd as (s & e & Hs & He & Hd & _).
    apply parsed_date_range in Hs, He. lia.
Qed.

Lemma active_dates_closed_form_witness :
  ¬ open_ended (default ∅ (week_dict !! "7"))
  ∧ ∃ dates,
      _active_dates_for_service "7" (default ∅ (week_dict !! "7")) week_exceptions
      = Ok dates
      ∧ 738889 ∈ dates ∧ 738890 ∉ dates.
Proof.
  assert (¬ open_ended (default ∅ (week_dict !! "7"))) as Hclosed by by_compute.
  split; [exact Hclosed|].
  destruct (active_dates_closed_form "7" (default ∅ (week_dict !! "7")) week_exceptions
              Hclosed) as (dates & Hrun & Helem & _).
  clear Hclosed. exists dates. split; [exact Hrun|]. clear Hrun. split.
  - apply Helem.
    assert (last (filter (exception_for "7" 738889) week_exceptions)
            = Some (mk_exception "7" "20240104" "1")) as -> by reflexivity.
    reflexivity.
  - intros Hin. apply Helem in Hin. clear Helem.
    assert (last (filter (exception_for "7" 738890) week_exceptions) = None) as Hlast
      by reflexivity.
    rewrite Hlast in Hin. clear Hlast. revert Hin. by_compute.
Defined.

(** X8. [_active_dates_for_service] raises exactly when the calendar row is
    open-ended: its start date reads as a date and its end date is
    9999-12-31. The error is [OverflowError], raised when the loop over the
    days steps past the last date. *)
Theorem active_dates_overflow (sid : string) (calendar : Row) (excs : list Row) (e : exn) :
  _active_dates_for_service sid calendar excs = Raise e ↔
  e = OverflowError ∧ open_ended calendar.
Proof.
  destruct (active_dates_run sid calendar excs) as [[Hopen ->]|[Hnot ->]].
  - split; [by intros [= <-]|by intros [-> _]].
  - split; [done|]. by intros [_ ?].
Qed.

Lemma active_dates_overflow_witness :
  open_ended endless_row
  ∧ _active_dates_for_service "9" endless_row [] = Raise OverflowError.
Proof.
  assert (open_ended endless_row) as Hopen by by_compute.
  split; [exact Hopen|].
  exact (proj2 (active_dates_overflow "9" endless_row [] OverflowError)
           (conj eq_refl Hopen)).
Defined.

(** ** When the resolver raises *)

Lemma foldlM_raise_or_Ok {A B : Type} (f : B → A → Res B) (bad : A → Prop) (e0 : exn)
    (l : list A) (b : B) :
  (∀ b x, (bad x ∧ f b x = Raise e0) ∨ (¬ bad x ∧ ∃ b', f b x = Ok b')) →
  (Exists bad l ∧ foldlM f b l = Raise e0)
  ∨ (Forall (λ x, ¬ bad x) l ∧ ∃ b', foldlM f b l = Ok b').
Proof.
  intros Hf. revert b. induction l as [|x l IH]; intros b; simpl.
  - right. split; [done|by eexists].
  - destruct (Hf b x) as [[Hbad ->]|[Hgood [b' ->]]]; simpl.
    + left. split; [by left|done].
    + destruct (IH b') as [[Hex Hrun]|[Hall Hrun]].
      * left. split; [by right|done].
      * right. split; [by constructor|done].
Qed.

Lemma service_metrics_run (svc_id : string) (calendars : gmap string Row)
    (calendar_dates : list Row) (pivot_date : Z) :
  (open_ended (default ∅ (calendars !! svc_id))
   ∧ service_metrics svc_id calendars calendar_dates pivot_date = Raise OverflowError)
  ∨ (¬ open_ended (default ∅ (calendars !! svc_id))
     ∧ ∃ mt, service_metrics svc_id calendars calendar_dates pivot_date = Ok mt).
Proof.
  unfold service_metrics. cbv zeta.
  destruct (active_dates_run svc_id (default ∅ (calendars !! svc_id))
              (filter (λ exc : Row, exc !! "service_id" = Some svc_id) calendar_dates))
    as [[Hopen ->]|[Hnot ->]]; simpl.
  - by left.
  - right. split; [done|by eexists].
Qed.

Lemma build_metrics_run (services : list string) (calendars : gmap string Row)
    (calendar_dates : list Row) (pivot_date : Z) :
  (Exists (λ s, open_ended (default ∅ (calendars !! s))) services
   ∧ build_metrics services calendars calendar_dates pivot_date = Raise OverflowError)
  ∨ (Forall (λ s, ¬ open_ended (default ∅ (calendars !! s))) services
     ∧ ∃ m, build_metrics services calendars calendar_dates pivot_date = Ok m).
Proof.
  apply foldlM_raise_or_Ok. intros m s. unfold metrics_step.
  destruct (service_metrics_run s calendars calendar_dates pivot_date)
    as [[Hopen ->]|[Hnot [mt ->]]]; simpl.
  - by left.
  - right. split; [done|by eexists].
Qed.

Lemma resolver_run (services : list string) (calendars : gmap string Row)
    (calendar_dates : list Row) (pivot_date overlap_max_days : Z) :
  ((2 ≤ length services)%nat
   ∧ (∃ s, s ∈ services ∧ open_ended (default ∅ (calendars !! s)))
   ∧ _choose_service_winner_factual services calendars calendar_dates pivot_date
       overlap_max_days = Raise OverflowError)
  ∨ (((length services ≤ 1)%nat
      ∨ ∀ s, s ∈ services → ¬ open_ended (default ∅ (calendars !! s)))
     ∧ ∃ v, _choose_service_winner_factual services calendars calendar_dates pivot_date
              overlap_max_days = Ok v).
Proof.
  destruct (decide (length services ≤ 1)%nat) as [Hone|Hmany].
  { right. split; [by left|]. unfold _choose_service_winner_factual.
    rewrite bool_decide_eq_true_2 by done. by eexists. }
  destruct (build_metrics_run services calendars calendar_dates pivot_date)
    as [[Hex Hrun]|[Hall [m Hrun]]].
  - left. split; [lia|]. split; [by apply Exists_exists in Hex|].
    unfold _choose_service_winner_factual.
    rewrite bool_decide_eq_false_2 by done. by rewrite Hrun.
  - right. split; [right; by apply Forall_forall|].
    by eapply resolver_total.
Qed.

(** X10. The resolver raises exactly when the group has two or more services
    and the calendar row of one of them is open-ended; the error is
    [OverflowError]. With at most one service, or when no candidate's row
    is open-ended, it returns a verdict; a candidate without calendar row
    does no harm. *)
Theorem resolver_raises_iff (services : list string) (calendars : gmap string Row)
    (calendar_dates : list Row) (pivot_date overlap_max_days : Z) :
  (∀ e,
     _choose_service_winner_factual services calendars calendar_dates pivot_date
       overlap_max_days = Raise e ↔
     (2 ≤ length services)%nat ∧ e = OverflowError
     ∧ ∃ s, s ∈ services ∧ open_ended (default ∅ (calendars !! s)))
  ∧ ((length services ≤ 1)%nat
     ∨ (∀ s, s ∈ services → ¬ open_ended (default ∅ (calendars !! s))) →
     ∃ v, _choose_service_winner_factual services calendars calendar_dates pivot_date
            overlap_max_days = Ok v).
Proof.
  destruct (resolver_run services calendars calendar_dates pivot_date overlap_max_days)
    as [(Hlen & (s & Hs & Hopen) & Hrun)|[Hgood [v Hrun]]]; rewrite Hrun.
  - split.
    + intros e. split; [intros [= <-]; split_and!; [done..|by exists s]|by intros (_ & -> & _)].
    + intros [?|Hgood]; [lia|]. by destruct (Hgood s Hs).
  - split; [|by eexists].
    intros e. split; [done|]. intros (Hlen & _ & s & Hs & Hopen).
    destruct Hgood as [?|Hgood]; [lia|]. by destruct (Hgood s Hs).
Qed.

Lemma resolver_raises_iff_witness :
  open_ended (default ∅ (<["9" := endless_row]> week_dict !! "9"))
  ∧ _choose_service_winner_factual ["7"; "9"] (<["9" := endless_row]> week_dict) []
      week_start 45 = Raise OverflowError.
Proof.
  assert (open_ended (default ∅ (<["9" := endless_row]> week_dict !! "9"))) as Hopen
    by by_compute.
  split; [exact Hopen|].
  refine (proj2 (proj1 (resolver_raises_iff ["7"; "9"] (<["9" := endless_row]> week_dict)
                          [] week_start 45) OverflowError) _).
  split; [simpl; lia|]. split; [reflexivity|].
  exists "9". split; [right; left | exact Hopen].
Defined.

(** ** The shapes of a verdict *)

(** X11. Every verdict has one of three shapes. With at most one service:
    the first service if any, the reason "Only one service in group", not
    ambiguous. With two or more services and [M] the largest number of
    dates two candidates share: if [M] exceeds the threshold, no winner,
    ambiguous, and the one reason that records [M] and the threshold;
    otherwise not ambiguous, at least one reason, and a winner that is one
    of the candidates. *)
Theorem verdict_shapes (services : list string) (calendars : gmap string Row)
    (calendar_dates : list Row) (pivot_date overlap_max_days : Z)
    (w : option string) (reasons : list string) (amb : bool) :
  _choose_service_winner_factual services calendars calendar_dates pivot_date
    overlap_max_days = Ok (w, reasons, amb) →
  ((length services ≤ 1)%nat
   ∧ w = head services ∧ reasons = ["Only one service in group"] ∧ amb = false)
  ∨ ((2 ≤ length services)%nat
     ∧ ∃ m M,
         build_metrics services calendars calendar_dates pivot_date = Ok m
         ∧ max_pairwise (overlap m) services M
         ∧ ((overlap_max_days < M
             ∧ w = None ∧ amb = true
             ∧ reasons = [ambiguous_reason M overlap_max_days])
            ∨ (M ≤ overlap_max_days
               ∧ amb = false ∧ reasons ≠ []
               ∧ ∃ winner, w = Some winner ∧ winner ∈ services))).
Proof.
  intros Hrun. destruct (decide (length services ≤ 1)%nat) as [Hone|Hmany].
  - left. unfold _choose_service_winner_factual in Hrun.
    rewrite bool_decide_eq_true_2 in Hrun by done. by simplify_eq.
  - right. assert (2 ≤ length services)%nat as Hlen by lia. split; [done|].
    destruct (resolver_chain _ _ _ _ _ _ Hlen Hrun) as (m & Hm & Hcases).
    exists m, (overlap_scan m services 0). split; [done|].
    split; [by apply overlap_scan_max|].
    destruct Hcases as [[Hov Hv]|[Hov Hchain]].
    + left. by simplify_eq.
    + right. destruct (chain_analysis _ _ _ _ _ Hm Hlen)
        as (winner & r1 & r2 & r3 & t & Hc & Hwin & _).
      rewrite Hc in Hchain. simplify_eq. split_and!; [done..| |].
      * intros Hnil. apply (f_equal length) in Hnil.
        rewrite !length_app in Hnil. simpl in Hnil. lia.
      * exists winner. split; [done|]. by eapply chain_winner_in.
Qed.

Lemma verdict_shapes_witness :
  _choose_service_winner_factual ["7"; "8"] week_dict [] week_start 45
  = Ok (Some "8", ["Latest last_active_date: 2024-01-10"], false)
  ∧ ∃ m M, build_metrics ["7"; "8"] week_dict [] week_start = Ok m
           ∧ max_pairwise (overlap m) ["7"; "8"] M ∧ M ≤ 45.
Proof.
  assert (_choose_service_winner_factual ["7"; "8"] week_dict [] week_start 45
          = Ok (Some "8", ["Latest last_active_date: 2024-01-10"], false)) as Hrun
    by reflexivity.
  split; [exact Hrun|].
  pose proof (verdict_shapes ["7"; "8"] week_dict [] week_start 45 _ _ _ Hrun) as Hthm.
  clear Hrun.
  destruct Hthm as [(Hlen & _)|(_ & m & M & Hm & Hmax & Hcases)].
  - exfalso. simpl in Hlen. lia.
  - exists m, M. split; [exact Hm|]. split; [exact Hmax|].
    destruct Hcases as [(_ & _ & Hamb & _)|(Hle & _)]; [discriminate Hamb | exact Hle].
Defined.

(** ** When pruning returns *)

Lemma calendars_dict_values (rows : list Row) (cd : gmap string Row) (s : string) (c : Row) :
  build_calendars_dict rows = Ok cd → cd !! s = Some c → c ∈ rows.
Proof.
  unfold build_calendars_dict. intros Hrun. revert s c.
  refine (foldlM_invariant
            (λ m : gmap string Row, ∀ s c, m !! s = Some c → c ∈ rows) _ _ _ _ _ _ Hrun).
  - intros m x m' Hx Hinv Hstep s c Hs.
    unfold calendars_step, dict_item in Hstep.
    destruct (x !! "service_id") as [sid|]; [|done]. simpl in Hstep. simplify_eq.
    destruct (decide (sid = s)) as [->|Hne].
    + rewrite lookup_insert_eq in Hs. by simplify_eq.
    + rewrite lookup_insert_ne in Hs by done. by eapply Hinv.
  - intros s c Hs. by rewrite lookup_empty in Hs.
Qed.

Lemma empty_row_closed : ¬ open_ended ∅.
Proof. by intros [[d Hd] _]. Qed.

Lemma process_group_run (calendars : gmap string Row) (calendar_dates : list Row)
    (pivot_date overlap_max_days : Z) (st : PruneState) (g : GroupKey * list string) :
  (overflowing_group calendars g
   ∧ process_group (λ service_ids,
       _choose_service_winner_factual service_ids calendars calendar_dates pivot_date
         overlap_max_days) st g = Raise OverflowError)
  ∨ (¬ overflowing_group calendars g
     ∧ ∃ st', process_group (λ service_ids,
                _choose_service_winner_factual service_ids calendars calendar_dates
                  pivot_date overlap_max_days) st g = Ok st').
Proof.
  destruct g as [[mask routes] sids]. unfold overflowing_group, process_group. simpl.
  case_bool_decide as Hlen; [right; split; [lia|by eexists]|].
  case_bool_decide as Hcount; [right; split; [lia|by eexists]|].
  destruct (resolver_run sids calendars calendar_dates pivot_date overlap_max_days)
    as [(Hlen2 & Hex & ->)|[Hgood [[[w rs] amb] ->]]]; simpl.
  - left. split; [|done]. split_and!; [lia|lia|done].
  - right. split.
    + intros (_ & _ & s & Hs & Hopen).
      destruct Hgood as [?|Hgood]; [lia|]. by destruct (Hgood s Hs).
    + destruct (amb || negb (truthy w)); by eexists.
Qed.

(** X18. With calendar rows that all carry a [service_id], the orchestrator
    raises [OverflowError] when a group that goes to the resolver (more
    than one member, more than two active days) has a member whose row in
    the dictionary of calendars is open-ended; when there is no such group
    and every exception row carries a [service_id], it returns. There is
    no such group when no calendar row is open-ended. *)
Theorem pruning_returns_or_overflows (today : Z)
    (agencies calendar_rows calendar_dates trips stop_times feed_info : list Row)
    (overlap_max_days : Z) (calendars_dict : gmap string Row) :
  build_calendars_dict calendar_rows = Ok calendars_dict →
  let groups := (_build_route_grouping calendar_rows trips).1 in
  ((∃ k l, groups !! k = Some l ∧ overflowing_group calendars_dict (k, l)) →
   _prune_overlaps_factual today agencies calendar_rows calendar_dates trips stop_times
     feed_info overlap_max_days = Raise OverflowError)
  ∧ ((∀ k l, groups !! k = Some l → ¬ overflowing_group calendars_dict (k, l)) →
     Forall (λ d : Row, is_Some (d !! "service_id")) calendar_dates →
     ∃ result,
       _prune_overlaps_factual today agencies calendar_rows calendar_dates trips
         stop_times feed_info overlap_max_days = Ok result)
  ∧ (Forall (λ c, ¬ open_ended c) calendar_rows →
     ∀ k l, groups !! k = Some l → ¬ overflowing_group calendars_dict (k, l)).
Proof.
  intros Hdict. cbv zeta.
  assert (Forall (λ c : Row, is_Some (c !! "service_id")) calendar_rows) as Hrows.
  { apply Forall_forall. intros c Hc. destruct (c !! "service_id") eqn:Hsid; [done|].
    unfold build_calendars_dict in Hdict.
    rewrite (calendars_dict_raises calendar_rows ∅) in Hdict; [done|by exists c]. }
  pose proof (foldlM_raise_or_Ok
                (process_group (λ service_ids,
                   _choose_service_winner_factual service_ids calendars_dict
                     calendar_dates (pivot_of today feed_info) overlap_max_days))
                (overflowing_group calendars_dict) OverflowError
                (sorted_groups (_build_route_grouping calendar_rows trips).1) init_state
                (λ st g, process_group_run calendars_dict calendar_dates
                           (pivot_of today feed_info) overlap_max_days st g)) as Hloop.
  assert (∀ r,
            foldlM (process_group (λ service_ids,
                      _choose_service_winner_factual service_ids calendars_dict
                        calendar_dates (pivot_of today feed_info) overlap_max_days))
              init_state (sorted_groups (_build_route_grouping calendar_rows trips).1) = r →
            prune_groups today calendar_rows calendar_dates trips feed_info
              overlap_max_days = r) as Hprune.
  { intros r <-. unfold prune_groups. by rewrite Hdict. }
  split_and!.
  - intros (k & l & Hk & Hbad).
    destruct Hloop as [[_ Hrun]|[Hall _]].
    + unfold _prune_overlaps_factual. by rewrite (Hprune _ Hrun).
    + rewrite Forall_forall in Hall. destruct (Hall (k, l)); [|done].
      by apply sorted_groups_elem.
  - intros Hgood Hcd.
    destruct Hloop as [[Hex _]|[_ [final Hrun]]].
    + apply Exists_exists in Hex as ([k l] & Hin & Hbad).
      apply sorted_groups_elem in Hin. by destruct (Hgood k l Hin).
    + unfold _prune_overlaps_factual. rewrite (Hprune _ Hrun). simpl.
      rewrite (kept_rows_Ok _ _ Hrows), (kept_rows_Ok _ _ Hcd). simpl.
      destruct (foldl _ _ trips) as [trips_f ids]. by eexists.
  - intros Hclosed k l Hk (_ & _ & s & Hs & Hopen).
    destruct (calendars_dict !! s) as [c|] eqn:Hc; simpl in Hopen.
    + rewrite Forall_forall in Hclosed.
      by destruct (Hclosed c (calendars_dict_values _ _ _ _ Hdict Hc)).
    + by apply empty_row_closed.
Qed.

Lemma pruning_returns_or_overflows_witness :
  build_calendars_dict week_rows = Ok week_dict
  ∧ Forall (λ c, ¬ open_ended c) week_rows
  ∧ ∃ result,
      _prune_overlaps_factual week_start [] week_rows [] week_trips week_stop_times [] 45
      = Ok result.
Proof.
  assert (build_calendars_dict week_rows = Ok week_dict) as Hdict by reflexivity.
  assert (Forall (λ c, ¬ open_ended c) week_rows) as Hclosed by by_compute.
  split; [exact Hdict|]. split; [exact Hclosed|].
  pose proof (pruning_returns_or_overflows week_start [] week_rows [] week_trips
                week_stop_times [] 45 week_dict Hdict) as Hthm.
  clear Hdict. cbv zeta in Hthm. destruct Hthm as (_ & Hreturns & Hgood).
  exact (Hreturns (Hgood Hclosed) (Forall_nil_2 _)).
Defined.

(** ** Services active on a date *)

(** X3. [_active_services_on] raises exactly when a calendar row that
    matches the date (its range contains [D] and its flag for [D]'s weekday
    is set) has no [service_id]; the error then is [KeyError] for that key.
    Rows that do not match may lack the key, and exceptions never raise. *)
Theorem active_services_raises_iff (D : Z) (calendars exceptions : list Row) (e : exn) :
  _active_services_on D calendars exceptions = Raise e ↔
  e = KeyError "service_id"
  ∧ ∃ cal, cal ∈ calendars ∧ in_weekly_pattern D cal = true
           ∧ cal !! "service_id" = None.
Proof.
  destruct (decide (Exists (λ cal : Row, in_weekly_pattern D cal = true
                                         ∧ cal !! "service_id" = None) calendars))
    as [Hex|Hall].
  - apply Exists_exists in Hex as (cal & Hcal & Hin & Hnone).
    unfold _active_services_on.
    rewrite calendar_loop_raises by (by exists cal). simpl.
    split; [intros [= <-]; split; [done|by exists cal]|by intros [-> _]].
  - rewrite active_services_on_spec.
    + split; [done|]. intros (_ & cal & Hcal & Hin & Hnone).
      destruct Hall. apply Exists_exists. by exists cal.
    + intros cal Hcal Hin. destruct (cal !! "service_id") eqn:Hsid; [done|].
      destruct Hall. apply Exists_exists. by exists cal.
Qed.

Lemma active_services_raises_iff_witness :
  in_weekly_pattern week_start anonymous_row = true
  ∧ _active_services_on week_start [anonymous_row] [] = Raise (KeyError "service_id").
Proof.
  assert (in_weekly_pattern week_start anonymous_row = true) as Hin by reflexivity.
  split; [exact Hin|].
  refine (proj2 (active_services_raises_iff week_start [anonymous_row] []
                   (KeyError "service_id")) _).
  split; [reflexivity|]. exists anonymous_row.
  split; [left|]. split; [exact Hin | reflexivity].
Defined.

Lemma active_services_elem (D : Z) (calendars exceptions : list Row)
    (active : gset string) (sid : string) :
  _active_services_on D calendars exceptions = Ok active →
  sid ∈ active ↔
  match last (filter (λ exc : Row,
                        exc !! "date" = Some (_date_to_yyyymmdd D)
                        ∧ dict_get exc "service_id" "" = sid
                        ∧ is_Some (exception_kind exc)) exceptions) with
  | Some exc => exception_kind exc = Some Add
  | None => ∃ cal, cal ∈ calendars ∧ in_weekly_pattern D cal = true
                   ∧ cal !! "service_id" = Some sid
  end.
Proof.
  intros Hrun.
  assert (active = spec_active_services D calendars exceptions) as ->.
  { destruct (decide (Exists (λ cal : Row, in_weekly_pattern D cal = true
                                           ∧ cal !! "service_id" = None) calendars))
      as [Hex|Hall].
    - apply Exists_exists in Hex as (cal & Hcal & Hin & Hnone).
      unfold _active_services_on in Hrun.
      rewrite calendar_loop_raises in Hrun by (by exists cal). done.
    - rewrite active_services_on_spec in Hrun; [by simplify_eq|].
      intros cal Hcal Hin. destruct (cal !! "service_id") eqn:Hsid; [done|].
      destruct Hall. apply Exists_exists. by exists cal. }
  unfold spec_active_services. rewrite apply_exceptions_elem.
  unfold exceptions_on. rewrite list_filter_filter.
  assert (filter (λ exc : Row,
                    (dict_get exc "service_id" "" = sid ∧ is_Some (exception_kind exc))
                    ∧ exc !! "date" = Some (_date_to_yyyymmdd D)) exceptions
          = filter (λ exc : Row,
                      exc !! "date" = Some (_date_to_yyyymmdd D)
                      ∧ dict_get exc "service_id" "" = sid
                      ∧ is_Some (exception_kind exc)) exceptions) as ->.
  { apply filter_ext_in. intros exc _. tauto. }
  destruct (last _); [done|]. apply weekly_services_elem.
Qed.

Lemma exception_kind_Some (exc : Row) :
  is_Some (exception_kind exc) ↔
  dict_get exc "exception_type" "" = "1" ∨ dict_get exc "exception_type" "" = "2".
Proof.
  unfold exception_kind. repeat case_bool_decide; split; auto; try by intros [? [=]].
  - by intros [?|?].
Qed.

Lemma exception_kind_Add (exc : Row) :
  exception_kind exc = Some Add ↔ dict_get exc "exception_type" "" = "1".
Proof. unfold exception_kind. repeat case_bool_decide; split; auto; by intros [=]. Qed.

(** X4. In the result of [_active_services_on], for a service with exceptions
    on the date (rows with the date's string, the service's id and type 1
    or 2) the last of them in input order decides: the service is active iff
    that one has type 1, whatever the calendars say. A service without such
    exceptions is active iff a calendar row with its id matches the date. *)
Theorem last_exception_decides (D : Z) (calendars exceptions : list Row)
    (active : gset string) (sid : string) :
  _active_services_on D calendars exceptions = Ok active →
  let matching :=
    filter (λ exc : Row,
              exc !! "date" = Some (_date_to_yyyymmdd D)
              ∧ dict_get exc "service_id" "" = sid
              ∧ (dict_get exc "exception_type" "" = "1"
                 ∨ dict_get exc "exception_type" "" = "2")) exceptions in
  (∀ exc, last matching = Some exc →
          (sid ∈ active ↔ dict_get exc "exception_type" "" = "1"))
  ∧ (last matching = None →
     (sid ∈ active ↔
      ∃ cal, cal ∈ calendars ∧ in_weekly_pattern D cal = true
             ∧ cal !! "service_id" = Some sid)).
Proof.
  intros Hrun matching. pose proof (active_services_elem _ _ _ _ sid Hrun) as Helem.
  assert (filter (λ exc : Row,
                    exc !! "date" = Some (_date_to_yyyymmdd D)
                    ∧ dict_get exc "service_id" "" = sid
                    ∧ is_Some (exception_kind exc)) exceptions = matching) as Heq.
  { apply filter_ext_in. intros exc _. by rewrite exception_kind_Some. }
  rewrite Heq in Helem. split.
  - intros exc Hlast. rewrite Hlast in Helem. by rewrite <- exception_kind_Add.
  - intros Hlast. by rewrite Hlast in Helem.
Qed.

Lemma last_exception_decides_witness :
  _active_services_on 738889 week_rows week_exceptions = Ok {["7"]}
  ∧ "7" ∈ ({["7"]} : gset string).
Proof.
  assert (_active_services_on 738889 week_rows week_exceptions = Ok {["7"]}) as Hrun
    by reflexivity.
  split; [exact Hrun|].
  pose proof (last_exception_decides 738889 week_rows week_exceptions {["7"]} "7" Hrun)
    as Hthm.
  clear Hrun. cbv zeta in Hthm. destruct Hthm as [Hlast _].
  apply (Hlast (mk_exception "7" "20240104" "1")); reflexivity.
Defined.

(** ** Windows *)

Section MoreWindowLists.

Variable sig_on : Z → Z * Z.

Lemma window_starts (ws : list (Z * Z)) (lo hi : Z) (i : nat) (w : Z * Z) :
  windows_ok sig_on lo hi ws → ws !! i = Some w → lo + Z.of_nat i ≤ w.1.
Proof.
  intros (Hh & _ & Hf & Hc). revert w. induction i as [|i IH]; intros w Hi.
  - destruct Hh as (w0 & Hw0 & <-). rewrite head_lookup in Hw0. simplify_eq. lia.
  - destruct (ws !! i) as [w0|] eqn:Hw0.
    + specialize (IH w0 eq_refl). destruct (Hc i w0 w Hw0 Hi) as [Hnext _].
      rewrite Forall_lookup in Hf. destruct (Hf _ _ Hw0) as [Hle _]. lia.
    + apply lookup_ge_None in Hw0. apply lookup_lt_Some in Hi. lia.
Qed.

Lemma windows_count (ws : list (Z * Z)) (lo hi : Z) :
  windows_ok sig_on lo hi ws →
  (1 ≤ length ws)%nat ∧ Z.of_nat (length ws) ≤ hi - lo + 1.
Proof.
  intros Hok. pose proof Hok as (_ & (w & Hlast & Hw) & Hf & _).
  rewrite last_lookup in Hlast. pose proof (lookup_lt_Some _ _ _ Hlast) as Hlt.
  split; [lia|].
  pose proof (window_starts ws lo hi _ w Hok Hlast) as Hstart.
  rewrite Forall_lookup in Hf. destruct (Hf _ _ Hlast) as [Hle _]. lia.
Qed.

Lemma single_window (ws : list (Z * Z)) (lo hi : Z) :
  windows_ok sig_on lo hi ws →
  (∀ d, lo ≤ d ≤ hi → sig_on d = sig_on lo) →
  ws = [(lo, hi)].
Proof.
  intros Hok Hconst. pose proof (windows_cover sig_on ws lo hi Hok) as Hcover.
  destruct Hok as ((w0 & Hhead & Hlo) & (w1 & Hlast & Hhi) & Hf & Hc).
  destruct ws as [|w [|w' ws]]; simplify_eq/=.
  - by destruct w0.
  - destruct (Hc 0%nat w0 w' eq_refl eq_refl) as [Hnext Hdiff]. destruct Hdiff.
    apply Hconst. apply Hcover. exists w'. split; [by right; left|].
    rewrite Forall_forall in Hf. destruct (Hf w') as [Hle _]; [by right; left|]. lia.
Qed.

End MoreWindowLists.

(** X5. With calendar rows that carry a [service_id] and a horizon of
    [days > 0] that ends by 9999-12-31, the scanner returns at least one
    window and at most [days + 1]; it returns the
    single window [(start, start + days)] when the signature of the active
    services is the same on every day of the range, and [days + 1] windows
    when the signature changes from each day to the next. *)
Theorem windows_count_bound (sha1_hex8 : string → Z) (start days : Z) (cal cd : list Row) :
  0 < days → 0 < start → start + days ≤ Py.MAXORDINAL →
  Forall (λ c : Row, is_Some (c !! "service_id")) cal →
  ∃ (ws : list (Z * Z)) (active : Z → gset string),
    _effective_windows sha1_hex8 start days cal cd = Ok ws
    ∧ (∀ d, _active_services_on d cal cd = Ok (active d))
    ∧ (1 ≤ length ws)%nat ∧ Z.of_nat (length ws) ≤ days + 1
    ∧ ((∀ d, start ≤ d ≤ start + days →
             sig sha1_hex8 (active d) = sig sha1_hex8 (active start)) →
       ws = [(start, start + days)])
    ∧ ((∀ d, start ≤ d < start + days →
             sig sha1_hex8 (active (d + 1)) ≠ sig sha1_hex8 (active d)) →
       Z.of_nat (length ws) = days + 1).
Proof.
  intros Hdays Hstart Hmax Hsid.
  assert (∀ lo hi d, lo ≤ d ≤ hi →
            Forall (λ c : Row, in_weekly_pattern d c = true → is_Some (c !! "service_id"))
              cal) as Hrange.
  { intros lo hi d _. eapply Forall_impl; [exact Hsid|]. by intros c Hc _. }
  destruct (effective_windows_ok sha1_hex8 start (start + days) cal cd Hstart
              (Hrange start (start + days)) days Hdays Hmax ltac:(lia))
    as (ws & Hws & Hok).
  exists ws, (λ d, spec_active_services d cal cd). split; [done|].
  split; [intros d; apply (scan_active d d cal cd (Hrange d d)); lia|].
  change (λ d, sig sha1_hex8 (spec_active_services d cal cd))
    with (scan_signature sha1_hex8 cal cd) in *.
  destruct (windows_count _ _ _ _ Hok) as [Hone Hmost].
  split; [done|]. split; [lia|].
  split; [intros Hconst; by apply (single_window (scan_signature sha1_hex8 cal cd))|].
  intros Hchange.
  pose proof (windows_cover _ _ _ _ Hok) as Hcover.
  destruct Hok as ((w0 & Hhead & Hlo) & (w1 & Hlast & Hhi) & Hf & Hc).
  rewrite Forall_forall in Hf.
  assert (∀ w, w ∈ ws → w.2 = w.1) as Hday.
  { intros w Hw. destruct (Hf w Hw) as [Hle Hsame].
    destruct (decide (w.2 = w.1)) as [|Hne]; [done|].
    assert (start ≤ w.1 ≤ start + days) as Hin1
      by (apply Hcover; exists w; split; [done|lia]).
    assert (start ≤ w.2 ≤ start + days) as Hin2
      by (apply Hcover; exists w; split; [done|lia]).
    destruct (Hchange w.1 ltac:(lia)). apply Hsame. lia. }
  assert (∀ (i : nat) w, ws !! i = Some w → w.1 = start + Z.of_nat i) as Hith.
  { induction i as [|i IH]; intros w Hi.
    - rewrite head_lookup in Hhead. simplify_eq. lia.
    - destruct (ws !! i) as [wi|] eqn:Hwi.
      + destruct (Hc i wi w Hwi Hi) as [Hnext _].
        rewrite Hnext, (Hday wi) by (by eapply list_elem_of_lookup_2).
        rewrite (IH wi eq_refl). lia.
      + apply lookup_ge_None in Hwi. apply lookup_lt_Some in Hi. lia. }
  rewrite last_lookup in Hlast. pose proof (lookup_lt_Some _ _ _ Hlast) as Hlt.
  pose proof (Hith _ _ Hlast) as Hw1.
  rewrite <- (Hday w1) in Hw1 by (by eapply list_elem_of_lookup_2). lia.
Qed.

Lemma windows_count_bound_witness :
  0 < 3 ∧ 0 < week_start ∧ week_start + 3 ≤ Py.MAXORDINAL
  ∧ Forall (λ c : Row, is_Some (c !! "service_id")) week_rows
  ∧ ∃ ws, _effective_windows demo_hash week_start 3 week_rows [] = Ok ws
          ∧ (1 ≤ length ws)%nat ∧ Z.of_nat (length ws) ≤ 3 + 1.
Proof.
  assert (0 < week_start) as Hstart by by_compute.
  assert (week_start + 3 ≤ Py.MAXORDINAL) as Hmax by by_compute.
  assert (Forall (λ c : Row, is_Some (c !! "service_id")) week_rows) as Hsid
    by by_compute.
  split; [lia|]. split; [exact Hstart|]. split; [exact Hmax|]. split; [exact Hsid|].
  destruct (windows_count_bound demo_hash week_start 3 week_rows [] ltac:(lia)
              Hstart Hmax Hsid) as (ws & active & Hws & _ & Hone & Hmost & _).
  exists ws. split; [exact Hws|]. split; [exact Hone | exact Hmost].
Defined.

(** X6. With calendar rows that carry a [service_id] and a horizon of
    [days > 0], the scanner raises [OverflowError] when [start + days] is
    past 9999-12-31, and returns windows otherwise. *)
Theorem windows_overflow (sha1_hex8 : string → Z) (start days : Z) (cal cd : list Row) :
  0 < start ≤ Py.MAXORDINAL → 0 < days →
  Forall (λ c : Row, is_Some (c !! "service_id")) cal →
  (Py.MAXORDINAL < start + days →
   _effective_windows sha1_hex8 start days cal cd = Raise OverflowError)
  ∧ (start + days ≤ Py.MAXORDINAL →
     ∃ ws, _effective_windows sha1_hex8 start days cal cd = Ok ws).
Proof.
  intros Hstart Hdays Hsid.
  assert (∀ lo hi d, lo ≤ d ≤ hi →
            Forall (λ c : Row, in_weekly_pattern d c = true → is_Some (c !! "service_id"))
              cal) as Hrange.
  { intros lo hi d _. eapply Forall_impl; [exact Hsid|]. by intros c Hc _. }
  split.
  - intros Hover. apply effective_windows_overflow; [done..|]. apply Hrange.
  - intros Hmax.
    destruct (effective_windows_ok sha1_hex8 start (start + days) cal cd ltac:(lia)
                (Hrange start (start + days)) days Hdays Hmax ltac:(lia))
      as (ws & Hws & _).
    by exists ws.
Qed.

Lemma windows_overflow_witness :
  0 < Py.MAXORDINAL ≤ Py.MAXORDINAL ∧ 0 < 1
  ∧ Py.MAXORDINAL < Py.MAXORDINAL + 1
  ∧ _effective_windows demo_hash Py.MAXORDINAL 1 week_rows [] = Raise OverflowError.
Proof.
  assert (0 < Py.MAXORDINAL ≤ Py.MAXORDINAL) as Hstart by by_compute.
  assert (Forall (λ c : Row, is_Some (c !! "service_id")) week_rows) as Hsid
    by by_compute.
  split; [exact Hstart|]. split; [lia|]. split; [lia|].
  exact (proj1 (windows_overflow demo_hash Py.MAXORDINAL 1 week_rows [] Hstart
                  ltac:(lia) Hsid) ltac:(lia)).
Defined.

(** ** The routes of the services *)

Lemma service_route_set_elem (trips : list Row) (sid r : string) :
  r ∈ service_route_set trips sid ↔
  ∃ t, t ∈ trips ∧ t !! "service_id" = Some sid ∧ r = trip_route t.
Proof.
  unfold service_route_set. rewrite elem_of_list_to_set, list_elem_of_fmap. split.
  - intros (t & -> & Ht). apply list_elem_of_filter in Ht as [Hs Ht]. by exists t.
  - intros (t & Ht & Hs & ->). exists t. split; [done|]. by apply list_elem_of_filter.
Qed.

Lemma service_routes_no_empty_key (trips : list Row) :
  foldl routes_step ∅ trips !! "" = None.
Proof.
  induction trips as [|t trips IH] using rev_ind; [done|].
  rewrite foldl_app. simpl. unfold routes_step.
  destruct (truthy (t !! "service_id")) eqn:Ht; [|done].
  apply truthy_Some in Ht as (s & -> & Hne). simpl.
  by rewrite lookup_insert_ne.
Qed.

(** X12. The table of routes that [_build_route_grouping] returns beside the
    groups has an entry for a service id iff the id is non-empty and some
    trip carries it; the entry holds the [route_id] of every such trip, the
    unknown-route sentinel standing for a missing or empty one. The
    calendar rows play no part in it. *)
Theorem service_routes_table (calendar_rows trips : list Row) (sid : string)
    (routes : gset string) :
  (_build_route_grouping calendar_rows trips).2 !! sid = Some routes ↔
  sid ≠ ""
  ∧ (∃ t, t ∈ trips ∧ t !! "service_id" = Some sid)
  ∧ ∀ r, r ∈ routes ↔
         ∃ t, t ∈ trips ∧ t !! "service_id" = Some sid
              ∧ r = or_default (t !! "route_id") UNKNOWN_ROUTE_ID.
Proof.
  unfold _build_route_grouping. simpl.
  destruct (decide (sid = "")) as [->|Hne].
  { rewrite service_routes_no_empty_key. split; [done|by intros [? _]]. }
  destruct (service_routes_spec trips sid Hne) as [Hset Hnonempty].
  split.
  - intros Hsome. rewrite Hsome in Hset, Hnonempty. simpl in Hset. subst routes.
    split; [done|]. split; [|intros r; apply service_route_set_elem].
    destruct (set_choose_or_empty (service_route_set trips sid)) as [[r Hr]|Hempty].
    + apply service_route_set_elem in Hr as (t & Ht & Hs & _). by exists t.
    + apply leibniz_equiv in Hempty. by rewrite Hempty in Hnonempty.
  - intros (_ & (t & Ht & Hs) & Hroutes).
    assert (routes = service_route_set trips sid) as ->.
    { apply set_eq. intros r. rewrite Hroutes. symmetry. apply service_route_set_elem. }
    destruct (foldl routes_step ∅ trips !! sid) as [S|]; simpl in Hset; [by subst|].
    assert (trip_route t ∈ service_route_set trips sid) as Hin
      by (apply service_route_set_elem; by exists t).
    rewrite <- Hset in Hin. set_solver.
Qed.

Lemma service_routes_table_witness :
  (_build_route_grouping week_rows week_trips).2 !! "7" = Some {["R"]}
  ∧ ∃ t, t ∈ week_trips ∧ t !! "service_id" = Some "7".
Proof.
  assert ((_build_route_grouping week_rows week_trips).2 !! "7" = Some {["R"]}) as Hsome
    by reflexivity.
  split; [exact Hsome|].
  pose proof (proj1 (service_routes_table week_rows week_trips "7" {["R"]}) Hsome)
    as Hthm.
  clear Hsome. destruct Hthm as (_ & Htrip & _). exact Htrip.
Defined.

(** ** The two notions of activity *)

Lemma in_weekly_pattern_dates (D : Z) (cal : Row) :
  in_weekly_pattern D cal = true ↔ D ∈ weekly_dates cal.
Proof.
  rewrite weekly_dates_elem. unfold in_weekly_pattern, _parse_ymd.
  destruct (_yyyymmdd_to_date (dict_get cal "start_date" "")) as [s|];
    [destruct (_yyyymmdd_to_date (dict_get cal "end_date" "")) as [e|]|].
  - rewrite andb_true_iff, !bool_decide_eq_true. split.
    + intros [Hd Hday]. exists s, e. split_and!; try done; try lia.
      rewrite weekday_mask_lookup. by apply bool_decide_eq_true.
    + intros (s' & e' & [= <-] & [= <-] & Hd & Hday). split; [done|].
      rewrite weekday_mask_lookup in Hday. by apply bool_decide_eq_true in Hday.
  - split; [done|]. by intros (s' & e' & _ & [=] & _).
  - split; [done|]. by intros (s' & e' & [=] & _).
Qed.

(** X9. The scanner's and the resolver's notions of activity agree. For a
    date [D] from 1000-01-01 on, a service with a non-empty id and one
    calendar row [cal], and exceptions whose date strings are the printed
    form of the date they read as, the service is among
    [_active_services_on D] iff [D] is among the dates
    [_active_dates_for_service] computes for the service from [cal]. *)
Theorem activity_notions_agree (D : Z) (calendar_rows calendar_dates : list Row)
    (cal : Row) (sid : string) (active : gset string) (dates : gset Z) :
  FIRST_FOUR_DIGIT_DAY ≤ D ≤ Py.MAXORDINAL →
  sid ≠ "" →
  cal ∈ calendar_rows → cal !! "service_id" = Some sid →
  (∀ c, c ∈ calendar_rows → c !! "service_id" = Some sid → c = cal) →
  (∀ exc d, exc ∈ calendar_dates →
            _parse_ymd (dict_get exc "date" "") = Some d →
            exc !! "date" = Some (_date_to_yyyymmdd d)) →
  _active_services_on D calendar_rows calendar_dates = Ok active →
  _active_dates_for_service sid cal calendar_dates = Ok dates →
  sid ∈ active ↔ D ∈ dates.
Proof.
  intros HD Hne Hcal Hsid Huniq Hcanon Hactive Hdates.
  rewrite (active_services_elem _ _ _ _ sid Hactive).
  destruct (active_dates_run sid cal calendar_dates) as [[_ Hrun]|[_ Hrun]];
    rewrite Hrun in Hdates; [done|]. injection Hdates as <-.
  rewrite overlay_elem.
  assert (filter (λ exc : Row,
                    exc !! "date" = Some (_date_to_yyyymmdd D)
                    ∧ dict_get exc "service_id" "" = sid
                    ∧ is_Some (exception_kind exc)) calendar_dates
          = filter (exception_for sid D) calendar_dates) as ->.
  { apply filter_ext_in. intros exc Hexc. unfold exception_for, exception_kind, dict_get.
    split.
    - intros (Hdate & Hs & Hkind). split_and!.
      + destruct (exc !! "service_id") as [s|]; simpl in Hs; by subst.
      + rewrite Hdate. simpl. unfold _parse_ymd.
        by apply (yyyymmdd_parse_print D).
      + repeat case_bool_decide; auto. by destruct Hkind.
    - intros (Hs & Hparse & Hkind). split_and!.
      + by apply Hcanon.
      + by rewrite Hs.
      + destruct Hkind as [Hk|Hk]; unfold dict_get in Hk; rewrite Hk; by eexists. }
  destruct (last (filter (exception_for sid D) calendar_dates)) as [exc|].
  - unfold exception_kind. repeat case_bool_decide; naive_solver.
  - rewrite <- in_weekly_pattern_dates. split.
    + intros (c & Hc & Hin & Hcs). by rewrite <- (Huniq c Hc Hcs).
    + intros Hin. by exists cal.
Qed.

Lemma activity_notions_agree_witness :
  _active_services_on 738889 week_rows week_exceptions = Ok {["7"]}
  ∧ _active_dates_for_service "7" (default ∅ (week_dict !! "7")) week_exceptions
    = Ok week_dates7
  ∧ ("7" ∈ ({["7"]} : gset string) ↔ 738889 ∈ week_dates7).
Proof.
  assert (_active_services_on 738889 week_rows week_exceptions = Ok {["7"]}) as Hactive
    by reflexivity.
  assert (_active_dates_for_service "7" (default ∅ (week_dict !! "7")) week_exceptions
          = Ok week_dates7) as Hdates by reflexivity.
  assert (FIRST_FOUR_DIGIT_DAY ≤ 738889 ≤ Py.MAXORDINAL) as Hrange by by_compute.
  assert ("7" ≠ "") as Hne by (intros Heq; discriminate Heq).
  assert (default ∅ (week_dict !! "7") ∈ week_rows) as Hcal by by_compute.
  assert (default ∅ (week_dict !! "7") !! "service_id" = Some "7") as Hsid by reflexivity.
  split; [exact Hactive|]. split; [exact Hdates|].
  refine (activity_notions_agree 738889 week_rows week_exceptions
            (default ∅ (week_dict !! "7")) "7" {["7"]} week_dates7
            Hrange Hne Hcal Hsid _ _ Hactive Hdates);
    clear Hactive Hdates Hrange Hne Hcal Hsid.
  - intros c Hc Hs.
    apply elem_of_cons in Hc as [->|Hc]; [reflexivity|].
    apply elem_of_cons in Hc as [->|Hc]; [|inversion Hc].
    vm_compute in Hs. discriminate Hs.
  - intros exc d Hexc Hparse.
    apply elem_of_cons in Hexc as [->|Hexc]; [|inversion Hexc].
    vm_compute in Hparse. injection Hparse as <-. reflexivity.
Defined.
